(** * envoy-demo: the asyncio notify/wait demo (src/demo.py)

    A shallow embedding of the module-level dict [state], of the
    dispatcher [protocol_x_decoder] with its three handlers, of the wait
    primitives [await_message], [await_all_messages] and
    [await_any_messages], and of the two example consumers
    [message_arrival_notifier] and [message_monitor].

    The program runs on asyncio's single-threaded event loop.  The loop is
    modelled as a FIFO queue of ready handles over a table of tasks; a
    coroutine is run from one suspension point to the next by a function
    on the loop state.  Arrival of datagrams, expiry of the monitor's
    deadline and creation of top-level tasks are inputs of the
    environment. *)

From Stdlib Require Import ZArith QArith.
From stdpp Require Import gmap strings list fin_maps.

Set Warnings "-register-all".
Open Scope string_scope.
Open Scope list_scope.
Open Scope nat_scope.

(** ** Values *)

(** A Python float, as [json.loads] can produce it. *)
Inductive pyfloat :=
| FFinite (q : Q)
| FInf (negative : bool)
| FNan.

(** The result of [json.loads]. *)
Inductive json :=
| JNull
| JBool (b : bool)
| JInt (n : Z)
| JFloat (x : pyfloat)
| JStr (s : string)
| JArr (items : list json)
| JObj (fields : list (string * json)).

(** Values returned by the coroutines of the module. *)
Inductive pyval :=
| VNone
| VStr (s : string)
| VList (items : list pyval)
| VTuple (items : list pyval).

(** Exceptions the module's code can raise. *)
Inductive exn :=
| JSONDecodeError
| KeyError (key : string)
| TypeError
| AttributeError
| RuntimeError
| ValueError_unknown_type (type_ : json)
| ValueError_empty_set
| CancelledError
| TimeoutError.

Inductive outcome :=
| Ret (v : pyval)
| Exc (e : exn).

(** [json.loads] builds a dict from the pairs of an object in order, so a
    repeated key keeps its last value. *)
Fixpoint dict_get (key : string) (fields : list (string * json)) : option json :=
  match fields with
  | [] => None
  | (k, v) :: rest =>
      match dict_get key rest with
      | Some v' => Some v'
      | None => if decide (k = key) then Some v else None
      end
  end.

(** [data[key]] for a string [key]: only a dict can be subscripted with a
    string. *)
Definition subscript (data : json) (key : string) : json + exn :=
  match data with
  | JObj fields =>
      match dict_get key fields with
      | Some v => inl v
      | None => inr (KeyError key)
      end
  | _ => inr TypeError
  end.

(** [v == n] for an int literal [n]. *)
Definition py_eq_int (v : json) (n : Z) : bool :=
  match v with
  | JInt m => (m =? n)%Z
  | JBool b => (Z.b2z b =? n)%Z
  | JFloat (FFinite q) => Qeq_bool q (inject_Z n)
  | _ => false
  end.

(** ** The shared dict [state] and its conditions *)

(** An [asyncio.Condition] with its own [Lock].  Futures of waiters are
    named by the task that awaits them: a task awaits at most one future
    at a time.  [notified] counts the calls of [notify_all]; the program
    does not read it. *)
Record Condition := mkCondition {
  locked : bool;
  lock_waiters : list nat;
  waiters : list nat;
  notified : nat
}.

(** A value of the dict [state]: a payload (any JSON value, [None]
    included) or a condition. *)
Inductive entry :=
| Val (v : json)
| Cond (c : Condition).

Definition new_condition : Condition := mkCondition false [] [] 0.

(** [state] as the module defines it. *)
Definition state0 : gmap string entry :=
  <["a_event" := Val JNull]> (
  <["a" := Val (JObj [("1", JInt 0); ("2", JInt 0)])]> (
  <["b_event" := Val JNull]> (
  <["b" := Val (JObj [("3", JInt 0); ("4", JInt 0)])]> (
  <["c_event" := Val JNull]> (
  <["c" := Val (JObj [("5", JInt 0); ("6", JInt 0)])]> ∅))))).

Definition create_conditions (st : gmap string entry) : gmap string entry :=
  <["c_event" := Cond new_condition]> (
  <["b_event" := Cond new_condition]> (
  <["a_event" := Cond new_condition]> st)).

(** ** Tasks *)

(** The coroutines a task can run. *)
Inductive coro :=
| CDecoder (message : string)
| CAwaitMessage (message : string)
| CAwaitAll (messages : list string)
| CAwaitAny (messages : list string)
| CNotifier
| CMonitor.

(** Who awaits [await_any_messages]: a task of its own, the loop of
    [message_arrival_notifier] or the loop of [message_monitor]. *)
Inductive caller := ByTask | ByNotifier | ByMonitor.

(** Where a task goes on once [Lock.acquire] has given it the lock. *)
Inductive lock_cont :=
| InDecode (key : string)
| InAwaitEnter (message : string)
| InAwaitLeave (message : string).

Inductive fut_state := Pending | Done | Cancelled.

(** The point at which a task is suspended.  [CondWait m b]: inside
    [cond.wait()] of [await_message m], [b] tells whether the future has
    its result.  [Gather]: inside [asyncio.gather] with the outer future.
    [Wait]: inside [asyncio.wait] with its [waiter] future; [call] numbers
    the calls one task makes. *)
Inductive pc :=
| Start (c : coro)
| LockWait (k : lock_cont) (granted : bool)
| CondWait (message : string) (woken : bool)
| Gather (messages : list string) (children : list nat) (nfinished : nat)
         (outer : option outcome)
| Wait (who : caller) (call : nat) (children : list nat) (waiter : fut_state)
| Finished (r : outcome).

(** Done callbacks of a task: [_on_completion] of [asyncio.wait] and
    [_done_callback] of [asyncio.gather]. *)
Inductive callback :=
| OnCompletion (parent call : nat)
| GatherDone (parent : nat).

#[global] Instance callback_eq_dec : EqDecision callback.
Proof. solve_decision. Defined.

(** The timer of [asyncio_timeout]: not set, set, moved to the ready
    queue, run ([_cancel_task] was called), or cancelled on exit. *)
Inductive timer := NoTimer | Armed | Due | Fired | Disarmed.

Record task := mkTask {
  t_pc : pc;
  t_callbacks : list callback;
  t_must_cancel : bool;
  t_timer : timer
}.

(** What the loop has ready to run: a step of a task, a done callback for
    a finished child, the expiry of a task's deadline. *)
Inductive handle :=
| Run (t : nat)
| Call (cb : callback) (child : nat)
| Expire (t : nat).

#[global] Instance handle_eq_dec : EqDecision handle.
Proof. solve_decision. Defined.

(** The lines the consumers print. *)
Inductive line :=
| LMessageArrived (arrived : list string)
| LArrived (arrived : list string)
| LValues (a1 b3 : json)
| LConditionMet
| LConditionsFailed.

Record Loop := mkLoop {
  state : gmap string entry;
  tasks : list task;
  ready : list handle;
  out : list line
}.

(** ** Coroutine segments

    A coroutine segment runs on the loop state up to the next suspension
    point: it returns, raises or suspends at a [pc]. *)
Inductive res (A : Type) :=
| Ok (a : A)
| Raise (e : exn)
| Suspend (p : pc).
Arguments Ok {A} a.
Arguments Raise {A} e.
Arguments Suspend {A} p.

Definition coroutine (A : Type) : Type := Loop → Loop * res A.

Definition ret {A} (a : A) : coroutine A := λ L, (L, Ok a).
Definition raise {A} (e : exn) : coroutine A := λ L, (L, Raise e).
Definition suspend {A} (p : pc) : coroutine A := λ L, (L, Suspend p).
Definition effect (f : Loop → Loop) : coroutine unit := λ L, (f L, Ok tt).

Definition bind {A B} (m : coroutine A) (f : A → coroutine B) : coroutine B :=
  λ L, match m L with
       | (L', Ok a) => f a L'
       | (L', Raise e) => (L', Raise e)
       | (L', Suspend p) => (L', Suspend p)
       end.

(** [try: m except e: h e]. *)
Definition catch {A} (m : coroutine A) (h : exn → coroutine A) : coroutine A :=
  λ L, match m L with
       | (L', Raise e) => h e L'
       | r => r
       end.

(** A segment that never returns: it suspends or raises. *)
Definition never {A} (m : coroutine Empty_set) : coroutine A :=
  bind m (λ x, match x with end).

Definition py {A} (r : A + exn) : coroutine A :=
  match r with inl a => ret a | inr e => raise e end.

(** A segment that only looks at the loop state. *)
Definition read {A} (f : Loop → A + exn) : coroutine A := λ L, py (f L) L.

Declare Scope coroutine_scope.
Delimit Scope coroutine_scope with coroutine.
Notation "x <- m ;; f" := (bind m (λ x, f))
  (at level 100, m at next level, right associativity) : coroutine_scope.
Notation "m ;;; f" := (bind m (λ _, f))
  (at level 100, right associativity) : coroutine_scope.
Open Scope coroutine_scope.

(** ** Loop and task primitives *)

Definition set_state (st : gmap string entry) (L : Loop) : Loop :=
  mkLoop st (tasks L) (ready L) (out L).
Definition set_tasks (ts : list task) (L : Loop) : Loop :=
  mkLoop (state L) ts (ready L) (out L).

(** [loop.call_soon]: the handle goes to the end of the ready queue. *)
Definition call_soon (h : handle) (L : Loop) : Loop :=
  mkLoop (state L) (tasks L) (ready L ++ [h]) (out L).

Definition print (l : line) : coroutine unit :=
  effect (λ L, mkLoop (state L) (tasks L) (ready L) (out L ++ [l])).

(** [loop.create_task(coro)] followed by [add_done_callback] for each of
    [cbs]: the new task's first step is scheduled with [call_soon]. *)
Definition create_task (c : coro) (cbs : list callback) (L : Loop) : nat * Loop :=
  let t := length (tasks L) in
  (t, call_soon (Run t) (set_tasks (tasks L ++ [mkTask (Start c) cbs false NoTimer]) L)).

Definition update_task (t : nat) (f : task → task) (L : Loop) : Loop :=
  match tasks L !! t with
  | Some T => set_tasks (<[t := f T]> (tasks L)) L
  | None => L
  end.

Definition with_pc (p : pc) (T : task) : task :=
  mkTask p (t_callbacks T) (t_must_cancel T) (t_timer T).
Definition with_callbacks (cbs : list callback) (T : task) : task :=
  mkTask (t_pc T) cbs (t_must_cancel T) (t_timer T).
Definition with_must_cancel (b : bool) (T : task) : task :=
  mkTask (t_pc T) (t_callbacks T) b (t_timer T).
Definition with_timer (d : timer) (T : task) : task :=
  mkTask (t_pc T) (t_callbacks T) (t_must_cancel T) d.

Definition set_pc (t : nat) (p : pc) : Loop → Loop := update_task t (with_pc p).

Definition pc_of (t : nat) (L : Loop) : option pc := t_pc <$> tasks L !! t.

(** A task finishes with a result or an exception: its done callbacks are
    scheduled with [call_soon], in order. *)
Definition finish (t : nat) (r : outcome) (L : Loop) : Loop :=
  match tasks L !! t with
  | Some T =>
      mkLoop (state L)
             (<[t := with_callbacks [] (with_pc (Finished r) T)]> (tasks L))
             (ready L ++ ((λ cb, Call cb t) <$> t_callbacks T))
             (out L)
  | None => L
  end.

(** [Future.set_result] on the future a suspended task awaits: the task's
    wake-up is scheduled.  A future that is done is left alone. *)
Definition set_result (t : nat) (L : Loop) : Loop :=
  match pc_of t L with
  | Some (CondWait m false) => call_soon (Run t) (set_pc t (CondWait m true) L)
  | Some (LockWait k false) => call_soon (Run t) (set_pc t (LockWait k true) L)
  | Some (Wait who call children Pending) =>
      call_soon (Run t) (set_pc t (Wait who call children Done) L)
  | _ => L
  end.

(** [list.remove(x)] / [deque.remove(x)]: the first occurrence goes. *)
Fixpoint remove_first (x : nat) (l : list nat) : list nat :=
  match l with
  | [] => []
  | y :: l' => if decide (y = x) then l' else y :: remove_first x l'
  end.

(** ** asyncio.Lock and asyncio.Condition *)

Definition cond_lookup (key : string) (L : Loop) : option Condition :=
  match state L !! key with
  | Some (Cond c) => Some c
  | _ => None
  end.

Definition set_cond (key : string) (c : Condition) (L : Loop) : Loop :=
  set_state (<[key := Cond c]> (state L)) L.

(** [cond = state[key]], as the operand of [async with]. *)
Definition cond_at (key : string) : coroutine Condition :=
  read (λ L, match state L !! key with
             | Some (Cond c) => inl c
             | Some (Val _) => inr AttributeError
             | None => inr (KeyError key)
             end).

(** [Lock.acquire]: taken at once when the lock is free and nobody queues
    for it; otherwise the task queues and suspends. *)
Definition lock_acquire (key : string) (t : nat) (k : lock_cont) : coroutine unit :=
  c <- cond_at key ;;
  if negb (locked c) && bool_decide (lock_waiters c = [])
  then effect (set_cond key (mkCondition true (lock_waiters c) (waiters c) (notified c)))
  else
    effect (set_cond key
              (mkCondition (locked c) (lock_waiters c ++ [t]) (waiters c) (notified c))) ;;;
    suspend (LockWait k false).

(** The rest of [Lock.acquire] once the queued future has its result. *)
Definition lock_granted (key : string) (t : nat) : coroutine unit :=
  c <- cond_at key ;;
  effect (set_cond key
            (mkCondition true (remove_first t (lock_waiters c)) (waiters c) (notified c))).

(** [Lock.release]: the first queued task, if any, is woken. *)
Definition lock_release (key : string) : coroutine unit :=
  c <- cond_at key ;;
  if locked c
  then
    effect (set_cond key (mkCondition false (lock_waiters c) (waiters c) (notified c))) ;;;
    effect (λ L, match lock_waiters c with
                 | t :: _ => set_result t L
                 | [] => L
                 end)
  else raise RuntimeError.

(** [set_result] for a list of awaited futures, in order. *)
Definition wake_all (ws : list nat) (L : Loop) : Loop :=
  foldl (λ L' t, set_result t L') L ws.

(** [Condition.notify_all]: every waiter whose future is pending gets its
    result. *)
Definition notify_all (key : string) : coroutine unit :=
  c <- cond_at key ;;
  if locked c
  then
    effect (wake_all (waiters c)) ;;;
    effect (set_cond key
              (mkCondition (locked c) (lock_waiters c) (waiters c) (S (notified c))))
  else raise RuntimeError.

(** [Condition.wait] up to [await fut]: the lock is released, the task's
    future joins the waiters and the task suspends. *)
Definition cond_wait (key message : string) (t : nat) : coroutine Empty_set :=
  c <- cond_at key ;;
  if locked c
  then
    lock_release key ;;;
    c' <- cond_at key ;;
    effect (set_cond key
              (mkCondition (locked c') (lock_waiters c') (waiters c' ++ [t]) (notified c'))) ;;;
    suspend (CondWait message false)
  else raise RuntimeError.

(** [Condition.wait] after [await fut]: the future leaves the waiters and
    the lock is taken again. *)
Definition cond_wait_woken (key message : string) (t : nat) : coroutine unit :=
  c <- cond_at key ;;
  effect (set_cond key
            (mkCondition (locked c) (lock_waiters c) (remove_first t (waiters c)) (notified c))) ;;;
  lock_acquire key t (InAwaitLeave message).

(** ** The program *)

Section Program.

(** [json.loads]: [None] when it raises [JSONDecodeError]. *)
Context (json_loads : string → option json).

(** The order in which Python iterates over a set built from a list;
    [asyncio.wait] puts its awaitables and its finished tasks in sets. *)
Context (set_iter : ∀ A : Type, list A → list A).

(** *** protocol_x_decoder *)

(** The body shared by [decode_a], [decode_b] and [decode_c] once the lock
    of [cond] is held: [cond.notify_all()] and the exit of [async with]. *)
Definition decode_locked (key : string) : coroutine pyval :=
  notify_all key ;;;
  lock_release key ;;;
  ret VNone.

Definition decode (name key : string) (data : json) (t : nat) : coroutine pyval :=
  effect (λ L, set_state (<[name := Val data]> (state L)) L) ;;;
  lock_acquire key t (InDecode key) ;;;
  decode_locked key.

Definition decode_a : json → nat → coroutine pyval := decode "a" "a_event".
Definition decode_b : json → nat → coroutine pyval := decode "b" "b_event".
Definition decode_c : json → nat → coroutine pyval := decode "c" "c_event".

(** [decoders.get(type_)]: a list or a dict is not hashable. *)
Definition decoders_get (type_ : json)
  : option (json → nat → coroutine pyval) + exn :=
  match type_ with
  | JStr s =>
      inl (if decide (s = "a") then Some decode_a
           else if decide (s = "b") then Some decode_b
           else if decide (s = "c") then Some decode_c
           else None)
  | JArr _ | JObj _ => inr TypeError
  | _ => inl None
  end.

Definition protocol_x_decoder (message : string) (t : nat) : coroutine pyval :=
  data <- py (match json_loads message with
              | Some d => inl d
              | None => inr JSONDecodeError
              end) ;;
  type_ <- py (subscript data "type") ;;
  payload <- py (subscript data "payload") ;;
  decoder <- py (decoders_get type_) ;;
  match decoder with
  | None => raise (ValueError_unknown_type type_)
  | Some decoder => decoder payload t
  end.

(** *** await_message *)

Definition await_message_leave (message : string) : coroutine pyval :=
  lock_release (message +:+ "_event") ;;;
  ret (VStr message).

Definition await_message (message : string) (t : nat) : coroutine pyval :=
  let key := message +:+ "_event" in
  lock_acquire key t (InAwaitEnter message) ;;;
  never (cond_wait key message t).

(** [await_message] from the wake-up of [cond.wait()] to its return. *)
Definition await_message_woken (message : string) (t : nat) : coroutine pyval :=
  cond_wait_woken (message +:+ "_event") message t ;;;
  await_message_leave message.

(** *** await_all_messages and await_any_messages *)

(** One task per coroutine of [cs], created in order, each with the done
    callback [cb]. *)
Fixpoint create_tasks (cs : list coro) (cb : callback) (L : Loop) : Loop * list nat :=
  match cs with
  | [] => (L, [])
  | c :: cs' =>
      let '(t, L1) := create_task c [cb] L in
      let '(L2, ts) := create_tasks cs' cb L1 in
      (L2, t :: ts)
  end.

(** The tasks of [create_tasks], as a segment. *)
Definition spawn (cs : list coro) (cb : callback) : coroutine (list nat) := λ L,
  let '(L', ts) := create_tasks cs cb L in (L', Ok ts).

Definition result_of (t : nat) (L : Loop) : option outcome :=
  match pc_of t L with
  | Some (Finished r) => Some r
  | _ => None
  end.

Definition is_done (L : Loop) (t : nat) : bool :=
  match result_of t L with Some _ => true | None => false end.

(** [asyncio.gather] of no awaitable is done at once, and awaiting it does
    not suspend. *)
Definition await_all_messages (messages : list string) (t : nat) : coroutine pyval :=
  match messages with
  | [] => ret (VTuple [])
  | _ =>
      children <- spawn (CAwaitMessage <$> messages) (GatherDone t) ;;
      suspend (Gather messages children 0 None)
  end.

Definition await_all_resumed (messages : list string) (outer : outcome) : coroutine pyval :=
  match outer with
  | Ret _ => ret (VTuple (VStr <$> messages))
  | Exc e => raise e
  end.

(** [_done_callback] of [gather] for the finished [child]. *)
Definition gather_done (parent child : nat) (L : Loop) : Loop :=
  match pc_of parent L with
  | Some (Gather ms children n outer) =>
      match outer with
      | Some _ => set_pc parent (Gather ms children (S n) outer) L
      | None =>
          match result_of child L with
          | Some (Exc e) =>
              call_soon (Run parent)
                (set_pc parent (Gather ms children (S n) (Some (Exc e))) L)
          | Some (Ret _) =>
              if decide (S n = length children)
              then call_soon (Run parent)
                     (set_pc parent
                        (Gather ms children (S n)
                           (Some (Ret (VList (omap (λ c, match result_of c L with
                                                         | Some (Ret v) => Some v
                                                         | _ => None
                                                         end) children))))) L)
              else set_pc parent (Gather ms children (S n) None) L
          | None => L
          end
      end
  | _ => L
  end.

(** [asyncio.wait] refuses an empty set; otherwise a task is made for
    every awaitable of the set and the caller suspends on [waiter]. *)
Definition await_any_messages (messages : list string) (who : caller) (call t : nat)
  : coroutine Empty_set :=
  match messages with
  | [] => raise ValueError_empty_set
  | _ =>
      children <- spawn (CAwaitMessage <$> set_iter _ messages) (OnCompletion t call) ;;
      suspend (Wait who call children Pending)
  end.

(** [_on_completion] of [asyncio.wait]: sets [waiter] unless it is done. *)
Definition on_completion (parent call : nat) (L : Loop) : Loop :=
  match pc_of parent L with
  | Some (Wait who call' children Pending) =>
      if decide (call' = call) then set_result parent L else L
  | _ => L
  end.

(** [f.remove_done_callback(_on_completion)] for every task of the call. *)
Definition remove_done_callback (cb : callback) (children : list nat) : coroutine unit :=
  effect (λ L,
    foldl (λ L' c,
             update_task c (λ T,
               with_callbacks (filter (λ cb', cb' ≠ cb) (t_callbacks T)) T) L')
          L children).

(** [[task.result() for task in completed]]. *)
Fixpoint results (rs : list outcome) : list pyval + exn :=
  match rs with
  | [] => inl []
  | Exc e :: _ => inr e
  | Ret v :: rs' =>
      match results rs' with
      | inl vs => inl (v :: vs)
      | inr e => inr e
      end
  end.

(** [await_any_messages] from the wake-up of [await waiter] to its
    return; [cancelled] when [CancelledError] is thrown at the [await]. *)
Definition await_any_resumed (t call : nat) (children : list nat) (cancelled : bool)
  : coroutine (list pyval) :=
  remove_done_callback (OnCompletion t call) children ;;;
  if cancelled then raise CancelledError
  else
    read (λ L, results (omap (λ c, result_of c L)
                             (set_iter _ (filter (λ c, is_done L c) children)))).

(** *** message_arrival_notifier and message_monitor *)

(** The operand of [", ".join]: every item has to be a [str]. *)
Fixpoint join_names (arrived : list pyval) : list string + exn :=
  match arrived with
  | [] => inl []
  | VStr s :: rest =>
      match join_names rest with
      | inl names => inl (s :: names)
      | inr e => inr e
      end
  | _ :: _ => inr TypeError
  end.

(** [state[name][key]]. *)
Definition state_item (name key : string) : coroutine json :=
  read (λ L, match state L !! name with
             | Some (Val v) => subscript v key
             | Some (Cond _) => inr TypeError
             | None => inr (KeyError name)
             end).

Definition message_arrival_notifier (t : nat) : coroutine pyval :=
  never (await_any_messages ["a"; "b"; "c"] ByNotifier 0 t).

(** The body of the notifier's loop from the return of
    [await_any_messages] to the next call. *)
Definition notifier_arrived (arrived : list pyval) (call t : nat) : coroutine pyval :=
  names <- py (join_names arrived) ;;
  print (LMessageArrived names) ;;;
  never (await_any_messages ["a"; "b"; "c"] ByNotifier (S call) t).

Definition timer_of (t : nat) (L : Loop) : option timer := t_timer <$> tasks L !! t.

(** [asyncio_timeout(2).__aenter__]: the timer is set for the current
    task. *)
Definition timeout_enter (t : nat) : coroutine unit :=
  effect (update_task t (with_timer Armed)).

(** [__aexit__]: a [CancelledError] that the timer caused becomes
    [TimeoutError]; otherwise the timer is cancelled and an exception of
    the body goes on. *)
Definition timeout_exit (t : nat) : coroutine unit :=
  effect (update_task t (λ T,
    with_timer (match t_timer T with Armed | Due => Disarmed | d => d end) T)).

Definition timeout_exit_exc (t : nat) (e : exn) : coroutine pyval :=
  d <- read (λ L, inl (timer_of t L)) ;;
  match e, d with
  | CancelledError, Some Fired => raise TimeoutError
  | _, _ => timeout_exit t ;;; raise e
  end.

(** [except asyncio.TimeoutError: print('****** CONDITIONS FAILED!')]. *)
Definition monitor_except (e : exn) : coroutine pyval :=
  match e with
  | TimeoutError => print LConditionsFailed ;;; ret VNone
  | _ => raise e
  end.

(** The body of the monitor's loop from the return of
    [await_any_messages]: up to [break] and the end of the [async with]
    block, or up to the next call. *)
Definition monitor_arrived (arrived : list pyval) (call t : nat) : coroutine pyval :=
  names <- py (join_names arrived) ;;
  print (LArrived names) ;;;
  a1 <- state_item "a" "1" ;;
  met <- (if py_eq_int a1 512
          then b3 <- state_item "b" "3" ;; ret (py_eq_int b3 16)
          else ret false) ;;
  if met : bool
  then
    print LConditionMet ;;;
    timeout_exit t ;;;
    ret VNone
  else
    a1' <- state_item "a" "1" ;;
    b3' <- state_item "b" "3" ;;
    print (LValues a1' b3') ;;;
    never (await_any_messages ["a"; "b"] ByMonitor (S call) t).

Definition message_monitor (t : nat) : coroutine pyval :=
  catch
    (timeout_enter t ;;;
     catch (never (await_any_messages ["a"; "b"] ByMonitor 0 t))
           (timeout_exit_exc t))
    monitor_except.

(** *** Steps of a task *)

Definition start (c : coro) (t : nat) : coroutine pyval :=
  match c with
  | CDecoder message => protocol_x_decoder message t
  | CAwaitMessage message => await_message message t
  | CAwaitAll messages => await_all_messages messages t
  | CAwaitAny messages => never (await_any_messages messages ByTask 0 t)
  | CNotifier => message_arrival_notifier t
  | CMonitor => message_monitor t
  end.

Definition lock_resumed (k : lock_cont) (t : nat) : coroutine pyval :=
  match k with
  | InDecode key => lock_granted key t ;;; decode_locked key
  | InAwaitEnter message =>
      lock_granted (message +:+ "_event") t ;;;
      never (cond_wait (message +:+ "_event") message t)
  | InAwaitLeave message =>
      lock_granted (message +:+ "_event") t ;;;
      await_message_leave message
  end.

Definition any_resumed (who : caller) (call : nat) (children : list nat)
    (cancelled : bool) (t : nat) : coroutine pyval :=
  match who with
  | ByTask =>
      arrived <- await_any_resumed t call children cancelled ;;
      ret (VList arrived)
  | ByNotifier =>
      arrived <- await_any_resumed t call children cancelled ;;
      notifier_arrived arrived call t
  | ByMonitor =>
      catch
        (catch (arrived <- await_any_resumed t call children cancelled ;;
                monitor_arrived arrived call t)
               (timeout_exit_exc t))
        monitor_except
  end.

(** The segment a task runs when the loop steps it; [None] while the
    future it awaits is pending or when it has finished. *)
Definition resume (t : nat) (T : task) : option (coroutine pyval) :=
  match t_pc T with
  | Start c => Some (start c t)
  | LockWait k true => Some (lock_resumed k t)
  | CondWait message true => Some (await_message_woken message t)
  | Gather messages _ _ (Some outer) => Some (await_all_resumed messages outer)
  | Wait who call children Done =>
      Some (any_resumed who call children (t_must_cancel T) t)
  | Wait who call children Cancelled => Some (any_resumed who call children true t)
  | _ => None
  end.

(** [Task.__step]. *)
Definition run_task (t : nat) (L : Loop) : Loop :=
  match tasks L !! t with
  | Some T =>
      match resume t T with
      | Some m =>
          match m (update_task t (with_must_cancel false) L) with
          | (L', Ok v) => finish t (Ret v) L'
          | (L', Raise e) => finish t (Exc e) L'
          | (L', Suspend p) => set_pc t p L'
          end
      | None => L
      end
  | None => L
  end.

(** [Task.cancel]: the awaited future is cancelled when it is pending;
    otherwise the next step of the task throws.  Only a task with a
    deadline is cancelled, and such a task suspends in [asyncio.wait]
    only. *)
Definition task_cancel (t : nat) (L : Loop) : Loop :=
  match pc_of t L with
  | Some (Finished _) => L
  | Some (Wait who call children Pending) =>
      call_soon (Run t) (set_pc t (Wait who call children Cancelled) L)
  | Some _ => update_task t (with_must_cancel true) L
  | None => L
  end.

(** [_cancel_task] of [asyncio_timeout], unless the handle was cancelled. *)
Definition expire (t : nat) (L : Loop) : Loop :=
  match timer_of t L with
  | Some Due => task_cancel t (update_task t (with_timer Fired) L)
  | _ => L
  end.

Definition run_handle (h : handle) (L : Loop) : Loop :=
  match h with
  | Run t => run_task t L
  | Call (OnCompletion parent call) _ => on_completion parent call L
  | Call (GatherDone parent) child => gather_done parent child L
  | Expire t => expire t L
  end.

(** ** The event loop *)

(** What reaches the loop from outside: a datagram
    ([UDP_Decoder.datagram_received] makes a task of
    [protocol_x_decoder]), the deadline of a task's timer, and
    [loop.create_task] of a caller. *)
Inductive input :=
| Datagram (message : string)
| Deadline (t : nat)
| Spawn (c : coro).

Definition deliver (i : input) (L : Loop) : Loop :=
  match i with
  | Datagram message => (create_task (CDecoder message) [] L).2
  | Deadline t =>
      match timer_of t L with
      | Some Armed => call_soon (Expire t) (update_task t (with_timer Due) L)
      | _ => L
      end
  | Spawn c => (create_task c [] L).2
  end.

(** The loop runs the handle at the head of the ready queue. *)
Definition run_next (L : Loop) : Loop :=
  match ready L with
  | [] => L
  | h :: rest => run_handle h (mkLoop (state L) (tasks L) rest (out L))
  end.

Inductive action :=
| Input (i : input)
| Next.

Definition act (a : action) (L : Loop) : Loop :=
  match a with
  | Input i => deliver i L
  | Next => run_next L
  end.

Definition exec (acts : list action) (L : Loop) : Loop :=
  foldl (λ L' a, act a L') L acts.

(** One iteration of the loop ([_run_once]): the inputs that have come are
    taken in, then the handles that are ready at that moment are run, and
    no handle scheduled meanwhile. *)
Definition run_once (inputs : list input) (L : Loop) : Loop :=
  let L' := foldl (λ L' i, deliver i L') L inputs in
  Nat.iter (length (ready L')) run_next L'.

Definition run (iterations : list (list input)) (L : Loop) : Loop :=
  foldl (λ L' inputs, run_once inputs L') L iterations.

(** [main]: the conditions are created, then the notifier and the monitor
    are made tasks. *)
Definition main : Loop :=
  deliver (Spawn CMonitor)
    (deliver (Spawn CNotifier) (mkLoop (create_conditions state0) [] [] [])).

End Program.

(** ** Inputs used in the examples *)

(** A loader that knows a few datagrams by name. *)
Definition loads_demo (message : string) : option json :=
  if decide (message = "a1")
  then Some (JObj [("type", JStr "a"); ("payload", JObj [("1", JInt 1)])])
  else if decide (message = "b1")
  then Some (JObj [("type", JStr "b"); ("payload", JObj [("3", JInt 1)])])
  else if decide (message = "a512")
  then Some (JObj [("type", JStr "a"); ("payload", JObj [("1", JInt 512); ("2", JInt 512)])])
  else if decide (message = "b16")
  then Some (JObj [("type", JStr "b"); ("payload", JObj [("3", JInt 16); ("4", JInt 16)])])
  else if decide (message = "x1")
  then Some (JObj [("type", JStr "x"); ("payload", JObj [("1", JInt 1)])])
  else if decide (message = "a-text")
  then Some (JObj [("type", JStr "a"); ("payload", JStr "oops")])
  else if decide (message = "a-empty")
  then Some (JObj [("type", JStr "a"); ("payload", JObj [])])
  else None.

(** Sets that iterate in the order of insertion. *)
Definition in_order (A : Type) (l : list A) : list A := l.

(** The loop of [main] before any task is made. *)
Definition fresh_loop : Loop := mkLoop (create_conditions state0) [] [] [].

(** The shape the specification asks of an inbound message:
    [{"type": <string>, "payload": <mapping of string to number>}]. *)
Definition spec_is_number (v : json) : bool :=
  match v with
  | JInt _ | JFloat _ => true
  | _ => false
  end.

Definition spec_message_shape (data : option json) : bool :=
  match data with
  | Some (JObj fields) =>
      match dict_get "type" fields, dict_get "payload" fields with
      | Some (JStr _), Some (JObj kv) => forallb (λ '(_, v), spec_is_number v) kv
      | _, _ => false
      end
  | _ => false
  end.

(** The payload [state] holds under [name], if it holds one. *)
Definition payload_of (name : string) (L : Loop) : option json :=
  match state L !! name with
  | Some (Val v) => Some v
  | _ => None
  end.

(** What a message has to be for [protocol_x_decoder] to reach a handler:
    an object with a registered ["type"] and some ["payload"]. *)
Definition dispatchable (data : option json) : option (string * json) :=
  match data with
  | Some (JObj fields) =>
      match dict_get "type" fields, dict_get "payload" fields with
      | Some (JStr s), Some payload =>
          if decide (s = "a" ∨ s = "b" ∨ s = "c") then Some (s, payload) else None
      | _, _ => None
      end
  | _ => None
  end.

(** ** Invariants and relations used in the proofs *)

(** [seg R S m]: whatever the loop state, the segment [m] takes it to an
    [R]-related one, and a [pc] it suspends at satisfies [S]. *)
Definition seg {A} (R : relation Loop) (S : pc → Prop) (m : coroutine A) : Prop :=
  ∀ L, R L (m L).1 ∧ ∀ p, (m L).2 = Suspend p → S p.


(** The ready queue only gets longer at its end. *)
Definition ready_grows (L L' : Loop) : Prop :=
  ∃ new, ready L' = ready L ++ new.

(** A task that waits for a condition or for a lock. *)
Definition blocked (p : pc) : Prop :=
  match p with
  | CondWait _ _ | LockWait _ _ => True
  | _ => False
  end.

(** A [pc] that only the task's own step, or a notification, changes. *)
Definition frozen (p : pc) : Prop :=
  match p with
  | Start _ | CondWait _ _ | LockWait _ _ | Finished _ => True
  | _ => False
  end.

(** A [pc] inside [asyncio.wait] or [asyncio.gather]. *)
Definition collecting (p : pc) : Prop :=
  match p with
  | Wait _ _ _ _ | Gather _ _ _ _ => True
  | _ => False
  end.

(** [calm L L']: [state] is the same, no frozen task has moved and no task
    has become blocked. *)
Definition calm (L L' : Loop) : Prop :=
  state L' = state L
  ∧ (∀ u p, pc_of u L = Some p → frozen p → pc_of u L' = Some p)
  ∧ (∀ u p, pc_of u L' = Some p → blocked p → pc_of u L = Some p).

(** No lock is held and nobody queues for one. *)
Definition lock_free (L : Loop) : Prop :=
  ∀ key c, state L !! key = Some (Cond c) → locked c = false ∧ lock_waiters c = [].

(** The waiters of a condition are tasks inside [cond.wait()] of
    [await_message] for the topic of that condition. *)
Definition waiters_registered (L : Loop) : Prop :=
  ∀ key c t, state L !! key = Some (Cond c) → t ∈ waiters c →
    ∃ m b, key = m +:+ "_event" ∧ pc_of t L = Some (CondWait m b).

Definition waiters_nodup (L : Loop) : Prop :=
  ∀ key c, state L !! key = Some (Cond c) → NoDup (waiters c).

Definition no_lock_wait (L : Loop) : Prop :=
  ∀ t k b, pc_of t L ≠ Some (LockWait k b).

(** A task inside [cond.wait()] is among the waiters of its condition. *)
Definition cond_wait_registered (L : Loop) : Prop :=
  ∀ t m b, pc_of t L = Some (CondWait m b) →
    ∃ c, state L !! (m +:+ "_event") = Some (Cond c) ∧ t ∈ waiters c.

(** [create_conditions] has been called. *)
Definition conditions_created (L : Loop) : Prop :=
  ∀ name, name = "a" ∨ name = "b" ∨ name = "c" →
    ∃ c, state L !! (name +:+ "_event") = Some (Cond c).

(** The invariant of the loop between two handles. *)
Record wf (L : Loop) : Prop := mk_wf {
  wf_lock_free : lock_free L;
  wf_waiters_registered : waiters_registered L;
  wf_waiters_nodup : waiters_nodup L;
  wf_no_lock_wait : no_lock_wait L;
  wf_cond_wait_registered : cond_wait_registered L;
  wf_conditions_created : conditions_created L
}.

(** [calm_but t L L']: as [calm], though the task [t] itself may have
    moved. *)
Definition calm_but (t : nat) (L L' : Loop) : Prop :=
  state L' = state L
  ∧ (∀ u p, u ≠ t → pc_of u L = Some p → frozen p → pc_of u L' = Some p)
  ∧ (∀ u p, pc_of u L' = Some p → blocked p → pc_of u L = Some p).

(** The coroutines that do not use a condition themselves. *)
Definition composite (c : coro) : Prop :=
  match c with
  | CDecoder _ | CAwaitMessage _ => False
  | _ => True
  end.

(** What [set_result] makes of the [pc] of the task that awaits the
    future, and whether the future was pending. *)
Definition woken (p : pc) : pc :=
  match p with
  | CondWait m false => CondWait m true
  | LockWait k false => LockWait k true
  | Wait who call children Pending => Wait who call children Done
  | p => p
  end.

Definition pending (p : pc) : bool :=
  match p with
  | CondWait _ false | LockWait _ false | Wait _ _ _ Pending => true
  | _ => false
  end.

Definition pending_at (L : Loop) (t : nat) : bool :=
  match pc_of t L with
  | Some p => pending p
  | None => false
  end.

(** How often the condition of topic [m] has been notified. *)
Definition notifications (m : string) (L : Loop) : nat :=
  match state L !! (m +:+ "_event") with
  | Some (Cond c) => notified c
  | _ => 0
  end.

(** How [await_message m] fails: [state] has no key [m_event], or it has
    something there that is no condition. *)
Definition UnknownTopic (m : string) (e : exn) : Prop :=
  e = KeyError (m +:+ "_event") ∨ e = AttributeError.

(** What one action of the loop can do to a task of [await_message]:
    from its start it registers or fails; registered, it stays until the
    very notification of its topic wakes it and schedules its wake-up;
    woken, it returns the name of its topic; finished, it stays so.
    Notifications are only counted up. *)
Definition await_message_moves (L L' : Loop) : Prop :=
  (∀ m, notifications m L ≤ notifications m L')
  ∧ (∀ u p, pc_of u L = Some p →
       match p with
       | Start (CAwaitMessage m) =>
           pc_of u L' = Some p
           ∨ pc_of u L' = Some (CondWait m false)
           ∨ ∃ e, pc_of u L' = Some (Finished (Exc e)) ∧ UnknownTopic m e
       | CondWait m false =>
           (pc_of u L' = Some p ∧ notifications m L' = notifications m L)
           ∨ (pc_of u L' = Some (CondWait m true)
              ∧ notifications m L' = S (notifications m L)
              ∧ Run u ∈ ready L')
       | CondWait m true =>
           pc_of u L' = Some p ∨ pc_of u L' = Some (Finished (Ret (VStr m)))
       | Finished r => pc_of u L' = Some p
       | _ => True
       end).

(** [w] registered for topic [m] when the topic had been notified [c0]
    times: either it still waits and no notification has come, or one has
    come and [w] is woken or has returned the name of the topic. *)
Definition waiting_since (w : nat) (m : string) (c0 : nat) (L : Loop) : Prop :=
  (pc_of w L = Some (CondWait m false) ∧ notifications m L = c0)
  ∨ (c0 < notifications m L
     ∧ (pc_of w L = Some (CondWait m true)
        ∨ pc_of w L = Some (Finished (Ret (VStr m))))).

(** A registered wait on its way to the return: waiting, or woken with
    its wake-up in the ready queue, or returned. *)
Definition wait_resolving (w : nat) (m : string) (L : Loop) : Prop :=
  pc_of w L = Some (CondWait m false)
  ∨ (pc_of w L = Some (CondWait m true) ∧ Run w ∈ ready L)
  ∨ pc_of w L = Some (Finished (Ret (VStr m))).

(** The number of handles that a list of actions lets the loop run. *)
Fixpoint nexts (acts : list action) : nat :=
  match acts with
  | [] => 0
  | Next :: rest => S (nexts rest)
  | Input _ :: rest => nexts rest
  end.

(** What a segment run by task [q] can do to the task [u]: wake it, and
    remove callbacks of [q]'s own calls of [asyncio.wait]; the timer and
    the cancellation flag of another task are not touched. *)
Definition kept_task (q u : nat) (T T' : task) : Prop :=
  (u ≠ q → t_timer T' = t_timer T ∧ t_must_cancel T' = t_must_cancel T)
  ∧ (t_pc T' = t_pc T ∨ t_pc T' = woken (t_pc T))
  ∧ ∃ keep : callback → bool,
      t_callbacks T' = filter (λ cb, keep cb = true) (t_callbacks T)
      ∧ ∀ cb, (∀ call, cb ≠ OnCompletion q call) → keep cb = true.

(** A task made by a segment of [q]: a child that will run
    [await_message] and call back [q]. *)
Definition born (q : nat) (T : task) : Prop :=
  (∃ m, t_pc T = Start (CAwaitMessage m))
  ∧ t_timer T = NoTimer ∧ t_must_cancel T = false
  ∧ ∀ cb, cb ∈ t_callbacks T → cb = GatherDone q ∨ ∃ call, cb = OnCompletion q call.

(** [kept q L L']: the tasks of [L] are kept as above, new tasks are
    children of [q], and the ready queue got wake-ups only, of tasks that
    were pending or are new; a task whose [pc] has changed has got one. *)
Definition kept (q : nat) (L L' : Loop) : Prop :=
  (∀ u T, tasks L !! u = Some T → ∃ T', tasks L' !! u = Some T' ∧ kept_task q u T T')
  ∧ (∀ u T', u ≠ q → tasks L !! u = None → tasks L' !! u = Some T' → born q T')
  ∧ ∃ new, ready L' = ready L ++ new
           ∧ (∀ h, h ∈ new → ∃ u, h = Run u ∧ (tasks L !! u = None ∨ pending_at L u = true))
           ∧ ∀ u T T', tasks L !! u = Some T → tasks L' !! u = Some T' →
               t_pc T' ≠ t_pc T → Run u ∈ new.

(** The task a handle is for. *)
Definition target (h : handle) : nat :=
  match h with
  | Run t => t
  | Call (OnCompletion parent _) _ => parent
  | Call (GatherDone parent) _ => parent
  | Expire t => t
  end.

(** The ready queue an action starts from: [Next] takes the head off. *)
Definition queue_after (a : action) (L : Loop) : list handle :=
  match a with
  | Next => tail (ready L)
  | Input _ => ready L
  end.

(** A [pc] a task can suspend at: the future it awaits is new, so it is
    pending. *)
Definition unfinished (p : pc) : Prop :=
  match p with
  | Finished _ => False
  | Wait _ _ _ waiter => waiter = Pending
  | LockWait _ granted => granted = false
  | CondWait _ woken => woken = false
  | Gather _ _ _ outer => outer = None
  | Start _ => False
  end.

(** [est P Q m]: from a state with [P], the segment [m] ends in a state
    with [Q], however it ends. *)
Definition est {A} (P Q : Loop → Prop) (m : coroutine A) : Prop :=
  ∀ L, P L → Q (m L).1.

(** The tasks of [children] that existed when [n] tasks had been made no
    longer call back the call [call] of [asyncio.wait] made by [p]. *)
Definition detached (p call : nat) (children : list nat) (n : nat) (L : Loop) : Prop :=
  n ≤ length (tasks L)
  ∧ ∀ c T, c ∈ children → c < n → tasks L !! c = Some T →
      OnCompletion p call ∉ t_callbacks T.

(** What a task made for [await_message y] can be at. *)
Definition awaiting (y : string) (p : pc) : Prop :=
  match p with
  | Start (CAwaitMessage m) | CondWait m _ => m = y
  | Finished (Ret v) => v = VStr y
  | Finished (Exc e) => UnknownTopic y e
  | _ => False
  end.

(** The tasks of [children] were made for names of [ms]. *)
Definition any_children (ms : list string) (children : list nat) (L : Loop) : Prop :=
  ∀ c, c ∈ children → ∃ y p, y ∈ ms ∧ pc_of c L = Some p ∧ awaiting y p.

(** The task [p] is inside its first [asyncio.wait], for [children]; it
    has no deadline and nobody has cancelled it. *)
Definition any_caller (p : nat) (children : list nat) (waiter : fut_state) (L : Loop) : Prop :=
  ∃ T, tasks L !! p = Some T ∧ t_pc T = Wait ByTask 0 children waiter
       ∧ t_timer T = NoTimer ∧ t_must_cancel T = false.

(** The stages of a call [await_any_messages ms] by the task [p], when
    [x] is a name without a condition: [p] is about to start; the child
    for [x] is about to start; that child has failed and its callback is
    scheduled; [p] is woken; [p] has failed. *)
Definition any_about_to_start (p : nat) (ms : list string) (L : Loop) : Prop :=
  ∃ T pre post,
    tasks L !! p = Some T ∧ t_pc T = Start (CAwaitAny ms) ∧ t_timer T = NoTimer
    ∧ ready L = pre ++ (Run p :: post) ∧ (Run p ∉ pre) ∧ (Run p ∉ post).

Definition any_child_queued (p : nat) (ms : list string) (x : string)
    (children : list nat) (cx : nat) (L : Loop) : Prop :=
  any_children ms children L ∧ cx ∈ children
  ∧ (∃ T, tasks L !! cx = Some T ∧ t_pc T = Start (CAwaitMessage x)
          ∧ t_timer T = NoTimer ∧ OnCompletion p 0 ∈ t_callbacks T)
  ∧ ∃ pre post w,
      ready L = pre ++ (Run cx :: post) ∧ (Run p ∉ pre)
      ∧ any_caller p children w L
      ∧ (w = Pending ∨ (w = Done ∧ Run p ∈ post)).

Definition any_child_failed (p : nat) (ms : list string)
    (children : list nat) (cx : nat) (L : Loop) : Prop :=
  any_children ms children L ∧ cx ∈ children
  ∧ (∃ e, pc_of cx L = Some (Finished (Exc e)))
  ∧ any_caller p children Pending L
  ∧ Call (OnCompletion p 0) cx ∈ ready L.

Definition any_woken (p : nat) (ms : list string)
    (children : list nat) (cx : nat) (L : Loop) : Prop :=
  any_children ms children L ∧ cx ∈ children
  ∧ (∃ e, pc_of cx L = Some (Finished (Exc e)))
  ∧ any_caller p children Done L
  ∧ Run p ∈ ready L.

Definition any_failed (p : nat) (ms : list string) (L : Loop) : Prop :=
  ∃ y e, y ∈ ms ∧ UnknownTopic y e ∧ pc_of p L = Some (Finished (Exc e)).

(** The loop is well formed and [state] has no condition for [x]. *)
Definition unknown_topic (x : string) (L : Loop) : Prop :=
  wf L ∧ ∀ c, state L !! (x +:+ "_event") ≠ Some (Cond c).

(** The stages a call with an unknown name has left to pass: its child
    for [x] has not run yet, or has failed, or the caller is woken, or
    the call has failed. *)
Definition any_stage3 (p : nat) (ms : list string) (L : Loop) : Prop :=
  (∃ ch cx, any_woken p ms ch cx L) ∨ any_failed p ms L.
Definition any_stage2 (p : nat) (ms : list string) (L : Loop) : Prop :=
  (∃ ch cx, any_child_failed p ms ch cx L) ∨ any_stage3 p ms L.
Definition any_stage1 (p : nat) (ms : list string) (x : string) (L : Loop) : Prop :=
  (∃ ch cx, any_child_queued p ms x ch cx L) ∨ any_stage2 p ms L.

(** What [Task.cancel] makes of the [pc] of a task whose future is
    pending. *)
Definition cancelled_pc (p : pc) : pc :=
  match p with
  | Wait who call children Pending => Wait who call children Cancelled
  | p => p
  end.

(** Where a task of [message_arrival_notifier] can be: about to start,
    inside [asyncio.wait], or ended by an exception. *)
Definition notifier_pc (p : pc) : Prop :=
  match p with
  | Start CNotifier | Wait ByNotifier _ _ _ | Finished (Exc _) => True
  | _ => False
  end.

(** The loop after [print(l)]. *)
Definition put (l : line) (L : Loop) : Loop :=
  mkLoop (state L) (tasks L) (ready L) (out L ++ [l]).

(** What [asyncio_timeout.__aexit__] makes of a timer that has not fired. *)
Definition disarmed (d : timer) : timer :=
  match d with
  | NoTimer => NoTimer
  | Fired => Fired
  | Armed | Due | Disarmed => Disarmed
  end.

(** [state[name][key]], as a value. *)
Definition state_lookup (name key : string) (L : Loop) : json + exn :=
  match state L !! name with
  | Some (Val v) => subscript v key
  | Some (Cond _) => inr TypeError
  | None => inr (KeyError name)
  end.

(** [state['a']['1'] == 512 and state['b']['3'] == 16], evaluated from
    left to right: the right operand is only looked at when the left one
    holds. *)
Definition monitor_condition (L : Loop) : bool + exn :=
  match state_lookup "a" "1" L with
  | inr e => inr e
  | inl a1 =>
      if py_eq_int a1 512
      then match state_lookup "b" "3" L with
           | inr e => inr e
           | inl b3 => inl (py_eq_int b3 16)
           end
      else inl false
  end.

(** The dict [main_logic] prints:
    [{k: v for k, v in state.items() if k in ['a', 'b', 'c']}]. *)
Definition clean_state (st : gmap string entry) : gmap string entry :=
  filter (λ kv, kv.1 ∈ ["a"; "b"; "c"]) st.

(** The keys of [state] as the module defines it. *)
Definition state_keys : list string :=
  ["a_event"; "a"; "b_event"; "b"; "c_event"; "c"].

(** The two verdicts [message_monitor] can print. *)
Definition verdict (l : line) : bool :=
  match l with
  | LConditionMet | LConditionsFailed => true
  | _ => false
  end.
(** * Properties *)

Section Properties.

Context (json_loads : string → option json).
Context (set_iter : ∀ A : Type, list A → list A).

#[local] Abbreviation protocol_x_decoder := (protocol_x_decoder json_loads).
#[local] Abbreviation run_task := (run_task json_loads set_iter).
#[local] Abbreviation run_handle := (run_handle json_loads set_iter).
#[local] Abbreviation run_next := (run_next json_loads set_iter).
#[local] Abbreviation act := (act json_loads set_iter).
#[local] Abbreviation exec := (exec json_loads set_iter).
#[local] Abbreviation run_once := (run_once json_loads set_iter).

(** ** The dispatcher *)

Lemma state_update_task t f L : state (update_task t f L) = state L.
Proof. unfold update_task. by destruct (tasks L !! t). Qed.

Lemma state_finish t r L : state (finish t r L) = state L.
Proof. unfold finish. by destruct (tasks L !! t). Qed.

Lemma state_set_result t L : state (set_result t L) = state L.
Proof.
  unfold set_result, set_pc. destruct (pc_of t L) as [[]|]; try done;
    repeat case_match; simpl; by rewrite ?state_update_task.
Qed.

Lemma state_wake_all ws L : state (wake_all ws L) = state L.
Proof.
  unfold wake_all. revert L. induction ws as [|w ws IH]; intros L; simpl; [done|].
  by rewrite IH, state_set_result.
Qed.

(** What a handler leaves in [state] when it returns: the payload under
    [name] and the condition under [key], nothing else touched. *)
Lemma decode_state name key data t L L' v :
  name ≠ key →
  decode name key data t L = (L', Ok v) →
  ∃ c c', state L !! key = Some (Cond c) ∧
          state L' = <[key := Cond c']> (<[name := Val data]> (state L)).
Proof.
  intros Hne. unfold decode, decode_locked, lock_acquire, notify_all, lock_release,
    cond_at, read, py, bind, effect, ret, raise, suspend, set_cond, set_state. simpl.
  rewrite lookup_insert_ne by done.
  destruct (state L !! key) as [[|c]|] eqn:Hc; try done.
  destruct (locked c) eqn:Hl; simpl; [done|].
  case_bool_decide as Hw; simpl; [|done].
  rewrite lookup_insert_eq. simpl.
  rewrite state_wake_all. simpl. rewrite lookup_insert_eq. simpl.
  rewrite Hw. simpl. intros [= <- _]. simpl.
  eexists _, _. split; [done|]. by rewrite !insert_insert_eq.
Qed.

Lemma decoders_get_registered s d :
  decoders_get (JStr s) = inl (Some d) →
  (s = "a" ∨ s = "b" ∨ s = "c") ∧ d = decode s (s +:+ "_event").
Proof.
  unfold decoders_get. repeat case_decide; intros [= <-]; subst; split; auto.
Qed.

Lemma dispatch_reaches_handler message t L L' (r : res pyval) :
  protocol_x_decoder message t L = (L', r) →
  (∀ e, r ≠ Raise e) →
  ∃ name payload,
    dispatchable (json_loads message) = Some (name, payload) ∧
    decode name (name +:+ "_event") payload t L = (L', r).
Proof.
  unfold protocol_x_decoder, dispatchable, bind, py, subscript, ret, raise.
  destruct (json_loads message) as [[| | | | | |fields]|]; simpl;
    try (intros [= <- <-] Hr; exfalso; by eapply Hr).
  destruct (dict_get "type" fields) as [type_|]; simpl;
    [|intros [= <- <-] Hr; exfalso; by eapply Hr].
  destruct (dict_get "payload" fields) as [payload|]; simpl;
    [|intros [= <- <-] Hr; exfalso; by eapply Hr].
  destruct type_ as [| | | |s| |]; simpl; try (intros [= <- <-] Hr; exfalso; by eapply Hr).
  intros Hdec Hr.
  destruct (decide (s = "a")) as [->|Ha]; [by exists "a", payload|].
  destruct (decide (s = "b")) as [->|Hb]; [by exists "b", payload|].
  destruct (decide (s = "c")) as [->|Hc]; [by exists "c", payload|].
  injection Hdec as <- <-. exfalso. by eapply Hr.
Qed.

(** C5 (unknown type rejection): a message that parses to an object with a
    string ["type"] other than the registered ["a"], ["b"], ["c"] and with
    a ["payload"] makes [protocol_x_decoder] raise the unknown-type
    [ValueError]; the loop state it returns is the one it was given, so no
    payload is written and no condition is notified.  The task that runs
    this dispatch finishes with that exception and leaves [state] as it
    found it. *)
Theorem unknown_type_rejected
    (message : string) (fields : list (string * json)) (s : string)
    (payload : json) (t : nat) (T : task) (L : Loop) :
  json_loads message = Some (JObj fields) →
  dict_get "type" fields = Some (JStr s) →
  dict_get "payload" fields = Some payload →
  s ≠ "a" → s ≠ "b" → s ≠ "c" →
  tasks L !! t = Some T →
  t_pc T = Start (CDecoder message) →
  (∀ L', protocol_x_decoder message t L'
         = (L', Raise (ValueError_unknown_type (JStr s))))
  ∧ pc_of t (run_task t L)
    = Some (Finished (Exc (ValueError_unknown_type (JStr s))))
  ∧ state (run_task t L) = state L.
Proof.
  intros Hload Htype Hpayload Ha Hb Hc HT Hpc.
  assert (Hraise : ∀ L', protocol_x_decoder message t L'
                         = (L', Raise (ValueError_unknown_type (JStr s)))).
  { intros L'. unfold protocol_x_decoder, bind, py, subscript.
    rewrite Hload. simpl. rewrite Htype, Hpayload. simpl.
    repeat (case_decide; [congruence|]). done. }
  split; [exact Hraise|].
  unfold run_task. rewrite HT. unfold resume. rewrite Hpc. simpl.
  rewrite Hraise. split.
  - unfold pc_of, finish, update_task. rewrite HT. simpl.
    rewrite list_lookup_insert_eq by (by eapply lookup_lt_Some).
    simpl. rewrite list_lookup_insert_eq; [done|].
    rewrite length_insert. by eapply lookup_lt_Some.
  - by rewrite state_finish, state_update_task.
Qed.

(** C6, as the code has it: a message that does not parse, that parses to
    something other than an object, or whose object lacks ["type"] or
    ["payload"], or names no registered type, makes [protocol_x_decoder]
    raise ([JSONDecodeError], [TypeError], [KeyError] of the missing field,
    or the unknown-type [ValueError]) and the loop state is returned as it
    was given.  The payload itself is not inspected: whenever the type is
    registered, whatever JSON value sits under ["payload"] is stored. *)
Theorem malformed_message_rejected (message : string) (t : nat) (L : Loop) :
  (json_loads message = None →
   protocol_x_decoder message t L = (L, Raise JSONDecodeError))
  ∧ (∀ data, json_loads message = Some data → (∀ fields, data ≠ JObj fields) →
     protocol_x_decoder message t L = (L, Raise TypeError))
  ∧ (∀ fields, json_loads message = Some (JObj fields) →
     dict_get "type" fields = None →
     protocol_x_decoder message t L = (L, Raise (KeyError "type")))
  ∧ (∀ fields type_, json_loads message = Some (JObj fields) →
     dict_get "type" fields = Some type_ → dict_get "payload" fields = None →
     protocol_x_decoder message t L = (L, Raise (KeyError "payload")))
  ∧ (dispatchable (json_loads message) = None →
     ∃ e, protocol_x_decoder message t L = (L, Raise e))
  ∧ (∀ name payload, dispatchable (json_loads message) = Some (name, payload) →
     payload_of name (protocol_x_decoder message t L).1 = Some payload).
Proof.
  unfold protocol_x_decoder, dispatchable, bind, py, subscript, ret, raise.
  repeat split.
  - by intros ->.
  - intros data -> Hnot. destruct data as [| | | | | |fields]; try done. by destruct (Hnot fields).
  - by intros fields -> ->.
  - by intros fields type_ -> -> ->.
  - destruct (json_loads message) as [[| | | | | |fields]|]; simpl; eauto.
    destruct (dict_get "type" fields) as [type_|]; simpl; eauto.
    destruct (dict_get "payload" fields) as [payload|]; simpl; eauto.
    destruct type_ as [| | | |s| |]; simpl; eauto.
    case_decide as Hs; [done|]. intros _.
    repeat (case_decide; [tauto|]). eauto.
  - intros name payload.
    destruct (json_loads message) as [[| | | | | |fields]|]; simpl; try done.
    destruct (dict_get "type" fields) as [[| | | |s| |]|]; simpl; try done.
    destruct (dict_get "payload" fields) as [p|]; simpl; try done.
    case_decide as Hs; [|done]. intros [= <- <-].
    assert (∀ k, s ≠ k +:+ "_event") as Hne.
    { intros k ->. destruct Hs as [|[|]]; by destruct k as [|? [|? ?]]. }
    assert (∀ key, s ≠ key →
              payload_of s (decode s key p t L).1 = Some p) as Hdec.
    { intros key Hkey.
      unfold decode, decode_locked, lock_acquire, notify_all, lock_release,
        cond_at, read, py, bind, effect, ret, raise, suspend, set_cond, set_state,
        payload_of. simpl.
      rewrite lookup_insert_ne by done.
      destruct (state L !! key) as [[|c]|]; simpl; rewrite ?lookup_insert_eq; try done.
      destruct (negb (locked c) && bool_decide (lock_waiters c = [])); simpl;
        rewrite ?lookup_insert_eq; simpl; rewrite ?state_wake_all; simpl;
        rewrite ?lookup_insert_eq; simpl.
      - destruct (lock_waiters c); simpl; rewrite ?state_set_result; simpl;
          by rewrite !lookup_insert_ne, lookup_insert_eq by done.
      - by rewrite lookup_insert_ne, lookup_insert_eq by done. }
    destruct Hs as [-> | [-> | ->] ]; simpl; by apply Hdec.
Qed.

Lemma event_key_not_topic name k :
  name = "a" ∨ name = "b" ∨ name = "c" → name ≠ k +:+ "_event".
Proof. intros Hs ->. destruct Hs as [|[|]]; by destruct k as [|? [|? ?]]. Qed.

(** C10 (wholesale replacement, per-topic frame): when a dispatch returns,
    the message named a registered type [name] and carried a payload, and
    [state[name]] is that payload itself; reading a sub-key from the store
    gives what the payload has under it, so a sub-key the payload lacks is
    a [KeyError] whatever the topic held before; the payload of every
    other name is the one held before the dispatch. *)
Theorem payload_replaced_wholesale
    (message : string) (t : nat) (L L' : Loop) (v : pyval) :
  protocol_x_decoder message t L = (L', Ok v) →
  ∃ name payload,
    dispatchable (json_loads message) = Some (name, payload)
    ∧ payload_of name L' = Some payload
    ∧ (∀ key, state_item name key L' = py (subscript payload key) L')
    ∧ (∀ other, other ≠ name → payload_of other L' = payload_of other L).
Proof.
  intros Hrun.
  destruct (dispatch_reaches_handler _ _ _ _ _ Hrun) as (name & payload & Hd & Hdec);
    [done|].
  exists name, payload. split; [done|].
  assert (name = "a" ∨ name = "b" ∨ name = "c") as Hname.
  { revert Hd. unfold dispatchable. repeat case_match; try done.
    by intros [= <- _]. }
  apply decode_state in Hdec as (c & c' & Hc & Hst); [|by apply event_key_not_topic].
  assert (state L' !! name = Some (Val payload)) as Hv.
  { rewrite Hst, lookup_insert_ne, lookup_insert_eq; [done|].
    intros Heq. by eapply event_key_not_topic. }
  repeat split.
  - unfold payload_of. by rewrite Hv.
  - intros key. unfold state_item, read. by rewrite Hv.
  - intros other Hother. unfold payload_of. rewrite Hst.
    destruct (decide (other = name +:+ "_event")) as [->|Hk].
    + by rewrite lookup_insert_eq, Hc.
    + by rewrite !lookup_insert_ne by done.
Qed.

(** ** Reasoning about segments *)

Section Seg.

Context (R : relation Loop) `{!PreOrder R} (S : pc → Prop).

Lemma seg_ret {A} (a : A) : seg R S (ret a).
Proof. intros L. split; [reflexivity|done]. Qed.

Lemma seg_raise {A} e : seg R S (@raise A e).
Proof. intros L. split; [reflexivity|done]. Qed.

Lemma seg_suspend {A} p : S p → seg R S (@suspend A p).
Proof. intros Hp L. split; [reflexivity|]. by intros ? [= <-]. Qed.

Lemma seg_effect f : (∀ L, R L (f L)) → seg R S (effect f).
Proof. intros Hf L. split; [apply Hf|done]. Qed.

Lemma seg_bind {A B} (m : coroutine A) (f : A → coroutine B) :
  seg R S m → (∀ a, seg R S (f a)) → seg R S (bind m f).
Proof.
  intros Hm Hf L. unfold bind. destruct (Hm L) as [HR HS].
  destruct (m L) as [L' [a|e|p]]; simpl in *.
  - destruct (Hf a L') as [HR' HS']. split; [by etrans|done].
  - by split.
  - split; [done|]. intros ? [= <-]. by apply HS.
Qed.

Lemma seg_catch {A} (m : coroutine A) (h : exn → coroutine A) :
  seg R S m → (∀ e, seg R S (h e)) → seg R S (catch m h).
Proof.
  intros Hm Hh L. unfold catch. destruct (Hm L) as [HR HS].
  destruct (m L) as [L' [a|e|p]]; simpl in *.
  - by split.
  - destruct (Hh e L') as [HR' HS']. split; [by etrans|done].
  - split; [done|]. intros ? [= <-]. by apply HS.
Qed.

Lemma seg_never {A} (m : coroutine Empty_set) : seg R S m → seg R S (@never A m).
Proof. intros Hm. apply seg_bind; [done|]. by intros []. Qed.

Lemma seg_py {A} (r : A + exn) : seg R S (py r).
Proof. destruct r; [apply seg_ret|apply seg_raise]. Qed.

Lemma seg_bind_py {A B} (r : A + exn) (f : A → coroutine B) :
  (∀ a, r = inl a → seg R S (f a)) → seg R S (bind (py r) f).
Proof.
  intros Hf. destruct r as [a|e].
  - intros L. apply (Hf a eq_refl L).
  - intros L. split; [reflexivity|done].
Qed.

Lemma seg_read {A} (f : Loop → A + exn) : seg R S (read f).
Proof. intros L. unfold read. destruct (f L); split; try reflexivity; done. Qed.

Lemma create_tasks_cons c cs cb L :
  create_tasks (c :: cs) cb L
  = ((create_tasks cs cb (create_task c [cb] L).2).1,
     (create_task c [cb] L).1 :: (create_tasks cs cb (create_task c [cb] L).2).2).
Proof.
  simpl. by destruct (create_tasks cs cb _).
Qed.

Lemma create_tasks_rel cs cb L :
  (∀ c cbs L, R L (create_task c cbs L).2) → R L (create_tasks cs cb L).1.
Proof.
  intros Hc. revert L. induction cs as [|c cs IH]; intros L; [reflexivity|].
  rewrite create_tasks_cons. simpl. etrans; [apply (Hc c [cb])|apply IH].
Qed.

Lemma create_tasks_rel_in cs cb L :
  (∀ c L, c ∈ cs → R L (create_task c [cb] L).2) → R L (create_tasks cs cb L).1.
Proof.
  revert L. induction cs as [|c cs IH]; intros L Hc; [reflexivity|].
  rewrite create_tasks_cons. simpl. etrans; [apply (Hc c); by left|].
  apply IH. intros c' L' Hin. apply Hc. by right.
Qed.

Lemma seg_spawn_in cs cb :
  (∀ c L, c ∈ cs → R L (create_task c [cb] L).2) → seg R S (spawn cs cb).
Proof.
  intros Hc L. unfold spawn. pose proof (create_tasks_rel_in cs cb L Hc) as H.
  destruct (create_tasks cs cb L). by split.
Qed.

Lemma seg_spawn cs cb :
  (∀ c cbs L, R L (create_task c cbs L).2) → seg R S (spawn cs cb).
Proof.
  intros Hc L. unfold spawn. pose proof (create_tasks_rel cs cb L Hc) as H.
  destruct (create_tasks cs cb L). by split.
Qed.

End Seg.

Ltac seg_step :=
  lazymatch goal with
  | |- seg _ _ (bind _ _) => apply seg_bind; [try apply _| |intros ?]
  | |- seg _ _ (ret _) => apply seg_ret; try apply _
  | |- seg _ _ (raise _) => apply seg_raise; try apply _
  | |- seg _ _ (never _) => apply seg_never; try apply _
  | |- seg _ _ (py _) => apply seg_py; try apply _
  | |- seg _ _ (read _) => apply seg_read; try apply _
  | |- seg _ _ (catch _ _) => apply seg_catch; [try apply _| |intros ?]
  | |- seg _ _ (effect _) => apply seg_effect; intros ?
  | |- seg _ _ (suspend _) => apply seg_suspend; [try apply _|]
  | |- seg _ _ (spawn _ _) => apply seg_spawn; [try apply _|intros ? ? ?]
  | |- seg _ _ (if ?b then _ else _) => destruct b
  | |- seg _ _ (match ?x with _ => _ end) => destruct x
  | |- seg _ _ (let '_ := ?x in _) => destruct x
  end.

(** ** The ready queue is first in, first out *)

#[local] Instance ready_grows_preorder : PreOrder ready_grows.
Proof.
  split.
  - intros L. exists []. by rewrite app_nil_r.
  - intros L1 L2 L3 [n1 H1] [n2 H2]. exists (n1 ++ n2).
    by rewrite H2, H1, app_assoc.
Qed.

Lemma ready_update_task t f L : ready (update_task t f L) = ready L.
Proof. unfold update_task. by destruct (tasks L !! t). Qed.

Lemma ready_grows_same L L' : ready L' = ready L → ready_grows L L'.
Proof. intros H. exists []. by rewrite app_nil_r. Qed.

Lemma ready_grows_call_soon h L L' :
  ready_grows L L' → ready_grows L (call_soon h L').
Proof.
  intros [new H]. exists (new ++ [h]). unfold call_soon. simpl.
  by rewrite H, app_assoc.
Qed.

Lemma ready_grows_update_task t f L : ready_grows L (update_task t f L).
Proof. apply ready_grows_same, ready_update_task. Qed.

Lemma ready_grows_set_result t L : ready_grows L (set_result t L).
Proof.
  unfold set_result, set_pc. repeat case_match; try reflexivity;
    apply ready_grows_call_soon, ready_grows_update_task.
Qed.

Lemma ready_grows_finish t r L : ready_grows L (finish t r L).
Proof. unfold finish. destruct (tasks L !! t); [by eexists|reflexivity]. Qed.

Lemma ready_grows_foldl {A} (f : Loop → A → Loop) (l : list A) L :
  (∀ L x, ready_grows L (f L x)) → ready_grows L (foldl f L l).
Proof.
  intros Hf. revert L. induction l as [|x l IH]; intros L; simpl; [reflexivity|].
  etrans; [apply Hf|apply IH].
Qed.

Lemma ready_grows_create_task c cbs L : ready_grows L (create_task c cbs L).2.
Proof. by eexists. Qed.

Create HintDb ready.

#[local] Hint Resolve ready_grows_same ready_grows_update_task ready_grows_set_result
  ready_grows_finish ready_grows_create_task : ready.

Ltac ready_tac :=
  repeat seg_step;
  repeat case_match;
  try done;
  try reflexivity;
  try (by apply ready_grows_same);
  eauto using ready_grows_call_soon with ready.

Lemma ready_cond_at key : seg ready_grows (λ _, True) (cond_at key).
Proof. unfold cond_at. ready_tac. Qed.

Lemma ready_lock_acquire key t k : seg ready_grows (λ _, True) (lock_acquire key t k).
Proof. unfold lock_acquire. seg_step; [apply ready_cond_at|]. ready_tac. Qed.

Lemma ready_lock_granted key t : seg ready_grows (λ _, True) (lock_granted key t).
Proof. unfold lock_granted. seg_step; [apply ready_cond_at|]. ready_tac. Qed.

Lemma ready_lock_release key : seg ready_grows (λ _, True) (lock_release key).
Proof. unfold lock_release. seg_step; [apply ready_cond_at|]. ready_tac. Qed.

Lemma ready_notify_all key : seg ready_grows (λ _, True) (notify_all key).
Proof.
  unfold notify_all. seg_step; [apply ready_cond_at|]. ready_tac.
  unfold wake_all. apply ready_grows_foldl. auto with ready.
Qed.

Lemma ready_cond_wait key m t : seg ready_grows (λ _, True) (cond_wait key m t).
Proof.
  unfold cond_wait. seg_step; [apply ready_cond_at|]. seg_step; [|ready_tac].
  seg_step; [apply ready_lock_release|]. seg_step; [apply ready_cond_at|]. ready_tac.
Qed.

Lemma ready_cond_wait_woken key m t :
  seg ready_grows (λ _, True) (cond_wait_woken key m t).
Proof.
  unfold cond_wait_woken. seg_step; [apply ready_cond_at|]. seg_step; [ready_tac|].
  apply ready_lock_acquire.
Qed.

Lemma ready_decode_locked key : seg ready_grows (λ _, True) (decode_locked key).
Proof.
  unfold decode_locked. seg_step; [apply ready_notify_all|].
  seg_step; [apply ready_lock_release|]. ready_tac.
Qed.

Lemma ready_decode name key data t : seg ready_grows (λ _, True) (decode name key data t).
Proof.
  unfold decode. seg_step; [ready_tac|]. seg_step; [apply ready_lock_acquire|].
  apply ready_decode_locked.
Qed.

Lemma ready_protocol_x_decoder message t :
  seg ready_grows (λ _, True) (protocol_x_decoder message t).
Proof.
  unfold protocol_x_decoder. do 3 (seg_step; [ready_tac|]).
  apply seg_bind_py; [apply _|]. intros [d|] Hd; [|ready_tac].
  unfold decoders_get in Hd. repeat case_match; simplify_eq; apply ready_decode.
Qed.

Lemma ready_await_message m t : seg ready_grows (λ _, True) (await_message m t).
Proof.
  unfold await_message. seg_step; [apply ready_lock_acquire|].
  seg_step. apply ready_cond_wait.
Qed.

Lemma ready_await_message_leave m : seg ready_grows (λ _, True) (await_message_leave m).
Proof. unfold await_message_leave. seg_step; [apply ready_lock_release|]. ready_tac. Qed.

Lemma ready_await_message_woken m t :
  seg ready_grows (λ _, True) (await_message_woken m t).
Proof.
  unfold await_message_woken. seg_step; [apply ready_cond_wait_woken|].
  apply ready_await_message_leave.
Qed.

Lemma ready_await_all_messages ms t :
  seg ready_grows (λ _, True) (await_all_messages ms t).
Proof. unfold await_all_messages. ready_tac. Qed.

Lemma ready_await_any_messages ms who call t :
  seg ready_grows (λ _, True) (await_any_messages set_iter ms who call t).
Proof. unfold await_any_messages. ready_tac. Qed.

Lemma ready_await_any_resumed t call children cancelled :
  seg ready_grows (λ _, True) (await_any_resumed set_iter t call children cancelled).
Proof.
  unfold await_any_resumed, remove_done_callback. ready_tac.
  apply ready_grows_foldl. auto with ready.
Qed.

Lemma ready_timeout_exit t : seg ready_grows (λ _, True) (timeout_exit t).
Proof. unfold timeout_exit. ready_tac. Qed.

Lemma ready_timeout_exit_exc t e : seg ready_grows (λ _, True) (timeout_exit_exc t e).
Proof.
  unfold timeout_exit_exc. seg_step; [ready_tac|].
  repeat case_match; try (seg_step; [apply ready_timeout_exit|]); ready_tac.
Qed.

Lemma ready_monitor_except e : seg ready_grows (λ _, True) (monitor_except e).
Proof. unfold monitor_except, print. ready_tac. Qed.

Lemma ready_start c t : seg ready_grows (λ _, True) (start json_loads set_iter c t).
Proof.
  destruct c; simpl.
  - apply ready_protocol_x_decoder.
  - apply ready_await_message.
  - apply ready_await_all_messages.
  - seg_step. apply ready_await_any_messages.
  - unfold message_arrival_notifier. seg_step. apply ready_await_any_messages.
  - unfold message_monitor, timeout_enter.
    seg_step; [|apply ready_monitor_except]. seg_step; [ready_tac|].
    seg_step; [|apply ready_timeout_exit_exc]. seg_step. apply ready_await_any_messages.
Qed.

Lemma ready_lock_resumed k t : seg ready_grows (λ _, True) (lock_resumed k t).
Proof.
  destruct k; simpl; (seg_step; [apply ready_lock_granted|]).
  - apply ready_decode_locked.
  - seg_step. apply ready_cond_wait.
  - apply ready_await_message_leave.
Qed.

Lemma ready_any_resumed who call children cancelled t :
  seg ready_grows (λ _, True) (any_resumed set_iter who call children cancelled t).
Proof.
  destruct who; simpl.
  - seg_step; [apply ready_await_any_resumed|]. ready_tac.
  - seg_step; [apply ready_await_any_resumed|]. unfold notifier_arrived, print.
    do 2 (seg_step; [ready_tac|]). seg_step. apply ready_await_any_messages.
  - seg_step; [|apply ready_monitor_except].
    seg_step; [|apply ready_timeout_exit_exc].
    seg_step; [apply ready_await_any_resumed|]. unfold monitor_arrived, print, state_item.
    do 4 (seg_step; [ready_tac|]). destruct a3.
    + seg_step; [ready_tac|]. seg_step; [apply ready_timeout_exit|]. ready_tac.
    + do 3 (seg_step; [ready_tac|]). seg_step. apply ready_await_any_messages.
Qed.

Lemma ready_run_task t L : ready_grows L (run_task t L).
Proof.
  unfold run_task. destruct (tasks L !! t) as [T|]; [|reflexivity].
  destruct (resume json_loads set_iter t T) as [m|] eqn:Hm; [|reflexivity].
  assert (seg ready_grows (λ _, True) m) as Hseg.
  { unfold resume in Hm. repeat case_match; simplify_eq;
      auto using ready_start, ready_lock_resumed, ready_await_message_woken,
        ready_any_resumed.
    unfold await_all_resumed. ready_tac. }
  destruct (Hseg (update_task t (with_must_cancel false) L)) as [HR _].
  destruct (m _) as [L' [v|e|p]]; simpl in HR.
  - etrans; [|apply ready_grows_finish]. etrans; [|exact HR]. auto with ready.
  - etrans; [|apply ready_grows_finish]. etrans; [|exact HR]. auto with ready.
  - etrans; [|apply ready_grows_update_task]. etrans; [|exact HR]. auto with ready.
Qed.

Lemma ready_run_handle h L : ready_grows L (run_handle h L).
Proof.
  destruct h as [t|[parent call|parent] child|t]; simpl.
  - apply ready_run_task.
  - unfold on_completion. repeat case_match; try reflexivity. auto with ready.
  - unfold gather_done, set_pc. repeat case_match; try reflexivity;
      eauto using ready_grows_call_soon with ready.
  - unfold expire, task_cancel, set_pc. repeat case_match; try reflexivity;
      try (etrans; [apply ready_grows_update_task|]);
      eauto using ready_grows_call_soon with ready.
Qed.

Lemma ready_deliver i L : ready_grows L (deliver i L).
Proof.
  destruct i; [apply ready_grows_create_task| |apply ready_grows_create_task].
  simpl. repeat case_match; try reflexivity.
  eauto using ready_grows_call_soon with ready.
Qed.

(** The loop takes the head of the queue; whatever it runs only appends. *)
Lemma ready_run_next L : ∃ new, ready (run_next L) = tail (ready L) ++ new.
Proof.
  unfold run_next. destruct (ready L) as [|h rest] eqn:Hr.
  - exists []. by rewrite Hr.
  - destruct (ready_run_handle h (mkLoop (state L) (tasks L) rest (out L))) as [new H].
    by exists new.
Qed.

(** ** Steps that leave the conditions alone *)

#[local] Instance calm_preorder : PreOrder calm.
Proof.
  split.
  - intros L. by repeat split.
  - intros L1 L2 L3 (Hs1 & Hf1 & Hb1) (Hs2 & Hf2 & Hb2). repeat split.
    + by rewrite Hs2.
    + intros u p Hp Hfr. eauto.
    + intros u p Hp Hbl. eauto.
Qed.

Lemma pc_of_update_task_ne u t f L : u ≠ t → pc_of u (update_task t f L) = pc_of u L.
Proof.
  intros Hne. unfold pc_of, update_task. destruct (tasks L !! t); [|done].
  simpl. by rewrite list_lookup_insert_ne.
Qed.

Lemma pc_of_update_task_eq t f L :
  pc_of t (update_task t f L) = (λ T, t_pc (f T)) <$> tasks L !! t.
Proof.
  unfold pc_of, update_task. destruct (tasks L !! t) as [T|] eqn:HT; simpl.
  - rewrite list_lookup_insert_eq; [done|]. by eapply lookup_lt_Some.
  - by rewrite HT.
Qed.

Lemma pc_of_update_task_same u t f L :
  (∀ T, t_pc (f T) = t_pc T) → pc_of u (update_task t f L) = pc_of u L.
Proof.
  intros Hf. destruct (decide (u = t)) as [->|Hne].
  - rewrite pc_of_update_task_eq. unfold pc_of. destruct (tasks L !! t); simpl; [|done].
    by rewrite Hf.
  - by apply pc_of_update_task_ne.
Qed.

Lemma pc_of_set_pc_eq t p L : is_Some (pc_of t L) → pc_of t (set_pc t p L) = Some p.
Proof.
  unfold set_pc. rewrite pc_of_update_task_eq. unfold pc_of.
  destruct (tasks L !! t); simpl; [done|]. by intros [? ?].
Qed.

Lemma pc_of_set_pc_ne u t p L : u ≠ t → pc_of u (set_pc t p L) = pc_of u L.
Proof. apply pc_of_update_task_ne. Qed.

Lemma pc_of_call_soon u h L : pc_of u (call_soon h L) = pc_of u L.
Proof. done. Qed.

Lemma pc_of_finish_eq t r L : is_Some (pc_of t L) → pc_of t (finish t r L) = Some (Finished r).
Proof.
  unfold pc_of, finish. destruct (tasks L !! t) as [T|] eqn:HT; simpl.
  - rewrite list_lookup_insert_eq; [done|]. by eapply lookup_lt_Some.
  - by intros [? ?].
Qed.

Lemma pc_of_finish_ne u t r L : u ≠ t → pc_of u (finish t r L) = pc_of u L.
Proof.
  intros Hne. unfold pc_of, finish. destruct (tasks L !! t); [|done].
  simpl. by rewrite list_lookup_insert_ne.
Qed.

Lemma pc_of_create_task u c cbs L :
  pc_of u (create_task c cbs L).2
  = if decide (u = length (tasks L)) then Some (Start c) else pc_of u L.
Proof.
  unfold pc_of, create_task. simpl. case_decide as Hu.
  - subst. by rewrite lookup_app_r, Nat.sub_diag.
  - destruct (decide (u < length (tasks L))).
    + by rewrite lookup_app_l.
    + rewrite !lookup_ge_None_2; [done|lia|]. rewrite length_app. simpl. lia.
Qed.

Lemma pc_of_lt u p L : pc_of u L = Some p → u < length (tasks L).
Proof.
  unfold pc_of. destruct (tasks L !! u) eqn:H; [|done]. intros _.
  by eapply lookup_lt_Some.
Qed.

Lemma calm_same L L' :
  state L' = state L → (∀ u, pc_of u L' = pc_of u L) → calm L L'.
Proof. intros Hs Hp. repeat split; [done|..]; intros u p; by rewrite Hp. Qed.

Lemma calm_update_task t f L :
  (∀ T, t_pc (f T) = t_pc T) → calm L (update_task t f L).
Proof.
  intros Hf. apply calm_same; [apply state_update_task|].
  intros u. by apply pc_of_update_task_same.
Qed.

Lemma calm_call_soon h L L' : calm L L' → calm L (call_soon h L').
Proof. intros H. etrans; [exact H|]. by apply calm_same. Qed.

Lemma calm_create_task c cbs L : calm L (create_task c cbs L).2.
Proof.
  unfold calm. split; [reflexivity|]. split; intros u p; rewrite pc_of_create_task.
  - intros Hp _. apply pc_of_lt in Hp as Hlt. case_decide; [lia|done].
  - case_decide; [|done]. by intros [= <-] [].
Qed.

(** Moving a task from one [collecting] point to another, or finishing
    it there, is calm. *)
Lemma calm_set_pc t p q L :
  pc_of t L = Some q → ¬ frozen q → ¬ blocked p → calm L (set_pc t p L).
Proof.
  intros Hq Hnf Hnb. repeat split.
  - apply state_update_task.
  - intros u p' Hp' Hfr. destruct (decide (u = t)) as [->|Hne].
    + congruence.
    + by rewrite pc_of_set_pc_ne.
  - intros u p' Hp' Hbl. destruct (decide (u = t)) as [->|Hne].
    + rewrite pc_of_set_pc_eq in Hp' by done. congruence.
    + by rewrite pc_of_set_pc_ne in Hp'.
Qed.

Lemma calm_set_result t L : (∃ q, pc_of t L = Some q ∧ collecting q) → calm L (set_result t L).
Proof.
  intros (q & Hq & Hc). unfold set_result. rewrite Hq.
  destruct q; try done. destruct waiter; try reflexivity.
  apply calm_call_soon. eapply calm_set_pc; [exact Hq|..]; simpl; tauto.
Qed.

Lemma calm_foldl {A} (f : Loop → A → Loop) (l : list A) L :
  (∀ L x, calm L (f L x)) → calm L (foldl f L l).
Proof.
  intros Hf. revert L. induction l as [|x l IH]; intros L; simpl; [reflexivity|].
  etrans; [apply Hf|apply IH].
Qed.

Create HintDb calm.

#[local] Hint Resolve calm_update_task calm_create_task : calm.

Ltac calm_tac :=
  repeat seg_step;
  repeat case_match;
  try done;
  try reflexivity;
  eauto using calm_call_soon with calm.

Lemma calm_print l : seg calm collecting (print l).
Proof. unfold print. seg_step. by apply calm_same. Qed.

Lemma calm_await_all_messages ms t : seg calm collecting (await_all_messages ms t).
Proof. unfold await_all_messages. calm_tac. Qed.

Lemma calm_await_any_messages ms who call t :
  seg calm collecting (await_any_messages set_iter ms who call t).
Proof. unfold await_any_messages. calm_tac. Qed.

Lemma calm_await_any_resumed t call children cancelled :
  seg calm collecting (await_any_resumed set_iter t call children cancelled).
Proof.
  unfold await_any_resumed, remove_done_callback. calm_tac;
    apply calm_foldl; auto with calm.
Qed.

Lemma calm_timeout_exit t : seg calm collecting (timeout_exit t).
Proof. unfold timeout_exit. calm_tac. Qed.

Lemma calm_timeout_exit_exc t e : seg calm collecting (timeout_exit_exc t e).
Proof.
  unfold timeout_exit_exc. seg_step; [calm_tac|].
  repeat case_match; try (seg_step; [apply calm_timeout_exit|]); calm_tac.
Qed.

Lemma calm_monitor_except e : seg calm collecting (monitor_except e).
Proof.
  unfold monitor_except. destruct e; try apply seg_raise; try apply _.
  seg_step; [apply calm_print|]. calm_tac.
Qed.

Lemma calm_start c t : composite c → seg calm collecting (start json_loads set_iter c t).
Proof.
  destruct c; simpl; try done; intros _.
  - apply calm_await_all_messages.
  - seg_step. apply calm_await_any_messages.
  - unfold message_arrival_notifier. seg_step. apply calm_await_any_messages.
  - unfold message_monitor, timeout_enter.
    seg_step; [|apply calm_monitor_except]. seg_step; [calm_tac|].
    seg_step; [|apply calm_timeout_exit_exc]. seg_step. apply calm_await_any_messages.
Qed.

Lemma calm_any_resumed who call children cancelled t :
  seg calm collecting (any_resumed set_iter who call children cancelled t).
Proof.
  destruct who; simpl.
  - seg_step; [apply calm_await_any_resumed|]. calm_tac.
  - seg_step; [apply calm_await_any_resumed|]. unfold notifier_arrived.
    seg_step; [calm_tac|]. seg_step; [apply calm_print|].
    seg_step. apply calm_await_any_messages.
  - seg_step; [|apply calm_monitor_except].
    seg_step; [|apply calm_timeout_exit_exc].
    seg_step; [apply calm_await_any_resumed|]. unfold monitor_arrived, state_item.
    seg_step; [calm_tac|]. seg_step; [apply calm_print|].
    do 2 (seg_step; [calm_tac|]). destruct a3.
    + seg_step; [apply calm_print|]. seg_step; [apply calm_timeout_exit|]. calm_tac.
    + do 2 (seg_step; [calm_tac|]). seg_step; [apply calm_print|].
      seg_step. apply calm_await_any_messages.
Qed.

Lemma calm_calm_but t L L' : calm L L' → calm_but t L L'.
Proof. intros (Hs & Hf & Hb). repeat split; eauto. Qed.

Lemma calm_but_finish t q L0 L r :
  pc_of t L0 = Some q → ¬ blocked q → calm L0 L → calm_but t L0 (finish t r L).
Proof.
  intros Hq Hnb (Hs & Hf & Hb). repeat split.
  - by rewrite state_finish.
  - intros u p Hne Hp Hfr. rewrite pc_of_finish_ne by done. eauto.
  - intros u p Hp Hbl. destruct (decide (u = t)) as [->|Hne].
    + destruct (pc_of t L) eqn:Ht.
      * rewrite pc_of_finish_eq in Hp by done. by simplify_eq.
      * unfold pc_of, finish in *. destruct (tasks L !! t); simplify_eq.
        apply Hb; [|done]. unfold pc_of. by rewrite Hp.
    + rewrite pc_of_finish_ne in Hp by done. eauto.
Qed.

Lemma calm_but_set_pc t q L0 L p :
  pc_of t L0 = Some q → ¬ blocked q → ¬ blocked p → calm L0 L →
  calm_but t L0 (set_pc t p L).
Proof.
  intros Hq Hnb Hnp (Hs & Hf & Hb). repeat split.
  - unfold set_pc. by rewrite state_update_task.
  - intros u p' Hne Hp Hfr. rewrite pc_of_set_pc_ne by done. eauto.
  - intros u p' Hp Hbl. destruct (decide (u = t)) as [->|Hne].
    + destruct (pc_of t L) eqn:Ht.
      * rewrite pc_of_set_pc_eq in Hp by done. by simplify_eq.
      * unfold set_pc in Hp. rewrite pc_of_update_task_eq in Hp.
        unfold pc_of in Ht. by destruct (tasks L !! t).
    + rewrite pc_of_set_pc_ne in Hp by done. eauto.
Qed.

(** A step of a task that is not blocked runs a calm segment. *)
Lemma resume_calm t T m :
  resume json_loads set_iter t T = Some m →
  match t_pc T with
  | Start c => composite c
  | p => ¬ blocked p
  end →
  seg calm collecting m.
Proof.
  unfold resume. intros Hm Hpc. repeat case_match; simplify_eq; simpl in *;
    auto using calm_start, calm_any_resumed; try tauto.
  unfold await_all_resumed. calm_tac.
Qed.

Lemma run_task_calm t T L :
  tasks L !! t = Some T →
  match t_pc T with
  | Start c => composite c
  | p => ¬ blocked p
  end →
  calm_but t L (run_task t L).
Proof.
  intros HT Hpc. unfold run_task. rewrite HT.
  destruct (resume json_loads set_iter t T) as [m|] eqn:Hm;
    [|apply calm_calm_but; reflexivity].
  assert (pc_of t L = Some (t_pc T)) as Hq by (unfold pc_of; by rewrite HT).
  assert (¬ blocked (t_pc T)) as Hnb by (destruct (t_pc T); simpl in *; tauto).
  destruct (resume_calm t T m Hm Hpc (update_task t (with_must_cancel false) L))
    as [HR HS].
  assert (calm L (m (update_task t (with_must_cancel false) L)).1) as Hcalm.
  { etrans; [|exact HR]. by apply calm_update_task. }
  destruct (m _) as [L' [v|e|p]]; simpl in *.
  - by eapply calm_but_finish.
  - by eapply calm_but_finish.
  - eapply (calm_but_set_pc _ _ _ _ _ Hq Hnb); [|exact Hcalm].
    specialize (HS p eq_refl). destruct p; simpl in *; tauto.
Qed.

Lemma calm_on_completion parent call L : calm L (on_completion parent call L).
Proof.
  unfold on_completion. destruct (pc_of parent L) as [[]|] eqn:Hp; try reflexivity.
  destruct waiter; try reflexivity. case_decide; [|reflexivity].
  apply calm_set_result. by eexists.
Qed.

Lemma calm_gather_done parent child L : calm L (gather_done parent child L).
Proof.
  unfold gather_done. destruct (pc_of parent L) as [[]|] eqn:Hp; try reflexivity.
  repeat case_match; try reflexivity; try apply calm_call_soon;
    (eapply calm_set_pc; [exact Hp|..]; simpl; tauto).
Qed.

Lemma calm_task_cancel t L : calm L (task_cancel t L).
Proof.
  unfold task_cancel. destruct (pc_of t L) as [q|] eqn:Hq; [|reflexivity].
  destruct q; try (by apply calm_update_task).
  - destruct waiter; try (by apply calm_update_task).
    apply calm_call_soon. eapply calm_set_pc; [exact Hq|..]; simpl; tauto.
  - reflexivity.
Qed.

Lemma calm_expire t L : calm L (expire t L).
Proof.
  unfold expire. repeat case_match; try reflexivity.
  etrans; [|apply calm_task_cancel]. by apply calm_update_task.
Qed.

Lemma calm_deliver i L : calm L (deliver i L).
Proof.
  destruct i; [apply calm_create_task| |apply calm_create_task].
  simpl. repeat case_match; try reflexivity.
  apply calm_call_soon. by apply calm_update_task.
Qed.

(** ** What a notification does *)

Lemma with_pc_id T : with_pc (t_pc T) T = T.
Proof. by destruct T. Qed.

Lemma tasks_update_task_eq t f L T :
  tasks L !! t = Some T → tasks (update_task t f L) !! t = Some (f T).
Proof.
  intros HT. unfold update_task. rewrite HT. simpl.
  rewrite list_lookup_insert_eq; [done|]. by eapply lookup_lt_Some.
Qed.

Lemma tasks_update_task_ne u t f L :
  u ≠ t → tasks (update_task t f L) !! u = tasks L !! u.
Proof.
  intros Hne. unfold update_task. destruct (tasks L !! t); [|done].
  simpl. by rewrite list_lookup_insert_ne.
Qed.

Lemma tasks_set_result u t L :
  tasks (set_result t L) !! u
  = if decide (u = t) then (λ T, with_pc (woken (t_pc T)) T) <$> tasks L !! t
    else tasks L !! u.
Proof.
  unfold set_result, pc_of, set_pc. case_decide as Hu.
  - subst u. destruct (tasks L !! t) as [T|] eqn:HT; simpl; [|by rewrite HT].
    destruct (t_pc T) as [?|? []|? []|? ? ? ?|? ? ? []|?] eqn:Hpc; simpl;
      rewrite ?HT; simpl; rewrite <- ?Hpc, ?with_pc_id; try done;
      by erewrite tasks_update_task_eq.
  - destruct (tasks L !! t) as [T|] eqn:HT; simpl; [|done].
    repeat case_match; simpl; try done; by rewrite tasks_update_task_ne.
Qed.

Lemma pc_of_set_result u t L :
  pc_of u (set_result t L)
  = if decide (u = t) then woken <$> pc_of t L else pc_of u L.
Proof.
  unfold pc_of at 1. rewrite tasks_set_result. case_decide; [|done].
  unfold pc_of. by destruct (tasks L !! t).
Qed.

Lemma ready_set_result t L :
  ready (set_result t L) = ready L ++ (if pending_at L t then [Run t] else []).
Proof.
  unfold set_result, pending_at, set_pc.
  destruct (pc_of t L) as [[?|? []|? []|? ? ? ?|? ? ? []|?]|]; simpl;
    rewrite ?ready_update_task, ?app_nil_r; done.
Qed.

Lemma out_update_task t f L : out (update_task t f L) = out L.
Proof. unfold update_task. by destruct (tasks L !! t). Qed.

Lemma out_set_result t L : out (set_result t L) = out L.
Proof.
  unfold set_result, set_pc. repeat case_match; simpl; by rewrite ?out_update_task.
Qed.

Lemma out_wake_all ws L : out (wake_all ws L) = out L.
Proof.
  unfold wake_all. revert L. induction ws as [|w ws IH]; intros L; simpl; [done|].
  by rewrite IH, out_set_result.
Qed.

Lemma woken_idemp p : woken (woken p) = woken p.
Proof. by destruct p as [?|? []|? []|? ? ? ?|? ? ? []|?]. Qed.

Lemma pending_woken p : pending (woken p) = false.
Proof. by destruct p as [?|? []|? []|? ? ? ?|? ? ? []|?]. Qed.

Lemma pc_of_wake_all u ws L :
  pc_of u (wake_all ws L)
  = if decide (u ∈ ws) then woken <$> pc_of u L else pc_of u L.
Proof.
  unfold wake_all. revert L. induction ws as [|w ws IH]; intros L; simpl.
  - done.
  - rewrite IH, !pc_of_set_result.
    destruct (decide (u = w)) as [->|Hne];
      destruct (decide (_ ∈ ws)) as [Hin|Hin];
      destruct (decide (_ ∈ _ :: ws)) as [Hin2|Hin2]; try done;
      rewrite ?elem_of_cons in Hin2; try tauto.
    destruct (pc_of w L); simpl; [|done]. by rewrite woken_idemp.
Qed.

Lemma tasks_wake_all u ws L :
  tasks (wake_all ws L) !! u
  = if decide (u ∈ ws) then (λ T, with_pc (woken (t_pc T)) T) <$> tasks L !! u
    else tasks L !! u.
Proof.
  unfold wake_all. revert L. induction ws as [|w ws IH]; intros L; simpl.
  - done.
  - rewrite IH, !tasks_set_result.
    destruct (decide (u = w)) as [->|Hne];
      destruct (decide (_ ∈ ws)) as [Hin|Hin];
      destruct (decide (_ ∈ _ :: ws)) as [Hin2|Hin2]; try done;
      rewrite ?elem_of_cons in Hin2; try tauto.
    destruct (tasks L !! w) as [T|]; simpl; [|done].
    unfold with_pc. simpl. by rewrite woken_idemp.
Qed.

Lemma filter_ext_elem {A} (P1 P2 : A → Prop)
    `{!∀ x, Decision (P1 x), !∀ x, Decision (P2 x)} (l : list A) :
  (∀ x, x ∈ l → P1 x ↔ P2 x) → filter P1 l = filter P2 l.
Proof.
  induction l as [|a l IH]; intros Hiff; [done|].
  rewrite !filter_cons. rewrite IH by (intros x Hx; apply Hiff; by right).
  assert (P1 a ↔ P2 a) by (apply Hiff; by left).
  repeat case_decide; tauto || done.
Qed.

Lemma pending_at_set_result u t L :
  u ≠ t → pending_at (set_result t L) u = pending_at L u.
Proof. intros Hne. unfold pending_at. by rewrite pc_of_set_result, decide_False. Qed.

Lemma ready_wake_all ws L :
  NoDup ws →
  ready (wake_all ws L) = ready L ++ (Run <$> filter (λ u, pending_at L u = true) ws).
Proof.
  unfold wake_all. intros Hnd. revert L.
  induction Hnd as [|w ws Hw Hnd IH]; intros L; simpl.
  - by rewrite app_nil_r.
  - rewrite IH, ready_set_result, <- app_assoc. f_equal.
    rewrite filter_cons.
    assert (filter (λ u, pending_at (set_result w L) u = true) ws
            = filter (λ u, pending_at L u = true) ws) as ->.
    { apply filter_ext_elem. intros u Hu.
      rewrite pending_at_set_result; [done|]. by intros ->. }
    case_decide as Hp.
    + by rewrite Hp.
    + by destruct (pending_at L w).
Qed.

(** ** Steps that use a condition, written out *)

Lemma update_task_set_state st t f L :
  update_task t f (set_state st L) = set_state st (update_task t f L).
Proof. unfold update_task. simpl. by destruct (tasks L !! t). Qed.

Lemma set_result_set_state st t L :
  set_result t (set_state st L) = set_state st (set_result t L).
Proof.
  unfold set_result, pc_of, set_pc. simpl.
  destruct (t_pc <$> tasks L !! t) as [[?|? []|? []|? ? ? ?|? ? ? []|?]|]; try done;
    by rewrite update_task_set_state.
Qed.

Lemma wake_all_set_state st ws L :
  wake_all ws (set_state st L) = set_state st (wake_all ws L).
Proof.
  unfold wake_all. revert L. induction ws as [|w ws IH]; intros L; simpl; [done|].
  by rewrite set_result_set_state, IH.
Qed.

Lemma set_state_set_state st st' L : set_state st (set_state st' L) = set_state st L.
Proof. done. Qed.

Lemma decode_explicit name key data t L c :
  name ≠ key →
  state L !! key = Some (Cond c) → locked c = false → lock_waiters c = [] →
  decode name key data t L
  = (set_state (<[key := Cond (mkCondition false [] (waiters c) (S (notified c)))]>
                  (<[name := Val data]> (state L)))
               (wake_all (waiters c) L),
     Ok VNone).
Proof.
  intros Hne Hc Hl Hw.
  unfold decode, decode_locked, lock_acquire, notify_all, lock_release,
    cond_at, read, py, bind, effect, ret, raise, suspend, set_cond. simpl.
  rewrite lookup_insert_ne, Hc by done. simpl. rewrite Hl, Hw. simpl.
  repeat (rewrite ?lookup_insert_eq, ?state_wake_all; simpl).
  rewrite !wake_all_set_state. unfold set_state. simpl.
  by rewrite !insert_insert_eq.
Qed.

Lemma await_message_explicit m t L c :
  state L !! (m +:+ "_event") = Some (Cond c) → locked c = false → lock_waiters c = [] →
  await_message m t L
  = (set_cond (m +:+ "_event") (mkCondition false [] (waiters c ++ [t]) (notified c)) L,
     Suspend (CondWait m false)).
Proof.
  intros Hc Hl Hw.
  unfold await_message, never, cond_wait, lock_acquire, lock_release,
    cond_at, read, py, bind, effect, ret, raise, suspend, set_cond. simpl.
  rewrite Hc. simpl. rewrite Hl, Hw. simpl.
  repeat (rewrite ?lookup_insert_eq; simpl).
  unfold set_state. simpl. by rewrite !insert_insert_eq.
Qed.

Lemma await_message_missing m t L :
  (∀ c, state L !! (m +:+ "_event") ≠ Some (Cond c)) →
  ∃ e, UnknownTopic m e ∧ await_message m t L = (L, Raise e).
Proof.
  intros Hc.
  unfold await_message, never, cond_wait, lock_acquire, lock_release,
    cond_at, read, py, bind, effect, ret, raise, suspend, set_cond, UnknownTopic. simpl.
  destruct (state L !! (m +:+ "_event")) as [[v|c]|]; simpl; eauto.
  by destruct (Hc c).
Qed.

Lemma await_message_woken_explicit m t L c :
  state L !! (m +:+ "_event") = Some (Cond c) → locked c = false → lock_waiters c = [] →
  await_message_woken m t L
  = (set_cond (m +:+ "_event")
       (mkCondition false [] (remove_first t (waiters c)) (notified c)) L,
     Ok (VStr m)).
Proof.
  intros Hc Hl Hw.
  unfold await_message_woken, await_message_leave, cond_wait_woken, lock_acquire,
    lock_release, cond_at, read, py, bind, effect, ret, raise, suspend, set_cond. simpl.
  rewrite Hc. simpl.
  repeat (rewrite ?lookup_insert_eq, ?Hl, ?Hw; simpl).
  unfold set_state. simpl. by rewrite !insert_insert_eq.
Qed.

Lemma not_dispatchable_raises message t L :
  dispatchable (json_loads message) = None →
  ∃ e, protocol_x_decoder message t L = (L, Raise e).
Proof.
  unfold protocol_x_decoder, dispatchable, bind, py, subscript, ret, raise.
  destruct (json_loads message) as [[| | | | | |fields]|]; simpl; eauto.
  destruct (dict_get "type" fields) as [type_|]; simpl; eauto.
  destruct (dict_get "payload" fields) as [payload|]; simpl; eauto.
  destruct type_ as [| | | |s| |]; simpl; eauto.
  case_decide as Hs; [done|]. intros _.
  repeat (case_decide; [tauto|]). eauto.
Qed.

Lemma dispatchable_decode message name payload t :
  dispatchable (json_loads message) = Some (name, payload) →
  (name = "a" ∨ name = "b" ∨ name = "c")
  ∧ protocol_x_decoder message t = decode name (name +:+ "_event") payload t.
Proof.
  unfold protocol_x_decoder, dispatchable, bind, py, subscript, ret, raise.
  destruct (json_loads message) as [[| | | | | |fields]|]; simpl; try done.
  destruct (dict_get "type" fields) as [[| | | |s| |]|]; simpl; try done.
  destruct (dict_get "payload" fields) as [p|]; simpl; try done.
  case_decide as Hs; [|done]. intros [= <- <-]. split; [done|].
  destruct Hs as [-> | [-> | ->] ]; done.
Qed.

(** The step of a dispatch: the payload is written, every waiter of the
    topic's condition is woken, the count of notifications goes up by
    one, and the task is finished, all within the one step. *)
Lemma run_task_decoder t T L message name payload c :
  lock_free L →
  tasks L !! t = Some T → t_pc T = Start (CDecoder message) →
  dispatchable (json_loads message) = Some (name, payload) →
  state L !! (name +:+ "_event") = Some (Cond c) →
  run_task t L
  = finish t (Ret VNone)
      (set_state (<[name +:+ "_event" :=
                      Cond (mkCondition false [] (waiters c) (S (notified c)))]>
                    (<[name := Val payload]> (state L)))
                 (wake_all (waiters c) (update_task t (with_must_cancel false) L))).
Proof.
  intros Hlf HT Hpc Hd Hc. destruct (Hlf _ _ Hc) as [Hl Hw].
  apply dispatchable_decode with (t := t) in Hd as [Hname Hd].
  unfold run_task. rewrite HT. unfold resume. rewrite Hpc. simpl. rewrite Hd.
  erewrite decode_explicit; try done.
  - by rewrite state_update_task.
  - intros Heq. by eapply event_key_not_topic.
  - by rewrite state_update_task.
Qed.

Lemma run_task_decoder_rejected t T L message :
  tasks L !! t = Some T → t_pc T = Start (CDecoder message) →
  dispatchable (json_loads message) = None →
  ∃ e, run_task t L = finish t (Exc e) (update_task t (with_must_cancel false) L).
Proof.
  intros HT Hpc Hd. unfold run_task. rewrite HT. unfold resume. rewrite Hpc. simpl.
  destruct (not_dispatchable_raises message t
              (update_task t (with_must_cancel false) L) Hd) as [e ->].
  by exists e.
Qed.

Lemma run_task_await_message t T L m c :
  lock_free L →
  tasks L !! t = Some T → t_pc T = Start (CAwaitMessage m) →
  state L !! (m +:+ "_event") = Some (Cond c) →
  run_task t L
  = set_pc t (CondWait m false)
      (set_cond (m +:+ "_event") (mkCondition false [] (waiters c ++ [t]) (notified c))
         (update_task t (with_must_cancel false) L)).
Proof.
  intros Hlf HT Hpc Hc. destruct (Hlf _ _ Hc) as [Hl Hw].
  unfold run_task. rewrite HT. unfold resume. rewrite Hpc. simpl.
  erewrite await_message_explicit; try done. by rewrite state_update_task.
Qed.

Lemma run_task_await_message_unknown t T L m :
  tasks L !! t = Some T → t_pc T = Start (CAwaitMessage m) →
  (∀ c, state L !! (m +:+ "_event") ≠ Some (Cond c)) →
  ∃ e, UnknownTopic m e
       ∧ run_task t L = finish t (Exc e) (update_task t (with_must_cancel false) L).
Proof.
  intros HT Hpc Hc. unfold run_task. rewrite HT. unfold resume. rewrite Hpc. simpl.
  destruct (await_message_missing m t (update_task t (with_must_cancel false) L))
    as (e & He & ->); [by rewrite state_update_task|].
  by exists e.
Qed.

Lemma run_task_woken t T L m c :
  lock_free L →
  tasks L !! t = Some T → t_pc T = CondWait m true →
  state L !! (m +:+ "_event") = Some (Cond c) →
  run_task t L
  = finish t (Ret (VStr m))
      (set_cond (m +:+ "_event")
         (mkCondition false [] (remove_first t (waiters c)) (notified c))
         (update_task t (with_must_cancel false) L)).
Proof.
  intros Hlf HT Hpc Hc. destruct (Hlf _ _ Hc) as [Hl Hw].
  unfold run_task. rewrite HT. unfold resume. rewrite Hpc. simpl.
  erewrite await_message_woken_explicit; try done. by rewrite state_update_task.
Qed.

(** ** The invariant holds along every run *)

Lemma wf_calm_but t L L' :
  wf L → calm_but t L L' → (∀ p, pc_of t L = Some p → ¬ blocked p) → wf L'.
Proof.
  intros [Hlf Hwr Hnd Hnl Hcw Hcc] (Hs & Hf & Hb) Ht. split.
  - intros key c. rewrite Hs. apply Hlf.
  - intros key c u. rewrite Hs. intros Hc Hu.
    destruct (Hwr key c u Hc Hu) as (m & b & -> & Hpc).
    exists m, b. split; [done|]. apply Hf; [|done..].
    intros ->. by apply (Ht _ Hpc).
  - intros key c. rewrite Hs. apply Hnd.
  - intros u k b Hpc. apply (Hnl u k b). by apply Hb.
  - intros u m b Hpc. rewrite Hs. apply (Hcw u m b). by apply Hb.
  - intros name Hname. rewrite Hs. by apply Hcc.
Qed.

Lemma wf_calm L L' : wf L → calm L L' → wf L'.
Proof.
  intros Hwf Hcalm. destruct Hwf as [Hlf Hwr Hnd Hnl Hcw Hcc].
  destruct Hcalm as (Hs & Hf & Hb). split.
  - intros key c. rewrite Hs. apply Hlf.
  - intros key c u. rewrite Hs. intros Hc Hu.
    destruct (Hwr key c u Hc Hu) as (m & b & -> & Hpc).
    exists m, b. split; [done|]. by apply Hf.
  - intros key c. rewrite Hs. apply Hnd.
  - intros u k b Hpc. apply (Hnl u k b). by apply Hb.
  - intros u m b Hpc. rewrite Hs. apply (Hcw u m b). by apply Hb.
  - intros name Hname. rewrite Hs. by apply Hcc.
Qed.

Lemma pc_of_set_state u st L : pc_of u (set_state st L) = pc_of u L.
Proof. done. Qed.

Lemma pc_of_set_cond u key c L : pc_of u (set_cond key c L) = pc_of u L.
Proof. done. Qed.

Lemma pc_of_must_cancel u t b L :
  pc_of u (update_task t (with_must_cancel b) L) = pc_of u L.
Proof. by apply pc_of_update_task_same. Qed.

Lemma pc_of_Some_task u p L : pc_of u L = Some p → ∃ T, tasks L !! u = Some T ∧ t_pc T = p.
Proof.
  unfold pc_of. destruct (tasks L !! u) as [T|]; [|done]. intros [= <-]. eauto.
Qed.

Lemma task_pc_of u T L : tasks L !! u = Some T → pc_of u L = Some (t_pc T).
Proof. unfold pc_of. by intros ->. Qed.

Lemma elem_of_remove_first x y l : x ∈ remove_first y l → x ∈ l.
Proof.
  induction l as [|z l IH]; simpl; [done|].
  case_decide; [by right|]. rewrite !elem_of_cons. tauto.
Qed.

Lemma elem_of_remove_first_ne x y l : x ≠ y → x ∈ l → x ∈ remove_first y l.
Proof.
  intros Hne. induction l as [|z l IH]; simpl; [done|].
  rewrite elem_of_cons. case_decide; subst.
  - intros [|]; [done|done].
  - rewrite elem_of_cons. tauto.
Qed.

Lemma not_elem_of_remove_first y l : NoDup l → y ∉ remove_first y l.
Proof.
  induction 1 as [|z l Hz Hnd IH]; simpl; [by apply not_elem_of_nil|].
  case_decide; subst; [done|]. rewrite not_elem_of_cons. by split.
Qed.

Lemma NoDup_remove_first y l : NoDup l → NoDup (remove_first y l).
Proof.
  induction 1 as [|z l Hz Hnd IH]; simpl; [constructor|].
  case_decide; [done|]. constructor; [|done].
  intros H'. by apply Hz, (elem_of_remove_first _ y).
Qed.

Lemma wf_finish_error t q e L :
  wf L → pc_of t L = Some q → ¬ blocked q →
  wf (finish t (Exc e) (update_task t (with_must_cancel false) L)).
Proof.
  intros Hwf Hq Hnb. eapply (wf_calm_but t); [done| |].
  - eapply calm_but_finish; [done..|]. by apply calm_update_task.
  - intros p Hp. by simplify_eq.
Qed.

Lemma woken_cond_wait p m b' : woken p = CondWait m b' → ∃ b, p = CondWait m b.
Proof. destruct p as [?|? []|? []|? ? ? ?|? ? ? []|?]; intros [=]; subst; eauto. Qed.

Lemma woken_lock_wait p k b' : woken p = LockWait k b' → ∃ b, p = LockWait k b.
Proof. destruct p as [?|? []|? []|? ? ? ?|? ? ? []|?]; intros [=]; subst; eauto. Qed.

Lemma woken_of_cond_wait m b : ∃ b', woken (CondWait m b) = CondWait m b'.
Proof. destruct b; simpl; eauto. Qed.

(** The [pc] of every task after a dispatch. *)
Lemma pc_of_dispatched u t r st ws L :
  is_Some (pc_of t L) →
  pc_of u (finish t r (set_state st (wake_all ws (update_task t (with_must_cancel false) L))))
  = if decide (u = t) then Some (Finished r)
    else if decide (u ∈ ws) then woken <$> pc_of u L else pc_of u L.
Proof.
  intros Ht. case_decide as Hu.
  - subst. rewrite pc_of_finish_eq; [done|].
    rewrite pc_of_set_state, pc_of_wake_all, pc_of_must_cancel.
    destruct Ht as [p ->]. by case_decide.
  - rewrite pc_of_finish_ne, pc_of_set_state, pc_of_wake_all, pc_of_must_cancel; done.
Qed.

Lemma wf_run_task_decoder t T L message name payload c :
  wf L →
  tasks L !! t = Some T → t_pc T = Start (CDecoder message) →
  dispatchable (json_loads message) = Some (name, payload) →
  state L !! (name +:+ "_event") = Some (Cond c) →
  wf (run_task t L).
Proof.
  intros Hwf HT Hpc Hd Hc.
  rewrite (run_task_decoder t T L message name payload c); [|apply Hwf|done..].
  destruct (dispatchable_decode _ _ _ t Hd) as [Hname _].
  assert (∀ k, name ≠ k +:+ "_event") as Hne by (intros k; by apply event_key_not_topic).
  assert (pc_of t L = Some (Start (CDecoder message))) as Hpct
    by (by rewrite (task_pc_of _ _ _ HT), Hpc).
  destruct Hwf as [Hlf Hwr Hnd Hnl Hcw Hcc].
  destruct (Hlf _ _ Hc) as [Hl Hw].
  set (L' := finish _ _ _).
  assert (∀ u, pc_of u L' = if decide (u = t) then Some (Finished (Ret VNone))
                else if decide (u ∈ waiters c) then woken <$> pc_of u L else pc_of u L)
    as Hpcs by (intros u; by apply pc_of_dispatched).
  assert (state L' = <[name +:+ "_event" :=
                         Cond (mkCondition false [] (waiters c) (S (notified c)))]>
                       (<[name := Val payload]> (state L))) as Hst
    by (unfold L'; by rewrite state_finish).
  assert (∀ key c2, state L' !! key = Some (Cond c2) →
            ∃ c1, state L !! key = Some (Cond c1) ∧ waiters c2 = waiters c1
                  ∧ locked c2 = false ∧ lock_waiters c2 = []) as Hconds.
  { intros key c2. rewrite Hst. destruct (decide (key = name +:+ "_event")) as [->|Hk].
    - rewrite lookup_insert_eq. intros [= <-]. by exists c.
    - rewrite lookup_insert_ne by done. destruct (decide (key = name)) as [->|Hk'].
      + by rewrite lookup_insert_eq.
      + rewrite lookup_insert_ne by done. intros Hc2. exists c2.
        destruct (Hlf _ _ Hc2). done. }
  assert (∀ m c1, state L !! (m +:+ "_event") = Some (Cond c1) →
            ∃ c2, state L' !! (m +:+ "_event") = Some (Cond c2)
                  ∧ waiters c2 = waiters c1) as Hconds'.
  { intros m c1 Hc1. rewrite Hst.
    destruct (decide (m +:+ "_event" = name +:+ "_event")) as [Heq|Hk].
    - rewrite Heq in *. rewrite lookup_insert_eq. simplify_eq. by eexists.
    - rewrite !lookup_insert_ne; [by eexists|..]; try done. }
  assert (∀ u m b, pc_of u L = Some (CondWait m b) →
            ∃ b', pc_of u L' = Some (CondWait m b')) as Hfwd.
  { intros u m b Hu. rewrite Hpcs. case_decide; [congruence|].
    case_decide; rewrite Hu; simpl; [|by eexists].
    destruct b; by eexists. }
  assert (∀ u p, pc_of u L' = Some p → blocked p →
            ∃ p0, pc_of u L = Some p0 ∧ woken p0 = woken p ∧ blocked p0) as Hbwd.
  { intros u p. rewrite Hpcs. case_decide; [by intros [= <-]|].
    case_decide.
    - destruct (pc_of u L) as [p0|]; simpl; [|done]. intros [= <-] Hbl.
      exists p0. rewrite woken_idemp. split; [done|]. split; [done|].
      by destruct p0 as [?|? []|? []|? ? ? ?|? ? ? []|?].
    - intros Hp Hbl. by exists p. }
  split.
  - intros key c2 Hc2. destruct (Hconds _ _ Hc2) as (c1 & _ & _ & ? & ?). done.
  - intros key c2 u Hc2 Hu. destruct (Hconds _ _ Hc2) as (c1 & Hc1 & Hws & _).
    rewrite Hws in Hu. destruct (Hwr _ _ _ Hc1 Hu) as (m & b & -> & Hpu).
    destruct (Hfwd _ _ _ Hpu) as [b' Hb']. by exists m, b'.
  - intros key c2 Hc2. destruct (Hconds _ _ Hc2) as (c1 & Hc1 & -> & _). by eapply Hnd.
  - intros u k b Hu. destruct (Hbwd _ _ Hu I) as (p0 & Hp0 & Hw0 & Hb0).
    destruct p0 as [?|k0 b0|? ?|? ? ? ?|? ? ? ?|?]; try done.
    + by apply (Hnl u k0 b0).
    + by destruct woken0, b.
  - intros u m b Hu. destruct (Hbwd _ _ Hu I) as (p0 & Hp0 & Hw0 & Hb0).
    destruct p0 as [?|k0 b0|m0 b0|? ? ? ?|? ? ? ?|?]; try done.
    + by destruct (Hnl u k0 b0).
    + assert (m0 = m) as -> by (destruct b0, b; simpl in Hw0; congruence).
      destruct (Hcw _ _ _ Hp0) as (c1 & Hc1 & Hin).
      destruct (Hconds' _ _ Hc1) as (c2 & Hc2 & Hws). exists c2. by rewrite Hws.
  - intros name2 Hname2. destruct (Hcc _ Hname2) as [c1 Hc1].
    destruct (Hconds' _ _ Hc1) as (c2 & Hc2 & _). by exists c2.
Qed.

Lemma wf_run_task_await_message t T L m c :
  wf L →
  tasks L !! t = Some T → t_pc T = Start (CAwaitMessage m) →
  state L !! (m +:+ "_event") = Some (Cond c) →
  wf (run_task t L).
Proof.
  intros Hwf HT Hpc Hc.
  rewrite (run_task_await_message t T L m c); [|apply Hwf|done..].
  assert (pc_of t L = Some (Start (CAwaitMessage m))) as Hpct
    by (by rewrite (task_pc_of _ _ _ HT), Hpc).
  destruct Hwf as [Hlf Hwr Hnd Hnl Hcw Hcc].
  destruct (Hlf _ _ Hc) as [Hl Hw].
  set (L' := set_pc _ _ _).
  assert (∀ u, pc_of u L' = if decide (u = t) then Some (CondWait m false) else pc_of u L)
    as Hpcs.
  { intros u. unfold L'. case_decide as Hu.
    - subst. rewrite pc_of_set_pc_eq; [done|].
      by rewrite pc_of_set_cond, pc_of_must_cancel, Hpct.
    - by rewrite pc_of_set_pc_ne, pc_of_set_cond, pc_of_must_cancel. }
  assert (state L' = <[m +:+ "_event" :=
                         Cond (mkCondition false [] (waiters c ++ [t]) (notified c))]>
                       (state L)) as Hst.
  { unfold L', set_pc. by rewrite state_update_task; simpl; rewrite state_update_task. }
  assert (t ∉ waiters c) as Hnotin.
  { intros Hin. destruct (Hwr _ _ _ Hc Hin) as (? & ? & _ & ?). congruence. }
  split.
  - intros key c2. rewrite Hst. destruct (decide (key = m +:+ "_event")) as [->|Hk].
    + rewrite lookup_insert_eq. by intros [= <-].
    + rewrite lookup_insert_ne by done. apply Hlf.
  - intros key c2 u. rewrite Hst, Hpcs.
    destruct (decide (key = m +:+ "_event")) as [->|Hk].
    + rewrite lookup_insert_eq. intros [= <-]. simpl. rewrite elem_of_app.
      intros [Hu|Hu%list_elem_of_singleton].
      * destruct (Hwr _ _ _ Hc Hu) as (m' & b & Hkey & Hpu).
        exists m', b. split; [done|]. case_decide; [congruence|done].
      * subst. exists m, false. by rewrite decide_True.
    + rewrite lookup_insert_ne by done. intros Hc2 Hu.
      destruct (Hwr _ _ _ Hc2 Hu) as (m' & b & Hkey & Hpu).
      exists m', b. split; [done|]. case_decide; [congruence|done].
  - intros key c2. rewrite Hst. destruct (decide (key = m +:+ "_event")) as [->|Hk].
    + rewrite lookup_insert_eq. intros [= <-]. simpl. apply NoDup_app.
      split; [by eapply Hnd|]. split; [|apply NoDup_singleton].
      intros x Hx ->%list_elem_of_singleton. done.
    + rewrite lookup_insert_ne by done. apply Hnd.
  - intros u k b. rewrite Hpcs. case_decide; [done|]. apply Hnl.
  - intros u m' b. rewrite Hpcs, Hst. case_decide as Hu.
    + intros [= <- <-]. rewrite lookup_insert_eq. eexists. split; [done|]. simpl.
      rewrite elem_of_app, list_elem_of_singleton. by right.
    + intros Hpu. destruct (Hcw _ _ _ Hpu) as (c1 & Hc1 & Hin).
      destruct (decide (m' +:+ "_event" = m +:+ "_event")) as [Heq|Hk].
      * rewrite Heq in *. rewrite lookup_insert_eq. eexists. split; [done|]. simpl.
        simplify_eq. rewrite elem_of_app. by left.
      * rewrite lookup_insert_ne by done. by exists c1.
  - intros name Hname. rewrite Hst. destruct (Hcc _ Hname) as [c1 Hc1].
    destruct (decide (name +:+ "_event" = m +:+ "_event")) as [Heq|Hk].
    + rewrite Heq. rewrite lookup_insert_eq. by eexists.
    + rewrite lookup_insert_ne by done. by exists c1.
Qed.

Lemma wf_run_task_woken t T L m :
  wf L →
  tasks L !! t = Some T → t_pc T = CondWait m true →
  wf (run_task t L).
Proof.
  intros Hwf HT Hpc.
  assert (pc_of t L = Some (CondWait m true)) as Hpct
    by (by rewrite (task_pc_of _ _ _ HT), Hpc).
  destruct (wf_cond_wait_registered _ Hwf _ _ _ Hpct) as (c & Hc & Hin).
  rewrite (run_task_woken t T L m c); [|apply Hwf|done..].
  destruct Hwf as [Hlf Hwr Hnd Hnl Hcw Hcc].
  destruct (Hlf _ _ Hc) as [Hl Hw].
  set (L' := finish _ _ _).
  assert (∀ u, pc_of u L' = if decide (u = t) then Some (Finished (Ret (VStr m)))
                else pc_of u L) as Hpcs.
  { intros u. unfold L'. case_decide as Hu.
    - subst. rewrite pc_of_finish_eq; [done|].
      by rewrite pc_of_set_cond, pc_of_must_cancel, Hpct.
    - by rewrite pc_of_finish_ne, pc_of_set_cond, pc_of_must_cancel. }
  assert (state L' = <[m +:+ "_event" :=
                         Cond (mkCondition false [] (remove_first t (waiters c))
                                 (notified c))]> (state L)) as Hst.
  { unfold L'. by rewrite state_finish; simpl; rewrite state_update_task. }
  split.
  - intros key c2. rewrite Hst. destruct (decide (key = m +:+ "_event")) as [->|Hk].
    + rewrite lookup_insert_eq. by intros [= <-].
    + rewrite lookup_insert_ne by done. apply Hlf.
  - intros key c2 u. rewrite Hst, Hpcs.
    destruct (decide (key = m +:+ "_event")) as [->|Hk].
    + rewrite lookup_insert_eq. intros [= <-]. simpl. intros Hu.
      assert (u ≠ t) as Hne.
      { intros ->. by eapply not_elem_of_remove_first, Hu; eapply Hnd. }
      apply elem_of_remove_first in Hu.
      destruct (Hwr _ _ _ Hc Hu) as (m' & b & Hkey & Hpu).
      exists m', b. by rewrite decide_False.
    + rewrite lookup_insert_ne by done. intros Hc2 Hu.
      destruct (Hwr _ _ _ Hc2 Hu) as (m' & b & Hkey & Hpu).
      exists m', b. split; [done|]. case_decide; [|done].
      subst. rewrite Hpct in Hpu. by simplify_eq.
  - intros key c2. rewrite Hst. destruct (decide (key = m +:+ "_event")) as [->|Hk].
    + rewrite lookup_insert_eq. intros [= <-]. simpl.
      apply NoDup_remove_first. by eapply Hnd.
    + rewrite lookup_insert_ne by done. apply Hnd.
  - intros u k b. rewrite Hpcs. case_decide; [done|]. apply Hnl.
  - intros u m' b. rewrite Hpcs, Hst. case_decide as Hu; [done|].
    intros Hpu. destruct (Hcw _ _ _ Hpu) as (c1 & Hc1 & Hin1).
    destruct (decide (m' +:+ "_event" = m +:+ "_event")) as [Heq|Hk].
    + rewrite Heq in *. rewrite lookup_insert_eq. eexists. split; [done|]. simpl.
      simplify_eq. by apply elem_of_remove_first_ne.
    + rewrite lookup_insert_ne by done. by exists c1.
  - intros name Hname. rewrite Hst. destruct (Hcc _ Hname) as [c1 Hc1].
    destruct (decide (name +:+ "_event" = m +:+ "_event")) as [Heq|Hk].
    + rewrite Heq. rewrite lookup_insert_eq. by eexists.
    + rewrite lookup_insert_ne by done. by exists c1.
Qed.

Lemma wf_run_task t L : wf L → wf (run_task t L).
Proof.
  intros Hwf. destruct (tasks L !! t) as [T|] eqn:HT;
    [|unfold run_task; by rewrite HT].
  pose proof (task_pc_of _ _ _ HT) as Hpct.
  destruct (t_pc T) as [c|k b|m b|ms ch n o|who call ch w|r] eqn:Hpc.
  - destruct c as [message|m|ms|ms| |].
    + destruct (dispatchable (json_loads message)) as [[name payload]|] eqn:Hd.
      * destruct (dispatchable_decode _ _ _ t Hd) as [Hname _].
        destruct (wf_conditions_created _ Hwf _ Hname) as [c Hc].
        by eapply wf_run_task_decoder.
      * destruct (run_task_decoder_rejected t T L message HT Hpc Hd) as [e ->].
        eapply wf_finish_error; [done|done|by intros []].
    + destruct (state L !! (m +:+ "_event")) as [[v|c]|] eqn:Hc.
      * destruct (run_task_await_message_unknown t T L m HT Hpc) as (e & _ & ->);
          [congruence|]. eapply wf_finish_error; [done|done|by intros []].
      * by eapply wf_run_task_await_message.
      * destruct (run_task_await_message_unknown t T L m HT Hpc) as (e & _ & ->);
          [congruence|]. eapply wf_finish_error; [done|done|by intros []].
    + eapply (wf_calm_but t); [done|eapply run_task_calm; [done|rewrite Hpc; simpl; tauto]|].
      intros p ?. simplify_eq. by intros [].
    + eapply (wf_calm_but t); [done|eapply run_task_calm; [done|rewrite Hpc; simpl; tauto]|].
      intros p ?. simplify_eq. by intros [].
    + eapply (wf_calm_but t); [done|eapply run_task_calm; [done|rewrite Hpc; simpl; tauto]|].
      intros p ?. simplify_eq. by intros [].
    + eapply (wf_calm_but t); [done|eapply run_task_calm; [done|rewrite Hpc; simpl; tauto]|].
      intros p ?. simplify_eq. by intros [].
  - by destruct (wf_no_lock_wait _ Hwf t k b).
  - destruct b; [by eapply wf_run_task_woken|].
    unfold run_task, resume. by rewrite HT, Hpc.
  - eapply (wf_calm_but t); [done|eapply run_task_calm; [done|rewrite Hpc; simpl; tauto]|].
    intros p ?. simplify_eq. by intros [].
  - eapply (wf_calm_but t); [done|eapply run_task_calm; [done|rewrite Hpc; simpl; tauto]|].
    intros p ?. simplify_eq. by intros [].
  - unfold run_task, resume. by rewrite HT, Hpc.
Qed.

Lemma calm_pop L : calm L (mkLoop (state L) (tasks L) (tail (ready L)) (out L)).
Proof. by apply calm_same. Qed.

Lemma wf_run_handle h L : wf L → wf (run_handle h L).
Proof.
  intros Hwf. destruct h as [t|[parent call|parent] child|t]; simpl.
  - by apply wf_run_task.
  - eapply wf_calm; [done|apply calm_on_completion].
  - eapply wf_calm; [done|apply calm_gather_done].
  - eapply wf_calm; [done|apply calm_expire].
Qed.

Lemma wf_deliver i L : wf L → wf (deliver i L).
Proof. intros Hwf. eapply wf_calm; [done|apply calm_deliver]. Qed.

Lemma wf_run_next L : wf L → wf (run_next L).
Proof.
  intros Hwf. unfold run_next. destruct (ready L) as [|h rest] eqn:Hr; [done|].
  apply wf_run_handle. eapply wf_calm; [done|]. by apply calm_same.
Qed.

Lemma wf_act a L : wf L → wf (act a L).
Proof. destruct a; [apply wf_deliver|apply wf_run_next]. Qed.

Lemma wf_exec acts L : wf L → wf (exec acts L).
Proof.
  unfold exec. revert L. induction acts as [|a acts IH]; intros L Hwf; simpl; [done|].
  by apply IH, wf_act.
Qed.

Lemma wf_foldl_deliver inputs L : wf L → wf (foldl (λ L' i, deliver i L') L inputs).
Proof.
  revert L. induction inputs as [|i inputs IH]; intros L Hwf; simpl; [done|].
  by apply IH, wf_deliver.
Qed.

Lemma wf_iter_run_next n L : wf L → wf (Nat.iter n run_next L).
Proof. intros Hwf. induction n as [|n IH]; simpl; [done|]. by apply wf_run_next. Qed.

Lemma wf_run_once inputs L : wf L → wf (run_once inputs L).
Proof. intros Hwf. unfold run_once. by apply wf_iter_run_next, wf_foldl_deliver. Qed.

Lemma wf_run iterations L : wf L → wf (run json_loads set_iter iterations L).
Proof.
  unfold run. revert L. induction iterations as [|i its IH]; intros L Hwf; simpl; [done|].
  by apply IH, wf_run_once.
Qed.

Lemma wf_fresh_loop : wf fresh_loop.
Proof.
  split.
  - intros key c. unfold fresh_loop, create_conditions, state0. simpl.
    intros H. repeat (apply lookup_insert_Some in H as [[_ H]|[_ H]]; simplify_eq; try done).
  - intros key c t. unfold fresh_loop, create_conditions, state0. simpl.
    intros H. repeat (apply lookup_insert_Some in H as [[_ H]|[_ H]]; simplify_eq; try done);
      simpl; by intros ?%elem_of_nil.
  - intros key c. unfold fresh_loop, create_conditions, state0. simpl.
    intros H. repeat (apply lookup_insert_Some in H as [[_ H]|[_ H]]; simplify_eq; try done);
      simpl; constructor.
  - intros t k b. unfold pc_of. simpl. by destruct t.
  - intros t m b. unfold pc_of. simpl. by destruct t.
  - intros name [-> | [-> | ->] ]; unfold fresh_loop, create_conditions; simpl;
      eexists; by simplify_map_eq.
Qed.

(** ** The life of an [await_message] task *)

Lemma await_message_moves_refl L : await_message_moves L L.
Proof.
  split; [done|]. intros u p Hp.
  destruct p as [[]|?|? []|? ? ? ?|? ? ? ?|?]; auto.
Qed.

Lemma await_message_moves_calm_but t L L' :
  calm_but t L L' →
  (∀ p, pc_of t L = Some p →
     match p with
     | Start (CAwaitMessage m) =>
         ∃ e, pc_of t L' = Some (Finished (Exc e)) ∧ UnknownTopic m e
     | Start _ => True
     | p => collecting p
     end) →
  await_message_moves L L'.
Proof.
  intros (Hs & Hf & Hb) Ht. split.
  - intros m. unfold notifications. by rewrite Hs.
  - intros u p Hp. destruct (decide (u = t)) as [->|Hne].
    + specialize (Ht p Hp). destruct p as [[]|?|? []|? ? ? ?|? ? ? ?|?]; try done.
      destruct Ht as [e He]. eauto.
    + assert (frozen p → pc_of u L' = Some p) as Hfr by (intros; by apply Hf).
      unfold notifications. rewrite Hs.
      destruct p as [[]|?|? []|? ? ? ?|? ? ? ?|?]; simpl in *; auto.
Qed.

Lemma await_message_moves_calm L L' : calm L L' → await_message_moves L L'.
Proof.
  intros (Hs & Hf & Hb). split.
  - intros m. unfold notifications. by rewrite Hs.
  - intros u p Hp.
    assert (frozen p → pc_of u L' = Some p) as Hfr by (intros; by apply Hf).
    unfold notifications. rewrite Hs.
    destruct p as [[]|?|? []|? ? ? ?|? ? ? ?|?]; simpl in *; auto.
Qed.

Lemma moves_run_task_decoder t T L message name payload c :
  wf L →
  tasks L !! t = Some T → t_pc T = Start (CDecoder message) →
  dispatchable (json_loads message) = Some (name, payload) →
  state L !! (name +:+ "_event") = Some (Cond c) →
  await_message_moves L (run_task t L).
Proof.
  intros Hwf HT Hpc Hd Hc.
  rewrite (run_task_decoder t T L message name payload c); [|apply Hwf|done..].
  destruct (dispatchable_decode _ _ _ t Hd) as [Hname _].
  assert (∀ k, name ≠ k +:+ "_event") as Hne by (intros k; by apply event_key_not_topic).
  assert (pc_of t L = Some (Start (CDecoder message))) as Hpct
    by (by rewrite (task_pc_of _ _ _ HT), Hpc).
  set (L' := finish _ _ _).
  assert (∀ u, pc_of u L' = if decide (u = t) then Some (Finished (Ret VNone))
                else if decide (u ∈ waiters c) then woken <$> pc_of u L else pc_of u L)
    as Hpcs by (intros u; by apply pc_of_dispatched).
  assert (∀ m, notifications m L'
               = if decide (m +:+ "_event" = name +:+ "_event")
                 then S (notifications m L) else notifications m L) as Hcount.
  { intros m. unfold notifications, L'. rewrite state_finish. simpl.
    case_decide as Hm.
    - by rewrite Hm, lookup_insert_eq, Hc.
    - by rewrite !lookup_insert_ne. }
  split.
  - intros m. rewrite Hcount. case_decide; lia.
  - intros u p Hp. rewrite Hpcs.
    destruct (decide (u = t)) as [->|Hu]; [by simplify_eq|].
    rewrite Hp. simpl.
    destruct p as [[]|?|m [|]|? ? ? ?|? ? ? ?|?]; simpl; try done;
      try (case_decide; by auto).
    rewrite !Hcount.
    destruct (decide (u ∈ waiters c)) as [Hin|Hnin].
    + destruct (wf_waiters_registered _ Hwf _ _ _ Hc Hin) as (m' & b & Hkey & Hpu).
      simplify_eq. rewrite Hkey, decide_True by done. right.
      split; [done|]. split; [done|].
      assert (ready_grows (wake_all (waiters c)
                             (update_task t (with_must_cancel false) L)) L')
        as [new ->] by apply (ready_grows_finish t (Ret VNone) (set_state _ _)).
      rewrite elem_of_app. left.
      rewrite ready_wake_all by (by eapply wf_waiters_nodup).
      rewrite elem_of_app. right. apply list_elem_of_fmap_2.
      apply list_elem_of_filter. split; [|done].
      unfold pending_at. by rewrite pc_of_must_cancel, Hp.
    + left. split; [done|]. case_decide as Hm; [|done].
      destruct (wf_cond_wait_registered _ Hwf _ _ _ Hp) as (c1 & Hc1 & Hin1).
      rewrite Hm in Hc1. by simplify_eq.
Qed.

Lemma moves_run_task_await_message t T L m c :
  wf L →
  tasks L !! t = Some T → t_pc T = Start (CAwaitMessage m) →
  state L !! (m +:+ "_event") = Some (Cond c) →
  await_message_moves L (run_task t L).
Proof.
  intros Hwf HT Hpc Hc.
  rewrite (run_task_await_message t T L m c); [|apply Hwf|done..].
  assert (pc_of t L = Some (Start (CAwaitMessage m))) as Hpct
    by (by rewrite (task_pc_of _ _ _ HT), Hpc).
  set (L' := set_pc _ _ _).
  assert (∀ u, pc_of u L' = if decide (u = t) then Some (CondWait m false) else pc_of u L)
    as Hpcs.
  { intros u. unfold L'. case_decide as Hu.
    - subst. rewrite pc_of_set_pc_eq; [done|].
      by rewrite pc_of_set_cond, pc_of_must_cancel, Hpct.
    - by rewrite pc_of_set_pc_ne, pc_of_set_cond, pc_of_must_cancel. }
  assert (∀ m', notifications m' L' = notifications m' L) as Hcount.
  { intros m'. unfold notifications, L', set_pc. rewrite state_update_task. simpl.
    rewrite state_update_task.
    destruct (decide (m' +:+ "_event" = m +:+ "_event")) as [Hm|Hm].
    - by rewrite Hm, lookup_insert_eq, Hc.
    - by rewrite lookup_insert_ne. }
  split.
  - intros m'. by rewrite Hcount.
  - intros u p Hp. rewrite Hpcs.
    destruct (decide (u = t)) as [->|Hu]; [simplify_eq; auto|].
    destruct p as [[]|?|? []|? ? ? ?|? ? ? ?|?]; rewrite ?Hcount; auto.
Qed.

Lemma moves_run_task_woken t T L m :
  wf L →
  tasks L !! t = Some T → t_pc T = CondWait m true →
  await_message_moves L (run_task t L).
Proof.
  intros Hwf HT Hpc.
  assert (pc_of t L = Some (CondWait m true)) as Hpct
    by (by rewrite (task_pc_of _ _ _ HT), Hpc).
  destruct (wf_cond_wait_registered _ Hwf _ _ _ Hpct) as (c & Hc & Hin).
  rewrite (run_task_woken t T L m c); [|apply Hwf|done..].
  set (L' := finish _ _ _).
  assert (∀ u, pc_of u L' = if decide (u = t) then Some (Finished (Ret (VStr m)))
                else pc_of u L) as Hpcs.
  { intros u. unfold L'. case_decide as Hu.
    - subst. rewrite pc_of_finish_eq; [done|].
      by rewrite pc_of_set_cond, pc_of_must_cancel, Hpct.
    - by rewrite pc_of_finish_ne, pc_of_set_cond, pc_of_must_cancel. }
  assert (∀ m', notifications m' L' = notifications m' L) as Hcount.
  { intros m'. unfold notifications, L'. rewrite state_finish. simpl.
    rewrite state_update_task.
    destruct (decide (m' +:+ "_event" = m +:+ "_event")) as [Hm|Hm].
    - by rewrite Hm, lookup_insert_eq, Hc.
    - by rewrite lookup_insert_ne. }
  split.
  - intros m'. by rewrite Hcount.
  - intros u p Hp. rewrite Hpcs.
    destruct (decide (u = t)) as [->|Hu]; [simplify_eq; auto|].
    destruct p as [[]|?|? []|? ? ? ?|? ? ? ?|?]; rewrite ?Hcount; auto.
Qed.

Lemma moves_finish_error t c e L :
  pc_of t L = Some (Start c) →
  match c with CAwaitMessage m => UnknownTopic m e | _ => True end →
  await_message_moves L (finish t (Exc e) (update_task t (with_must_cancel false) L)).
Proof.
  intros Hpct He. apply (await_message_moves_calm_but t).
  - eapply calm_but_finish; [done|by intros []|]. by apply calm_update_task.
  - intros p Hp. simplify_eq. destruct c; try done. exists e. split; [|done].
    rewrite pc_of_finish_eq; [done|]. by rewrite pc_of_must_cancel, Hpct.
Qed.

Lemma moves_run_task t L : wf L → await_message_moves L (run_task t L).
Proof.
  intros Hwf. destruct (tasks L !! t) as [T|] eqn:HT;
    [|unfold run_task; rewrite HT; apply await_message_moves_refl].
  pose proof (task_pc_of _ _ _ HT) as Hpct.
  assert (calm_composite : ∀ p, t_pc T = p →
            match p with Start c => composite c | p => collecting p end →
            await_message_moves L (run_task t L)).
  { intros p Hp Hcomp. apply (await_message_moves_calm_but t).
    - eapply run_task_calm; [done|]. rewrite Hp.
      destruct p; simpl in *; tauto.
    - intros p' Hp'. rewrite Hpct, Hp in Hp'. injection Hp' as <-.
      by destruct p as [[]|?|? []|? ? ? ?|? ? ? ?|?]. }
  destruct (t_pc T) as [c|k b|m b|ms ch n o|who call ch w|r] eqn:Hpc.
  - destruct c as [message|m|ms|ms| |];
      try (eapply calm_composite; [reflexivity|exact I]).
    + destruct (dispatchable (json_loads message)) as [[name payload]|] eqn:Hd.
      * destruct (dispatchable_decode _ _ _ t Hd) as [Hname _].
        destruct (wf_conditions_created _ Hwf _ Hname) as [c Hc].
        by eapply moves_run_task_decoder.
      * destruct (run_task_decoder_rejected t T L message HT Hpc Hd) as [e ->].
        by eapply moves_finish_error.
    + destruct (state L !! (m +:+ "_event")) as [[v|c]|] eqn:Hc.
      * destruct (run_task_await_message_unknown t T L m HT Hpc) as (e & He & ->);
          [congruence|]. by eapply moves_finish_error.
      * by eapply moves_run_task_await_message.
      * destruct (run_task_await_message_unknown t T L m HT Hpc) as (e & He & ->);
          [congruence|]. by eapply moves_finish_error.
  - by destruct (wf_no_lock_wait _ Hwf t k b).
  - destruct b; [by eapply moves_run_task_woken|].
    unfold run_task, resume. rewrite HT, Hpc. apply await_message_moves_refl.
  - eapply calm_composite; [reflexivity|exact I].
  - eapply calm_composite; [reflexivity|exact I].
  - unfold run_task, resume. rewrite HT, Hpc. apply await_message_moves_refl.
Qed.

Lemma await_message_moves_pop L L' :
  await_message_moves (mkLoop (state L) (tasks L) (tail (ready L)) (out L)) L' →
  await_message_moves L L'.
Proof. done. Qed.

Lemma moves_act a L : wf L → await_message_moves L (act a L).
Proof.
  intros Hwf. destruct a as [i|]; simpl.
  - apply await_message_moves_calm, calm_deliver.
  - unfold run_next. destruct (ready L) as [|h rest] eqn:Hr;
      [apply await_message_moves_refl|].
    set (L0 := mkLoop _ _ _ _).
    assert (wf L0) as Hwf0 by (eapply wf_calm; [done|by apply calm_same]).
    assert (await_message_moves L0 (run_handle h L0)) as Hm.
    { destruct h as [t|[parent call|parent] child|t]; simpl.
      - by apply moves_run_task.
      - apply await_message_moves_calm, calm_on_completion.
      - apply await_message_moves_calm, calm_gather_done.
      - apply await_message_moves_calm, calm_expire. }
    exact Hm.
Qed.

Lemma exec_cons a acts L : exec (a :: acts) L = exec acts (act a L).
Proof. done. Qed.

Lemma exec_app acts1 acts2 L : exec (acts1 ++ acts2) L = exec acts2 (exec acts1 L).
Proof. unfold exec. by rewrite foldl_app. Qed.

Lemma waiting_since_moves w m c0 L L' :
  await_message_moves L L' → waiting_since w m c0 L → waiting_since w m c0 L'.
Proof.
  intros [Hmono Hpcs] [[Hpc Hc]|[Hc [Hpc|Hpc]]].
  - destruct (Hpcs _ _ Hpc) as [[? ?]|(? & ? & ?)].
    + left. split; [done|congruence].
    + right. split; [lia|by left].
  - right. split; [specialize (Hmono m); lia|].
    destruct (Hpcs _ _ Hpc); auto.
  - right. split; [specialize (Hmono m); lia|].
    right. apply (Hpcs _ _ Hpc).
Qed.

Lemma waiting_since_exec w m c0 acts L :
  wf L → waiting_since w m c0 L → waiting_since w m c0 (exec acts L).
Proof.
  revert L. induction acts as [|a acts IH]; intros L Hwf Hw; [done|].
  rewrite exec_cons. apply IH; [by apply wf_act|].
  eapply waiting_since_moves; [by apply moves_act|done].
Qed.

Lemma finished_exec w r acts L :
  wf L → pc_of w L = Some (Finished r) → pc_of w (exec acts L) = Some (Finished r).
Proof.
  revert L. induction acts as [|a acts IH]; intros L Hwf Hw; [done|].
  rewrite exec_cons. apply IH; [by apply wf_act|].
  destruct (moves_act a L Hwf) as [_ Hpcs]. apply (Hpcs _ _ Hw).
Qed.

(** C9 (no already-happened shortcut): take a task that is about to run
    [await_message m], whatever notifications the topic has had so far.
    Its first step does not return.  If after some actions of the loop
    the task has returned, then it returned the name [m], and the run
    splits in two: after the first part the task was registered and
    waiting, and the condition of [m] was notified during the second. *)
Theorem no_already_happened_shortcut (w : nat) (m : string) (L : Loop) :
  wf L →
  pc_of w L = Some (Start (CAwaitMessage m)) →
  (∀ v, pc_of w (run_task w L) ≠ Some (Finished (Ret v)))
  ∧ ∀ acts v,
      pc_of w (exec acts L) = Some (Finished (Ret v)) →
      v = VStr m
      ∧ ∃ acts1 acts2,
          acts = acts1 ++ acts2
          ∧ pc_of w (exec acts1 L) = Some (CondWait m false)
          ∧ notifications m (exec acts1 L) < notifications m (exec acts L).
Proof.
  intros Hwf Hstart. split.
  - intros v Hv. destruct (moves_run_task w L Hwf) as [_ Hpcs].
    destruct (Hpcs _ _ Hstart) as [?|[?|(e & ? & _)]]; congruence.
  - intros acts. revert L Hwf Hstart.
    induction acts as [|a acts IH]; intros L Hwf Hstart v Hv.
    + simpl in Hv. congruence.
    + rewrite exec_cons in Hv.
      destruct (moves_act a L Hwf) as [_ Hpcs].
      destruct (Hpcs _ _ Hstart) as [Hs|[Hreg|(e & He & _)]].
      * destruct (IH _ (wf_act a L Hwf) Hs v Hv) as (-> & acts1 & acts2 & -> & H1 & H2).
        split; [done|]. exists (a :: acts1), acts2. by rewrite !exec_cons.
      * assert (waiting_since w m (notifications m (act a L)) (exec acts (act a L)))
          as [[Hpc _]|[Hlt [Hpc|Hpc]]].
        { apply waiting_since_exec; [by apply wf_act|]. by left. }
        -- congruence.
        -- congruence.
        -- split; [congruence|]. exists [a], acts. by rewrite exec_cons.
      * rewrite (finished_exec w (Exc e) acts (act a L)) in Hv; [done| |done].
        by apply wf_act.
Qed.

(** ** A woken waiter gets to run *)

Lemma woken_runs w m L :
  wf L → pc_of w L = Some (CondWait m true) →
  pc_of w (run_task w L) = Some (Finished (Ret (VStr m))).
Proof.
  intros Hwf Hpc. destruct (pc_of_Some_task _ _ _ Hpc) as (T & HT & HpcT).
  destruct (wf_cond_wait_registered _ Hwf _ _ _ Hpc) as (c & Hc & Hin).
  rewrite (run_task_woken w T L m c); [|apply Hwf|done..].
  rewrite pc_of_finish_eq; [done|]. by rewrite pc_of_set_cond, pc_of_must_cancel, Hpc.
Qed.

Lemma wf_pop L h rest :
  wf L → ready L = h :: rest → wf (mkLoop (state L) (tasks L) rest (out L)).
Proof. intros Hwf _. eapply wf_calm; [done|by apply calm_same]. Qed.

Lemma run_next_cons L h rest :
  ready L = h :: rest →
  run_next L = run_handle h (mkLoop (state L) (tasks L) rest (out L)).
Proof. intros Hr. unfold run_next. by rewrite Hr. Qed.

Lemma moves_run_handle h L : wf L → await_message_moves L (run_handle h L).
Proof.
  intros Hwf. destruct h as [t|[parent call|parent] child|t]; simpl.
  - by apply moves_run_task.
  - apply await_message_moves_calm, calm_on_completion.
  - apply await_message_moves_calm, calm_gather_done.
  - apply await_message_moves_calm, calm_expire.
Qed.

Lemma woken_resolves w m acts :
  ∀ L pre post,
    wf L → pc_of w L = Some (CondWait m true) →
    ready L = pre ++ Run w :: post →
    length pre < nexts acts →
    pc_of w (exec acts L) = Some (Finished (Ret (VStr m))).
Proof.
  induction acts as [|a acts IH]; intros L pre post Hwf Hpc Hr Hlen; simpl in Hlen; [lia|].
  rewrite exec_cons. destruct a as [i|].
  - destruct (ready_deliver i L) as [new Hnew].
    apply (IH _ pre (post ++ new)); [by apply wf_deliver| | |done].
    + destruct (calm_deliver i L) as (_ & Hf & _). by apply Hf.
    + simpl. by rewrite Hnew, Hr, <- app_assoc.
  - simpl. destruct pre as [|h pre]; simpl in Hr.
    + rewrite (run_next_cons _ _ _ Hr). simpl.
      apply finished_exec; [apply wf_run_task; by eapply wf_pop|].
      apply woken_runs; [by eapply wf_pop|done].
    + rewrite (run_next_cons _ _ _ Hr).
      set (L0 := mkLoop _ _ _ _).
      assert (wf L0) as Hwf0 by (by eapply wf_pop).
      destruct (moves_run_handle h L0 Hwf0) as [_ Hpcs].
      destruct (Hpcs w _ Hpc) as [Hsame|Hfin].
      * destruct (ready_run_handle h L0) as [new Hnew].
        apply (IH _ pre (post ++ new)); [by apply wf_run_handle|done| |simpl in *; lia].
        rewrite Hnew. unfold L0. simpl. by rewrite <- app_assoc.
      * apply finished_exec; [by apply wf_run_handle|done].
Qed.

Lemma wait_resolving_act w m a L :
  wf L → wait_resolving w m L → wait_resolving w m (act a L).
Proof.
  intros Hwf HK. destruct (moves_act a L Hwf) as [_ Hpcs].
  destruct HK as [Hpc|[[Hpc Hin]|Hpc]].
  - destruct (Hpcs _ _ Hpc) as [[? _]|(? & _ & ?)]; [by left|right; by left].
  - destruct (Hpcs _ _ Hpc) as [Hsame|Hfin]; [|right; by right].
    right; left. split; [done|]. destruct a as [i|]; simpl in *.
    + destruct (ready_deliver i L) as [new ->]. rewrite elem_of_app. by left.
    + destruct (ready L) as [|h rest] eqn:Hr; [by apply elem_of_nil in Hin|].
      rewrite (run_next_cons _ _ _ Hr) in *.
      destruct (ready_run_handle h (mkLoop (state L) (tasks L) rest (out L)))
        as [new ->]. simpl. rewrite elem_of_app. left.
      apply elem_of_cons in Hin as [<-|Hin]; [|done].
      simpl in Hsame. rewrite (woken_runs w m) in Hsame; [done| |done].
      by eapply wf_pop.
  - right; right. apply (Hpcs _ _ Hpc).
Qed.

Lemma wait_resolving_exec w m acts L :
  wf L → wait_resolving w m L → wait_resolving w m (exec acts L).
Proof.
  revert L. induction acts as [|a acts IH]; intros L Hwf HK; [done|].
  rewrite exec_cons. apply IH; [by apply wf_act|by apply wait_resolving_act].
Qed.

(** C1 (no missed wakeup): let a task be registered on the condition of
    topic [m], and let the loop go on in any way until a dispatch of a
    message for [m] is the next handle to run.  That one step of the loop
    writes the payload, notifies the condition and finishes the dispatch:
    the dispatch is not suspended between the write and [notify_all].
    From then on the waiter's wait resolves: once the loop has run as
    many handles as were ready after the dispatch, whatever else arrives
    meanwhile, the waiter has returned the name of its topic. *)
Theorem no_missed_wakeup
    (w d : nat) (m message : string) (payload : json)
    (L0 : Loop) (before : list action) (rest : list handle) :
  wf L0 →
  pc_of w L0 = Some (CondWait m false) →
  pc_of d (exec before L0) = Some (Start (CDecoder message)) →
  dispatchable (json_loads message) = Some (m, payload) →
  ready (exec before L0) = Run d :: rest →
  pc_of d (run_next (exec before L0)) = Some (Finished (Ret VNone))
  ∧ payload_of m (run_next (exec before L0)) = Some payload
  ∧ notifications m (run_next (exec before L0)) = S (notifications m (exec before L0))
  ∧ ∀ acts, length (ready (run_next (exec before L0))) ≤ nexts acts →
      pc_of w (exec acts (run_next (exec before L0))) = Some (Finished (Ret (VStr m))).
Proof.
  intros Hwf0 Hreg Hd Hmsg Hready.
  set (L := exec before L0) in *.
  assert (wf L) as Hwf by (by apply wf_exec).
  assert (wait_resolving w m L) as HK by (apply wait_resolving_exec; [done|by left]).
  pose proof (wait_resolving_act w m Next L Hwf HK) as HK1.
  pose proof (moves_act Next L Hwf) as [_ Hpcs].
  pose proof (wf_act Next L Hwf) as Hwf1.
  simpl in HK1, Hpcs, Hwf1.
  destruct (dispatchable_decode _ _ _ d Hmsg) as [Hname _].
  destruct (wf_conditions_created _ Hwf _ Hname) as [c Hc].
  destruct (pc_of_Some_task _ _ _ Hd) as (T & HT & HpcT).
  assert (run_next L
          = finish d (Ret VNone)
              (set_state (<[m +:+ "_event" :=
                              Cond (mkCondition false [] (waiters c) (S (notified c)))]>
                            (<[m := Val payload]> (state L)))
                 (wake_all (waiters c)
                    (update_task d (with_must_cancel false)
                       (mkLoop (state L) (tasks L) rest (out L)))))) as Hrun.
  { rewrite (run_next_cons _ _ _ Hready). simpl.
    by rewrite (run_task_decoder d T _ message m payload c); [|apply (wf_pop _ _ _ Hwf Hready)|..]. }
  assert (notifications m (run_next L) = S (notifications m L)) as Hcount.
  { rewrite Hrun. unfold notifications. rewrite state_finish. simpl.
    by rewrite lookup_insert_eq, Hc. }
  split; [|split; [|split] ].
  - rewrite Hrun, pc_of_dispatched, decide_True; [done..|]. eexists. exact Hd.
  - rewrite Hrun. unfold payload_of. rewrite state_finish. simpl.
    rewrite lookup_insert_ne, lookup_insert_eq; [done|].
    intros Heq. by eapply event_key_not_topic.
  - done.
  - intros acts Hlen. destruct HK1 as [Hpc1|[[Hpc1 Hin1]|Hpc1]].
    + exfalso. destruct HK as [Hpc|[[Hpc _]|Hpc]].
      * destruct (Hpcs _ _ Hpc) as [[_ ?]|(? & _)]; [lia|congruence].
      * destruct (Hpcs _ _ Hpc); congruence.
      * pose proof (Hpcs _ _ Hpc). simpl in *. congruence.
    + apply list_elem_of_split in Hin1 as (pre & post & Hsplit).
      apply (woken_resolves w m acts _ pre post); [done..|].
      rewrite Hsplit, length_app in Hlen. simpl in Hlen. lia.
    + by apply finished_exec.
Qed.

(** ** What a segment does to the other tasks *)

Lemma kept_task_refl q u T : kept_task q u T T.
Proof.
  split; [done|]. split; [by left|]. exists (λ _, true). split; [|done].
  induction (t_callbacks T) as [|cb l IH]; [done|].
  rewrite filter_cons_True by done. by f_equal.
Qed.

Lemma filter_filter_bool {A} (f g : A → bool) (l : list A) :
  filter (λ x, g x = true) (filter (λ x, f x = true) l)
  = filter (λ x, (f x && g x) = true) l.
Proof.
  induction l as [|x l IH]; [done|].
  rewrite (filter_cons (λ x, f x = true)), (filter_cons (λ x, f x && g x = true)).
  destruct (f x) eqn:Hf, (g x) eqn:Hg; simpl;
    repeat case_decide; try done; rewrite ?filter_cons, ?Hg; simpl;
    repeat case_decide; try done; by rewrite IH.
Qed.

Lemma kept_task_trans q u T1 T2 T3 :
  kept_task q u T1 T2 → kept_task q u T2 T3 → kept_task q u T1 T3.
Proof.
  intros (Ht1 & Hp1 & k1 & Hc1 & Hk1) (Ht2 & Hp2 & k2 & Hc2 & Hk2). split; [|split].
  - intros Hu. destruct (Ht1 Hu), (Ht2 Hu). split; congruence.
  - destruct Hp1 as [Hp1|Hp1], Hp2 as [Hp2|Hp2]; rewrite Hp2, Hp1, ?woken_idemp; auto.
  - exists (λ cb, k1 cb && k2 cb). split.
    + by rewrite Hc2, Hc1, filter_filter_bool.
    + intros cb Hcb. by rewrite Hk1, Hk2.
Qed.

Lemma pending_at_kept q u T T' L L' :
  tasks L !! u = Some T → tasks L' !! u = Some T' → kept_task q u T T' →
  pending_at L' u = true → pending_at L u = true.
Proof.
  intros HT HT' (_ & Hp & _). unfold pending_at, pc_of. rewrite HT, HT'. simpl.
  destruct Hp as [->| ->]; [done|]. by rewrite pending_woken.
Qed.

Lemma born_kept q u T T' : u ≠ q → born q T → kept_task q u T T' → born q T'.
Proof.
  intros Hu ((m & Hm) & Htm & Hmc & Hcb) (Ht & Hp & k & Hc & Hk).
  destruct (Ht Hu) as [Ht1 Ht2]. split; [|split; [|split] ].
  - exists m. destruct Hp as [->| ->]; by rewrite Hm.
  - congruence.
  - congruence.
  - intros cb. rewrite Hc, list_elem_of_filter. intros [_ ?]. by apply Hcb.
Qed.

#[local] Instance kept_preorder q : PreOrder (kept q).
Proof.
  split.
  - intros L. split; [|split].
    + intros u T HT. exists T. split; [done|apply kept_task_refl].
    + intros u T' _ H1 H2. congruence.
    + exists []. split; [by rewrite app_nil_r|]. split; [by intros h ?%elem_of_nil|].
      intros u T T' HT HT' Hne. congruence.
  - intros L1 L2 L3 (Hk1 & Hb1 & n1 & Hr1 & Hn1 & Hw1) (Hk2 & Hb2 & n2 & Hr2 & Hn2 & Hw2).
    split; [|split].
    + intros u T HT. destruct (Hk1 _ _ HT) as (T2 & HT2 & Hkt1).
      destruct (Hk2 _ _ HT2) as (T3 & HT3 & Hkt2).
      exists T3. split; [done|]. by eapply kept_task_trans.
    + intros u T3 Hu HN HT3. destruct (tasks L2 !! u) as [T2|] eqn:HT2.
      * destruct (Hk2 _ _ HT2) as (T3' & HT3' & Hkt). simplify_eq.
        eapply born_kept; [done| |done]. by eapply Hb1.
      * by eapply Hb2.
    + exists (n1 ++ n2). split; [by rewrite Hr2, Hr1, app_assoc|]. split.
      * intros h [Hh|Hh]%elem_of_app; [by apply Hn1|].
        destruct (Hn2 _ Hh) as (u & -> & Hu). exists u. split; [done|].
        destruct (tasks L1 !! u) as [T1|] eqn:HT1; [|by left]. right.
        destruct (Hk1 _ _ HT1) as (T2 & HT2 & Hkt).
        destruct Hu as [Hu|Hu]; [congruence|]. by eapply pending_at_kept.
      * intros u T1 T3 HT1 HT3 Hne. destruct (Hk1 _ _ HT1) as (T2 & HT2 & _ & Hp & _).
        rewrite elem_of_app.
        assert (t_pc T2 = t_pc T1 ∨ t_pc T2 ≠ t_pc T1) as [Heq|Hne1].
        { destruct Hp as [->| ->]; [by left|].
          destruct (t_pc T1) as [?|? []|? []|? ? ? ?|? ? ? []|?]; simpl; auto. }
        -- right. eapply Hw2; [done..|]. congruence.
        -- left. by eapply Hw1.
Qed.

Lemma kept_same q L L' : tasks L' = tasks L → ready L' = ready L → kept q L L'.
Proof.
  intros Ht Hr. split; [|split].
  - intros u T HT. exists T. rewrite Ht. split; [done|apply kept_task_refl].
  - intros u T' _. rewrite Ht. congruence.
  - exists []. split; [by rewrite Hr, app_nil_r|]. split; [by intros h ?%elem_of_nil|].
    intros u T T'. rewrite Ht. congruence.
Qed.

Lemma kept_update_task q t f L :
  (∀ T, kept_task q t T (f T)) → (∀ T, t_pc (f T) = t_pc T) →
  kept q L (update_task t f L).
Proof.
  intros Hf Hpc. split; [|split].
  - intros u T HT. destruct (decide (u = t)) as [->|Hu].
    + exists (f T). split; [by apply tasks_update_task_eq|done].
    + exists T. rewrite tasks_update_task_ne by done. split; [done|apply kept_task_refl].
  - intros u T' _ HN. destruct (decide (u = t)) as [->|Hu].
    + unfold update_task. by rewrite HN, HN.
    + rewrite tasks_update_task_ne by done. congruence.
  - exists []. split; [by rewrite ready_update_task, app_nil_r|].
    split; [by intros h ?%elem_of_nil|].
    intros u T T' HT. destruct (decide (u = t)) as [->|Hu].
    + rewrite (tasks_update_task_eq _ _ _ _ HT). intros [= <-]. by rewrite Hpc.
    + rewrite tasks_update_task_ne by done. congruence.
Qed.

Lemma kept_task_with_must_cancel q b T : kept_task q q T (with_must_cancel b T).
Proof.
  split; [done|]. split; [by left|]. destruct (kept_task_refl q q T) as (_ & _ & H). done.
Qed.

Lemma kept_task_with_timer q d T : kept_task q q T (with_timer d T).
Proof.
  split; [done|]. split; [by left|]. destruct (kept_task_refl q q T) as (_ & _ & H). done.
Qed.

Lemma kept_task_woken q u T : kept_task q u T (with_pc (woken (t_pc T)) T).
Proof.
  split; [done|]. split; [by right|]. destruct (kept_task_refl q u T) as (_ & _ & H). done.
Qed.

Lemma kept_task_filter q u call T :
  kept_task q u T
    (with_callbacks (filter (λ cb, cb ≠ OnCompletion q call) (t_callbacks T)) T).
Proof.
  split; [done|]. split; [by left|].
  exists (λ cb, bool_decide (cb ≠ OnCompletion q call)). split.
  - simpl. apply filter_ext_elem. intros cb _. by rewrite bool_decide_eq_true.
  - intros cb Hcb. apply bool_decide_eq_true. apply Hcb.
Qed.

Lemma kept_set_result q t L : kept q L (set_result t L).
Proof.
  split; [|split].
  - intros u T HT. rewrite tasks_set_result. case_decide as Hu.
    + subst. rewrite HT. eexists. split; [done|apply kept_task_woken].
    + exists T. split; [done|apply kept_task_refl].
  - intros u T' _ HN. rewrite tasks_set_result. case_decide; subst; by rewrite HN.
  - rewrite ready_set_result. eexists. split; [done|]. split.
    + intros h. destruct (pending_at L t) eqn:Hp; [|by intros ?%elem_of_nil].
      intros ->%list_elem_of_singleton. exists t. auto.
    + intros u T T' HT. rewrite tasks_set_result. case_decide as Hu; [|congruence].
      subst. rewrite HT. intros [= <-]. simpl. intros Hne.
      assert (pending_at L t = true) as ->.
      { unfold pending_at. rewrite (task_pc_of _ _ _ HT).
        destruct (t_pc T) as [?|? []|? []|? ? ? ?|? ? ? []|?]; done. }
      by apply list_elem_of_singleton.
Qed.

Lemma kept_wake_all q ws L : kept q L (wake_all ws L).
Proof.
  unfold wake_all. revert L. induction ws as [|w ws IH]; intros L; simpl; [reflexivity|].
  etrans; [apply kept_set_result|apply IH].
Qed.

Lemma kept_create_task q m cb L :
  (cb = GatherDone q ∨ ∃ call, cb = OnCompletion q call) →
  kept q L (create_task (CAwaitMessage m) [cb] L).2.
Proof.
  intros Hcb. unfold create_task. simpl. split; [|split]; simpl.
  - intros u T HT. exists T. split; [|apply kept_task_refl].
    rewrite lookup_app_l; [done|]. by eapply lookup_lt_Some.
  - intros u T' _ HN HT'. apply lookup_ge_None in HN.
    rewrite lookup_app_r in HT' by done.
    destruct (u - length (tasks L)) as [|k]; simpl in HT'; [|by destruct k].
    injection HT' as <-. split; [by exists m|]. split; [done|]. split; [done|].
    simpl. by intros cb' ->%list_elem_of_singleton.
  - eexists. split; [done|]. split.
    + intros h ->%list_elem_of_singleton.
      eexists. split; [done|]. left. by apply lookup_ge_None.
    + intros u T T' HT. rewrite lookup_app_l by (by eapply lookup_lt_Some). congruence.
Qed.

Lemma kept_foldl {A} q (f : Loop → A → Loop) (l : list A) L :
  (∀ L x, kept q L (f L x)) → kept q L (foldl f L l).
Proof.
  intros Hf. revert L. induction l as [|x l IH]; intros L; simpl; [reflexivity|].
  etrans; [apply Hf|apply IH].
Qed.

Create HintDb kept.

#[local] Hint Resolve kept_set_result kept_wake_all : kept.

Ltac kept_tac :=
  repeat seg_step;
  repeat case_match;
  try done;
  try reflexivity;
  try (by apply kept_same);
  eauto with kept.

Lemma kept_cond_at q key : seg (kept q) unfinished (cond_at key).
Proof. unfold cond_at. kept_tac. Qed.

Lemma kept_lock_acquire q key t k : seg (kept q) unfinished (lock_acquire key t k).
Proof. unfold lock_acquire. seg_step; [apply kept_cond_at|]. kept_tac. Qed.

Lemma kept_lock_granted q key t : seg (kept q) unfinished (lock_granted key t).
Proof. unfold lock_granted. seg_step; [apply kept_cond_at|]. kept_tac. Qed.

Lemma kept_lock_release q key : seg (kept q) unfinished (lock_release key).
Proof. unfold lock_release. seg_step; [apply kept_cond_at|]. kept_tac. Qed.

Lemma kept_notify_all q key : seg (kept q) unfinished (notify_all key).
Proof. unfold notify_all. seg_step; [apply kept_cond_at|]. kept_tac. Qed.

Lemma kept_cond_wait q key m t : seg (kept q) unfinished (cond_wait key m t).
Proof.
  unfold cond_wait. seg_step; [apply kept_cond_at|]. seg_step; [|kept_tac].
  seg_step; [apply kept_lock_release|]. seg_step; [apply kept_cond_at|]. kept_tac.
Qed.

Lemma kept_cond_wait_woken q key m t : seg (kept q) unfinished (cond_wait_woken key m t).
Proof.
  unfold cond_wait_woken. seg_step; [apply kept_cond_at|]. seg_step; [kept_tac|].
  apply kept_lock_acquire.
Qed.

Lemma kept_decode_locked q key : seg (kept q) unfinished (decode_locked key).
Proof.
  unfold decode_locked. seg_step; [apply kept_notify_all|].
  seg_step; [apply kept_lock_release|]. kept_tac.
Qed.

Lemma kept_decode q name key data t : seg (kept q) unfinished (decode name key data t).
Proof.
  unfold decode. seg_step; [kept_tac|]. seg_step; [apply kept_lock_acquire|].
  apply kept_decode_locked.
Qed.

Lemma kept_protocol_x_decoder q message t :
  seg (kept q) unfinished (protocol_x_decoder message t).
Proof.
  unfold protocol_x_decoder. do 3 (seg_step; [kept_tac|]).
  apply seg_bind_py; [apply _|]. intros [d|] Hd; [|kept_tac].
  unfold decoders_get in Hd. repeat case_match; simplify_eq; apply kept_decode.
Qed.

Lemma kept_await_message q m t : seg (kept q) unfinished (await_message m t).
Proof.
  unfold await_message. seg_step; [apply kept_lock_acquire|].
  seg_step. apply kept_cond_wait.
Qed.

Lemma kept_await_message_leave q m : seg (kept q) unfinished (await_message_leave m).
Proof. unfold await_message_leave. seg_step; [apply kept_lock_release|]. kept_tac. Qed.

Lemma kept_await_message_woken q m t : seg (kept q) unfinished (await_message_woken m t).
Proof.
  unfold await_message_woken. seg_step; [apply kept_cond_wait_woken|].
  apply kept_await_message_leave.
Qed.

Lemma kept_spawn q ms cb :
  (cb = GatherDone q ∨ ∃ call, cb = OnCompletion q call) →
  seg (kept q) unfinished (spawn (CAwaitMessage <$> ms) cb).
Proof.
  intros Hcb. apply seg_spawn_in; [apply _|].
  intros c L (m & -> & _)%list_elem_of_fmap. by apply kept_create_task.
Qed.

Lemma kept_await_all_messages ms t : seg (kept t) unfinished (await_all_messages ms t).
Proof.
  unfold await_all_messages. destruct ms; [kept_tac|].
  seg_step; [apply kept_spawn; by left|]. kept_tac.
Qed.

Lemma kept_await_any_messages ms who call t :
  seg (kept t) unfinished (await_any_messages set_iter ms who call t).
Proof.
  unfold await_any_messages. destruct ms; [kept_tac|].
  seg_step; [apply kept_spawn; right; by eexists|]. kept_tac.
Qed.

Lemma kept_await_any_resumed t call children cancelled :
  seg (kept t) unfinished (await_any_resumed set_iter t call children cancelled).
Proof.
  unfold await_any_resumed, remove_done_callback.
  seg_step; [|kept_tac]. seg_step. apply kept_foldl. intros L' c.
  apply kept_update_task; [intros T; apply kept_task_filter|done].
Qed.

Lemma kept_timeout_exit t : seg (kept t) unfinished (timeout_exit t).
Proof.
  unfold timeout_exit. seg_step.
  apply kept_update_task; [intros T; apply kept_task_with_timer|done].
Qed.

Lemma kept_timeout_exit_exc t e : seg (kept t) unfinished (timeout_exit_exc t e).
Proof.
  unfold timeout_exit_exc. seg_step; [kept_tac|].
  repeat case_match; try (seg_step; [apply kept_timeout_exit|]); kept_tac.
Qed.

Lemma kept_print q l : seg (kept q) unfinished (print l).
Proof. unfold print. seg_step. by apply kept_same. Qed.

Lemma kept_monitor_except q e : seg (kept q) unfinished (monitor_except e).
Proof.
  unfold monitor_except. destruct e; try apply seg_raise; try apply _.
  seg_step; [apply kept_print|]. kept_tac.
Qed.

Lemma kept_start c t : seg (kept t) unfinished (start json_loads set_iter c t).
Proof.
  destruct c; simpl.
  - apply kept_protocol_x_decoder.
  - apply kept_await_message.
  - apply kept_await_all_messages.
  - seg_step. apply kept_await_any_messages.
  - unfold message_arrival_notifier. seg_step. apply kept_await_any_messages.
  - unfold message_monitor, timeout_enter.
    seg_step; [|apply kept_monitor_except]. seg_step.
    { seg_step. apply kept_update_task; [intros T; apply kept_task_with_timer|done]. }
    seg_step; [|apply kept_timeout_exit_exc]. seg_step. apply kept_await_any_messages.
Qed.

Lemma kept_lock_resumed k t : seg (kept t) unfinished (lock_resumed k t).
Proof.
  destruct k; simpl; (seg_step; [apply kept_lock_granted|]).
  - apply kept_decode_locked.
  - seg_step. apply kept_cond_wait.
  - apply kept_await_message_leave.
Qed.

Lemma kept_any_resumed who call children cancelled t :
  seg (kept t) unfinished (any_resumed set_iter who call children cancelled t).
Proof.
  destruct who; simpl.
  - seg_step; [apply kept_await_any_resumed|]. kept_tac.
  - seg_step; [apply kept_await_any_resumed|]. unfold notifier_arrived.
    seg_step; [kept_tac|]. seg_step; [apply kept_print|].
    seg_step. apply kept_await_any_messages.
  - seg_step; [|apply kept_monitor_except].
    seg_step; [|apply kept_timeout_exit_exc].
    seg_step; [apply kept_await_any_resumed|]. unfold monitor_arrived, state_item.
    seg_step; [kept_tac|]. seg_step; [apply kept_print|].
    do 2 (seg_step; [kept_tac|]). destruct a3.
    + seg_step; [apply kept_print|]. seg_step; [apply kept_timeout_exit|]. kept_tac.
    + do 2 (seg_step; [kept_tac|]). seg_step; [apply kept_print|].
      seg_step. apply kept_await_any_messages.
Qed.

Lemma kept_resume t T m :
  resume json_loads set_iter t T = Some m → seg (kept t) unfinished m.
Proof.
  unfold resume. intros Hm. repeat case_match; simplify_eq;
    auto using kept_start, kept_lock_resumed, kept_await_message_woken, kept_any_resumed.
  unfold await_all_resumed. kept_tac.
Qed.

(** ** What resolving [await_any_messages] leaves behind *)

Lemma est_bind {A B} (P Q : Loop → Prop) (m : coroutine A) (f : A → coroutine B) :
  est P Q m → (∀ a, est Q Q (f a)) → est P Q (bind m f).
Proof.
  intros Hm Hf L HP. unfold bind. specialize (Hm L HP).
  destruct (m L) as [L' [a|e|p]]; simpl in *; [|done..]. by apply Hf.
Qed.

Lemma est_catch {A} (P Q : Loop → Prop) (m : coroutine A) (h : exn → coroutine A) :
  est P Q m → (∀ e, est Q Q (h e)) → est P Q (catch m h).
Proof.
  intros Hm Hh L HP. unfold catch. specialize (Hm L HP).
  destruct (m L) as [L' [a|e|p]]; simpl in *; [done| |done]. by apply Hh.
Qed.

Lemma est_of_seg {A} (R : relation Loop) (S : pc → Prop) (Q : Loop → Prop)
    (m : coroutine A) :
  seg R S m → (∀ L L', R L L' → Q L → Q L') → est Q Q m.
Proof. intros Hm HQ L HL. destruct (Hm L) as [HR _]. by eapply HQ. Qed.

Lemma kept_length q L L' : kept q L L' → length (tasks L) ≤ length (tasks L').
Proof.
  intros (Hk & _). destruct (decide (length (tasks L) ≤ length (tasks L'))); [done|].
  destruct (length (tasks L)) as [|k] eqn:Hlen; [lia|].
  destruct (lookup_lt_is_Some_2 (tasks L) k) as [T HT]; [lia|].
  destruct (Hk _ _ HT) as (T' & HT' & _). apply lookup_lt_Some in HT'. lia.
Qed.

Lemma detached_kept p call children n L L' :
  kept p L L' → detached p call children n L → detached p call children n L'.
Proof.
  intros Hkept [Hn Hd]. pose proof (kept_length _ _ _ Hkept) as Hlen.
  destruct Hkept as (Hk & _). split; [lia|].
  intros c T' Hc Hlt HT'.
  destruct (lookup_lt_is_Some_2 (tasks L) c) as [T HT]; [lia|].
  destruct (Hk _ _ HT) as (T'' & HT'' & _ & _ & keep & Hcb & _). simplify_eq.
  rewrite Hcb, list_elem_of_filter. intros [_ Hin]. by eapply Hd.
Qed.

Lemma length_update_task t f L : length (tasks (update_task t f L)) = length (tasks L).
Proof. unfold update_task. destruct (tasks L !! t); [|done]. simpl. by rewrite length_insert. Qed.

Lemma remove_done_callback_detaches p call children L :
  detached p call children (length (tasks L))
    (remove_done_callback (OnCompletion p call) children L).1.
Proof.
  unfold remove_done_callback, effect. simpl.
  assert (∀ done L0,
    length (tasks L0) = length (tasks L) →
    (∀ c T, c ∈ done → tasks L0 !! c = Some T → OnCompletion p call ∉ t_callbacks T) →
    detached p call (done ++ children) (length (tasks L))
      (foldl (λ L' c, update_task c (λ T,
                with_callbacks (filter (λ cb', cb' ≠ OnCompletion p call) (t_callbacks T)) T) L')
         L0 children)) as Hgen.
  { intros done L0. revert done L0.
    induction children as [|c children IH]; intros done L0 Hlen Hdone; simpl.
    - rewrite app_nil_r. split; [lia|]. intros c T Hc _. by apply Hdone.
    - replace (done ++ c :: children) with ((done ++ [c]) ++ children)
        by (by rewrite <- app_assoc).
      apply IH; [by rewrite length_update_task|].
      intros c' T' Hc' HT'. destruct (decide (c' = c)) as [->|Hne].
      + unfold update_task in HT'. destruct (tasks L0 !! c) as [T0|] eqn:HT0.
        * simpl in HT'. rewrite list_lookup_insert_eq in HT' by (by eapply lookup_lt_Some).
          injection HT' as <-. simpl. rewrite list_elem_of_filter. by intros [? _].
        * congruence.
      + rewrite tasks_update_task_ne in HT' by done.
        apply elem_of_app in Hc' as [Hc'|Hc'%list_elem_of_singleton]; [|done].
        by eapply Hdone. }
  apply (Hgen [] L); [done|]. by intros c T ?%elem_of_nil.
Qed.

Lemma any_resumed_detaches who call children cancelled p n :
  est (λ L, n = length (tasks L)) (detached p call children n)
    (any_resumed set_iter who call children cancelled p).
Proof.
  assert (∀ A (m : coroutine A), seg (kept p) unfinished m →
            est (detached p call children n) (detached p call children n) m) as Hpres.
  { intros A m Hm. eapply est_of_seg; [exact Hm|]. intros L L'. apply detached_kept. }
  assert (est (λ L, n = length (tasks L)) (detached p call children n)
            (await_any_resumed set_iter p call children cancelled)) as Hfirst.
  { unfold await_any_resumed. apply est_bind.
    - intros L ->. apply remove_done_callback_detaches.
    - intros _. apply Hpres. kept_tac. }
  destruct who; simpl.
  - apply est_bind; [done|]. intros a. apply Hpres. kept_tac.
  - apply est_bind; [done|]. intros a. apply Hpres. unfold notifier_arrived.
    seg_step; [kept_tac|]. seg_step; [apply kept_print|].
    seg_step. apply kept_await_any_messages.
  - apply est_catch; [|intros e; apply Hpres, kept_monitor_except].
    apply est_catch; [|intros e; apply Hpres, kept_timeout_exit_exc].
    apply est_bind; [done|]. intros a. apply Hpres.
    unfold monitor_arrived, state_item.
    seg_step; [kept_tac|]. seg_step; [apply kept_print|].
    do 2 (seg_step; [kept_tac|]). destruct a3.
    + seg_step; [apply kept_print|]. seg_step; [apply kept_timeout_exit|]. kept_tac.
    + do 2 (seg_step; [kept_tac|]). seg_step; [apply kept_print|].
      seg_step. apply kept_await_any_messages.
Qed.

(** C2, as the code has it: the step in which a call of
    [await_any_messages] resolves does not touch the conditions.  The
    tasks of the topics that have not notified are not cancelled: each is
    still inside [cond.wait()] and still among the waiters of its
    condition, where it stays until that topic is next notified.  All the
    call does to them is to remove its completion callback, so that such a
    task, when it finishes later, calls back nobody. *)
Theorem any_wait_leaves_pending_registered
    (p : nat) (T : task) (who : caller) (call : nat) (children : list nat)
    (waiter : fut_state) (L : Loop) :
  wf L →
  tasks L !! p = Some T →
  t_pc T = Wait who call children waiter →
  waiter ≠ Pending →
  state (run_task p L) = state L
  ∧ (∀ c m b, pc_of c L = Some (CondWait m b) →
       pc_of c (run_task p L) = Some (CondWait m b)
       ∧ ∃ cond, state (run_task p L) !! (m +:+ "_event") = Some (Cond cond)
                 ∧ c ∈ waiters cond)
  ∧ (∀ c T', c ∈ children → c ≠ p → c < length (tasks L) →
       tasks (run_task p L) !! c = Some T' →
       OnCompletion p call ∉ t_callbacks T').
Proof.
  intros Hwf HT Hpc Hw.
  assert (calm_but p L (run_task p L)) as (Hs & Hf & Hb).
  { eapply run_task_calm; [done|]. rewrite Hpc. by intros []. }
  assert (pc_of p L = Some (Wait who call children waiter)) as Hpcp
    by (by rewrite (task_pc_of _ _ _ HT), Hpc).
  split; [done|]. split.
  - intros c m b Hc. split.
    + apply Hf; [|done..]. intros ->. congruence.
    + rewrite Hs. by apply (wf_cond_wait_registered _ Hwf c m b).
  - intros c T' Hc Hne Hlt HT'.
    unfold run_task in HT'. rewrite HT in HT'. unfold resume in HT'. rewrite Hpc in HT'.
    set (cancelled := match waiter with Done => t_must_cancel T | _ => true end).
    assert (resume json_loads set_iter p T
            = Some (any_resumed set_iter who call children cancelled p)) as Hres.
    { unfold resume. rewrite Hpc. by destruct waiter. }
    assert (detached p call children (length (tasks L))
              (any_resumed set_iter who call children cancelled p
                 (update_task p (with_must_cancel false) L)).1) as [_ Hdet].
    { apply any_resumed_detaches. by rewrite length_update_task. }
    destruct waiter; [done|..];
      destruct (any_resumed set_iter who call children _ p _) as [L' [v|e|q]];
      simpl in *; unfold finish, set_pc, update_task in HT';
      destruct (tasks L' !! p); simpl in HT';
      rewrite ?list_lookup_insert_ne in HT' by done; by eapply Hdet.
Qed.

(** ** What one step of a task does to the task table and the queue *)

Lemma tasks_finish_ne u t r L : u ≠ t → tasks (finish t r L) !! u = tasks L !! u.
Proof.
  intros Hne. unfold finish. destruct (tasks L !! t); [|done].
  simpl. by rewrite list_lookup_insert_ne.
Qed.

Lemma tasks_finish_eq t r L T :
  tasks L !! t = Some T →
  tasks (finish t r L) !! t = Some (with_callbacks [] (with_pc (Finished r) T)).
Proof.
  intros HT. unfold finish. rewrite HT. simpl.
  rewrite list_lookup_insert_eq; [done|]. by eapply lookup_lt_Some.
Qed.

Lemma ready_finish t r L T :
  tasks L !! t = Some T →
  ready (finish t r L) = ready L ++ ((λ cb, Call cb t) <$> t_callbacks T).
Proof. intros HT. unfold finish. by rewrite HT. Qed.

Lemma tasks_set_pc_ne u t p L : u ≠ t → tasks (set_pc t p L) !! u = tasks L !! u.
Proof. apply tasks_update_task_ne. Qed.

Lemma ready_set_pc t p L : ready (set_pc t p L) = ready L.
Proof. apply ready_update_task. Qed.

Lemma kept_must_cancel t L : kept t L (update_task t (with_must_cancel false) L).
Proof. apply kept_update_task; [intros T; apply kept_task_with_must_cancel|done]. Qed.

(** The segment of a step, with the state it ends in. *)
Lemma run_task_body t T L :
  tasks L !! t = Some T →
  run_task t L = L
  ∨ ∃ m L' r,
      resume json_loads set_iter t T = Some m
      ∧ m (update_task t (with_must_cancel false) L) = (L', r)
      ∧ kept t L L'
      ∧ run_task t L = match r with
                       | Ok v => finish t (Ret v) L'
                       | Raise e => finish t (Exc e) L'
                       | Suspend p => set_pc t p L'
                       end
      ∧ ∀ p, r = Suspend p → unfinished p.
Proof.
  intros HT. unfold run_task. rewrite HT.
  destruct (resume json_loads set_iter t T) as [m|] eqn:Hm; [|by left].
  right. destruct (kept_resume t T m Hm (update_task t (with_must_cancel false) L))
    as [Hk Hsus].
  destruct (m _) as [L' r] eqn:Hr. exists m, L', r. split; [done|]. split; [done|].
  split; [etrans; [apply kept_must_cancel|done]|].
  split; [by destruct r|]. intros p ->. by apply Hsus.
Qed.

Lemma run_task_others t L u T :
  u ≠ t → tasks L !! u = Some T →
  ∃ T', tasks (run_task t L) !! u = Some T' ∧ kept_task t u T T'.
Proof.
  intros Hne HT. destruct (tasks L !! t) as [Tt|] eqn:HTt.
  - destruct (run_task_body t Tt L HTt) as [->|(m & L' & r & _ & _ & Hk & -> & _)].
    + exists T. split; [done|apply kept_task_refl].
    + destruct Hk as (Hk & _). destruct (Hk _ _ HT) as (T' & HT' & Hkt).
      exists T'. split; [|done].
      destruct r; by rewrite ?tasks_finish_ne, ?tasks_set_pc_ne.
  - exists T. unfold run_task. rewrite HTt. split; [done|apply kept_task_refl].
Qed.

Lemma run_task_new t L u T' :
  tasks L !! u = None → tasks (run_task t L) !! u = Some T' → born t T'.
Proof.
  intros HN HT'. destruct (tasks L !! t) as [Tt|] eqn:HTt.
  - assert (u ≠ t) as Hne by congruence.
    destruct (run_task_body t Tt L HTt) as [Heq|(m & L' & r & _ & _ & Hk & Heq & _)];
      rewrite Heq in HT'; [congruence|].
    destruct Hk as (_ & Hb & _). apply (Hb u); [done..|].
    destruct r; by rewrite ?tasks_finish_ne, ?tasks_set_pc_ne in HT'.
  - unfold run_task in HT'. rewrite HTt in HT'. congruence.
Qed.

(** The handles a step adds to the queue: wake-ups of tasks that were
    pending or are new and, when the task finishes, its done callbacks. *)
Lemma run_task_ready t L :
  ∃ wakes calls,
    ready (run_task t L) = ready L ++ wakes ++ calls
    ∧ (∀ h, h ∈ wakes → ∃ u, h = Run u ∧ (tasks L !! u = None ∨ pending_at L u = true))
    ∧ (∀ h, h ∈ calls → ∃ cb T, h = Call cb t ∧ tasks L !! t = Some T
                                 ∧ cb ∈ t_callbacks T
                                 ∧ (∃ r, pc_of t (run_task t L) = Some (Finished r))
                                 ∧ ∀ r, pc_of t L ≠ Some (Finished r))
    ∧ (∀ T cb r, tasks L !! t = Some T → cb ∈ t_callbacks T →
         (∀ call, cb ≠ OnCompletion t call) →
         pc_of t L ≠ Some (Finished r) →
         pc_of t (run_task t L) = Some (Finished r) →
         Call cb t ∈ calls)
    ∧ (∀ u T T', u ≠ t → tasks L !! u = Some T → tasks (run_task t L) !! u = Some T' →
         t_pc T' ≠ t_pc T → Run u ∈ wakes).
Proof.
  destruct (tasks L !! t) as [T|] eqn:HT.
  - destruct (run_task_body t T L HT) as [Heq|(m & L' & r & Hm & _ & Hk & Heq & Hsus)].
    + exists [], []. rewrite Heq, !app_nil_r. split; [done|].
      split; [by intros h ?%elem_of_nil|]. split; [by intros h ?%elem_of_nil|].
      split; [intros T0 cb r0 _ _ _ Hn Hf; congruence|].
      intros u T0 T' _ HT0 HT'. congruence.
    + assert (∀ r0, pc_of t L ≠ Some (Finished r0)) as Hnotfin.
      { intros r0 Hp. rewrite (task_pc_of _ _ _ HT) in Hp. injection Hp as Hp.
        unfold resume in Hm. by rewrite Hp in Hm. }
      destruct Hk as (Hkt & _ & wakes & Hr & Hw & Hch).
      destruct (Hkt _ _ HT) as (T' & HT' & _ & _ & keep & Hcb & Hkeep).
      assert (∀ u T0 T0', u ≠ t → tasks L !! u = Some T0 →
                tasks (run_task t L) !! u = Some T0' → t_pc T0' ≠ t_pc T0 → Run u ∈ wakes)
        as Hothers.
      { intros u T0 T0' Hu HT0 HT0' Hne. eapply Hch; [done| |done].
        rewrite Heq in HT0'. destruct r; by rewrite ?tasks_finish_ne, ?tasks_set_pc_ne in HT0'. }
      assert (∃ calls, (match r with Suspend _ => calls = [] | _ =>
                          calls = (λ cb, Call cb t) <$> t_callbacks T' end)
                ∧ ready (run_task t L) = ready L ++ wakes ++ calls) as (calls & Hcalls & Hready).
      { destruct r; eexists; (split; [done|]);
          rewrite Heq, ?(ready_finish _ _ _ _ HT'), ?ready_set_pc, Hr, ?app_nil_r, <- ?app_assoc;
          done. }
      exists wakes, calls. split; [done|]. split; [done|].
      assert (match r with Suspend _ => False | _ => True end →
              ∃ r0, pc_of t (run_task t L) = Some (Finished r0)) as Hfin.
      { intros Hr0. rewrite Heq. destruct r; [| |done]; eexists; apply pc_of_finish_eq;
          rewrite (task_pc_of _ _ _ HT'); by eexists. }
      split; [|split; [|done] ].
      * intros h Hh. destruct r; subst calls; [| |by apply elem_of_nil in Hh];
          apply list_elem_of_fmap in Hh as (cb & -> & Hin); exists cb, T;
          (split; [done|]); (split; [done|]);
          (split; [rewrite Hcb in Hin; by apply list_elem_of_filter in Hin as [_ ?]|]);
          (split; [by apply Hfin|done]).
      * intros T0 cb r0 HT0 Hin Hcall _ Hf. simplify_eq.
        destruct r; subst calls;
          [apply (list_elem_of_fmap_2 (λ cb, Call cb t)); rewrite Hcb;
           apply list_elem_of_filter; split; [by apply Hkeep|done]..|].
        rewrite Heq, pc_of_set_pc_eq in Hf.
        -- injection Hf as ->. by destruct (Hsus (Finished r0)).
        -- rewrite (task_pc_of _ _ _ HT'). by eexists.
  - exists [], []. unfold run_task. rewrite HT, !app_nil_r. split; [done|].
    split; [by intros h ?%elem_of_nil|]. split; [by intros h ?%elem_of_nil|].
    split; [intros T0 cb r0 HT0; congruence|]. intros u T0 T' _ HT0 HT'. congruence.
Qed.

(** ** What a handle does to the tasks it is not for *)

Lemma filter_true {A} (l : list A) : l = filter (λ _, true = true) l.
Proof.
  induction l as [|x l IH]; [done|]. rewrite filter_cons_True by done. by f_equal.
Qed.

Lemma on_completion_wakes p call who ch L :
  pc_of p L = Some (Wait who call ch Pending) →
  on_completion p call L = call_soon (Run p) (set_pc p (Wait who call ch Done) L).
Proof.
  intros Hpc. unfold on_completion, set_result. rewrite Hpc.
  by rewrite decide_True.
Qed.

Lemma on_completion_idle p call L :
  (∀ who ch, pc_of p L ≠ Some (Wait who call ch Pending)) →
  on_completion p call L = L.
Proof.
  intros Hpc. unfold on_completion.
  destruct (pc_of p L) as [[?|?|?|? ? ? ?|who call' ch []|?]|] eqn:Hp; try done.
  case_decide; [|done]. subst. by destruct (Hpc who ch).
Qed.

Lemma tasks_on_completion_ne u p call L :
  u ≠ p → tasks (on_completion p call L) !! u = tasks L !! u.
Proof.
  intros Hne. unfold on_completion. repeat case_match; try done.
  rewrite tasks_set_result. by rewrite decide_False.
Qed.

Lemma tasks_gather_done_ne u p c L :
  u ≠ p → tasks (gather_done p c L) !! u = tasks L !! u.
Proof.
  intros Hne. unfold gather_done. repeat case_match; try done; simpl;
    by rewrite tasks_set_pc_ne.
Qed.

Lemma tasks_task_cancel_ne u t L :
  u ≠ t → tasks (task_cancel t L) !! u = tasks L !! u.
Proof.
  intros Hne. unfold task_cancel. repeat case_match; try done; simpl;
    by rewrite ?tasks_set_pc_ne, ?tasks_update_task_ne.
Qed.

Lemma tasks_expire_ne u t L : u ≠ t → tasks (expire t L) !! u = tasks L !! u.
Proof.
  intros Hne. unfold expire. repeat case_match; try done.
  by rewrite tasks_task_cancel_ne, tasks_update_task_ne.
Qed.

Lemma expire_untimed t T L :
  tasks L !! t = Some T → t_timer T ≠ Due → expire t L = L.
Proof.
  intros HT Hd. unfold expire, timer_of. rewrite HT. simpl.
  by destruct (t_timer T).
Qed.

Lemma run_handle_others h L u T :
  u ≠ target h → tasks L !! u = Some T →
  ∃ T' new,
    tasks (run_handle h L) !! u = Some T'
    ∧ kept_task (target h) u T T'
    ∧ ready (run_handle h L) = ready L ++ new
    ∧ (t_pc T' ≠ t_pc T → Run u ∈ new)
    ∧ (t_callbacks T' = t_callbacks T ∨ h = Run (target h)).
Proof.
  intros Hne HT. destruct (ready_run_handle h L) as [new Hnew].
  destruct h as [t|[parent call|parent] child|t]; simpl in *.
  - destruct (run_task_others t L u T Hne HT) as (T' & HT' & Hk).
    destruct (run_task_ready t L) as (wakes & calls & Hr & _ & _ & _ & Hch).
    exists T', (wakes ++ calls). split; [done|]. split; [done|]. split; [done|].
    split; [|by right]. intros Hpc. apply elem_of_app. left. by eapply Hch.
  - exists T, new. rewrite tasks_on_completion_ne by done.
    split; [done|]. split; [apply kept_task_refl|]. split; [done|].
    split; [congruence|by left].
  - exists T, new. rewrite tasks_gather_done_ne by done.
    split; [done|]. split; [apply kept_task_refl|]. split; [done|].
    split; [congruence|by left].
  - exists T, new. rewrite tasks_expire_ne by done.
    split; [done|]. split; [apply kept_task_refl|]. split; [done|].
    split; [congruence|by left].
Qed.

Lemma tasks_create_task u c cbs L T :
  tasks L !! u = Some T → tasks (create_task c cbs L).2 !! u = Some T.
Proof.
  intros HT. unfold create_task. simpl. rewrite lookup_app_l; [done|].
  by eapply lookup_lt_Some.
Qed.

Lemma deliver_task i L u T :
  tasks L !! u = Some T →
  ∃ T', tasks (deliver i L) !! u = Some T'
        ∧ t_pc T' = t_pc T ∧ t_callbacks T' = t_callbacks T
        ∧ t_must_cancel T' = t_must_cancel T
        ∧ (t_timer T' = t_timer T ∨ (t_timer T = Armed ∧ t_timer T' = Due)).
Proof.
  intros HT. destruct i as [message|t|c]; unfold deliver.
  - exists T. rewrite (tasks_create_task _ _ _ _ _ HT). tauto.
  - unfold timer_of. destruct (tasks L !! t) as [Tt|] eqn:HTt; simpl;
      [|exists T; tauto].
    destruct (t_timer Tt) eqn:Htm; try (exists T; tauto).
    destruct (decide (u = t)) as [->|Hne].
    + simpl. rewrite (tasks_update_task_eq _ _ _ _ HTt). simplify_eq.
      eexists. split; [done|]. simpl. tauto.
    + simpl. rewrite tasks_update_task_ne by done. exists T; tauto.
  - exists T. rewrite (tasks_create_task _ _ _ _ _ HT). tauto.
Qed.

Lemma ready_act a L : ∃ new, ready (act a L) = queue_after a L ++ new.
Proof.
  destruct a as [i|]; simpl.
  - apply ready_deliver.
  - unfold run_next. destruct (ready L) as [|h rest] eqn:Hr; [exists []; by rewrite Hr|].
    apply (ready_run_handle h (mkLoop (state L) (tasks L) rest (out L))).
Qed.

Lemma gather_done_idle p c L :
  (∀ ms ch n o, pc_of p L ≠ Some (Gather ms ch n o)) → gather_done p c L = L.
Proof.
  intros Hpc. unfold gather_done.
  destruct (pc_of p L) as [[?|?|?|ms ch n o|? ? ? ?|?]|] eqn:Hp; try done.
  by destruct (Hpc ms ch n o).
Qed.

Lemma run_task_idle t T L : tasks L !! t = Some T → resume json_loads set_iter t T = None → run_task t L = L.
Proof. intros HT Hr. unfold run_task. by rewrite HT, Hr. Qed.

(** A task without a deadline that is not inside [gather], under an
    action that is not a step of its own: it can be woken, and a step of
    another task can remove that task's callbacks from it. *)
Lemma act_passive a L u T :
  tasks L !! u = Some T → t_timer T = NoTimer →
  (∀ ms ch n o, t_pc T ≠ Gather ms ch n o) →
  (∀ rest, a = Next → ready L = Run u :: rest → resume json_loads set_iter u T = None) →
  ∃ T' q new,
    tasks (act a L) !! u = Some T' ∧ q ≠ u ∧ kept_task q u T T'
    ∧ ready (act a L) = queue_after a L ++ new
    ∧ (t_pc T' ≠ t_pc T → Run u ∈ new)
    ∧ (t_callbacks T' = t_callbacks T ∨ ∃ rest, a = Next ∧ ready L = Run q :: rest).
Proof.
  intros HT Htm Hgather Hh. destruct a as [i|].
  - destruct (deliver_task i L u T HT) as (T' & HT' & Hpc & Hcb & Hmc & Hd).
    destruct (ready_deliver i L) as [new Hnew].
    exists T', (S u), new. split; [done|]. split; [lia|].
    split; [|split; [done|split; [intros ?; congruence|by left] ] ].
    split; [|split; [by left|] ].
    + intros _. split; [|done]. destruct Hd as [?|[? ?]]; congruence.
    + exists (λ _, true). split; [|done]. rewrite Hcb. apply filter_true.
  - simpl. unfold run_next. destruct (ready L) as [|h rest] eqn:Hr.
    + exists T, (S u), []. rewrite Hr. simpl.
      split; [done|]. split; [lia|]. split; [apply kept_task_refl|].
      split; [done|]. split; [congruence|by left].
    + simpl. set (L0 := mkLoop _ _ _ _).
      assert (tasks L0 !! u = Some T) as HT0 by done.
      assert (run_handle h L0 = L0 →
              ∃ T' q new, tasks (run_handle h L0) !! u = Some T' ∧ q ≠ u ∧ kept_task q u T T'
                ∧ ready (run_handle h L0) = rest ++ new ∧ (t_pc T' ≠ t_pc T → Run u ∈ new)
                ∧ (t_callbacks T' = t_callbacks T
                   ∨ ∃ rest0, Next = Next ∧ h :: rest = Run q :: rest0))
        as Hidle.
      { intros ->. exists T, (S u), []. simpl. rewrite app_nil_r.
        split; [done|]. split; [lia|]. split; [apply kept_task_refl|].
        split; [done|]. split; [congruence|by left]. }
      destruct (decide (target h = u)) as [Heq|Hne].
      * destruct h as [t|[parent call|parent] child|t]; simpl in Heq; subst.
        -- apply Hidle. simpl. eapply run_task_idle; [done|]. by eapply Hh.
        -- simpl.
           destruct (t_pc T) as [?|?|?|? ? ? ?|who call' ch w|?] eqn:Hpc;
             try (apply Hidle; simpl; apply on_completion_idle; intros who0 ch0;
                  rewrite (task_pc_of _ _ _ HT0), Hpc; congruence).
           assert ((call' = call ∧ w = Pending) ∨ ¬ (call' = call ∧ w = Pending))
             as [[-> ->]|Hno].
           { destruct (decide (call' = call)); [|right; tauto].
             destruct w; [by left|right; by intros [_ ?]..]. }
           ++ rewrite (on_completion_wakes u call who ch)
                by (by rewrite (task_pc_of _ _ _ HT0), Hpc).
              exists (with_pc (Wait who call ch Done) T), (S u), [Run u].
              unfold set_pc, call_soon. cbn [tasks ready].
              rewrite (tasks_update_task_eq _ _ _ _ HT0).
              split; [done|]. split; [lia|]. split.
              { replace (Wait who call ch Done) with (woken (t_pc T)) by (by rewrite Hpc).
                apply kept_task_woken. }
              split; [by rewrite ready_update_task|]. split; [intros _; by left|by left].
           ++ apply Hidle. simpl. apply on_completion_idle. intros who0 ch0.
              rewrite (task_pc_of _ _ _ HT0), Hpc. intros [= -> -> -> ->]. by apply Hno.
        -- apply Hidle. simpl. apply gather_done_idle. intros ms ch n o.
           rewrite (task_pc_of _ _ _ HT0). intros [= Hpc]. by eapply Hgather.
        -- apply Hidle. simpl. eapply expire_untimed; [done|by rewrite Htm].
      * destruct (run_handle_others h L0 u T) as (T' & new & HT' & Hk & Hnew & Hch & Hcb);
          [done..|].
        exists T', (target h), new. rewrite Hnew.
        split; [done|]. split; [done|]. split; [done|]. split; [done|]. split; [done|].
        destruct Hcb as [?|Hrun]; [by left|]. right. exists rest. by rewrite <- Hrun.
Qed.

(** A task that comes with an action is new: it has not run, and it has
    no deadline. *)
Lemma act_new a L u T' :
  tasks L !! u = None → tasks (act a L) !! u = Some T' →
  (∃ c, t_pc T' = Start c) ∧ t_timer T' = NoTimer ∧ t_must_cancel T' = false.
Proof.
  intros HN HT'.
  assert (∀ c cbs, tasks (create_task c cbs L).2 !! u = Some T' →
            (∃ c, t_pc T' = Start c) ∧ t_timer T' = NoTimer ∧ t_must_cancel T' = false)
    as Hcreate.
  { intros c cbs. unfold create_task. simpl. apply lookup_ge_None in HN.
    rewrite lookup_app_r by done.
    destruct (u - length (tasks L)) as [|k]; simpl; [|by destruct k].
    intros [= <-]. simpl. eauto. }
  destruct a as [i|]; unfold act in HT'.
  - destruct i as [message|t|c]; unfold deliver in HT';
      [by eapply Hcreate| |by eapply Hcreate].
    unfold timer_of in HT'. destruct (tasks L !! t) as [Tt|] eqn:HTt; simpl in HT';
      [|congruence].
    destruct (t_timer Tt); try congruence. simpl in HT'.
    rewrite tasks_update_task_ne in HT' by congruence. congruence.
  - unfold run_next in HT'. destruct (ready L) as [|h rest]; [congruence|].
    set (L0 := mkLoop _ _ _ _) in *.
    destruct h as [t|[parent call|parent] child|t]; simpl in HT'.
    + destruct (run_task_new t L0 u T' HN HT') as ((m & Hm) & ? & ? & _). eauto.
    + destruct (decide (u = parent)) as [->|Hne].
      * unfold on_completion, pc_of in HT'. simpl in HT'. rewrite HN in HT'.
        simpl in HT'. congruence.
      * rewrite tasks_on_completion_ne in HT' by done. simpl in HT'. congruence.
    + destruct (decide (u = parent)) as [->|Hne].
      * unfold gather_done, pc_of in HT'. simpl in HT'. rewrite HN in HT'.
        simpl in HT'. congruence.
      * rewrite tasks_gather_done_ne in HT' by done. simpl in HT'. congruence.
    + destruct (decide (u = t)) as [->|Hne].
      * unfold expire, timer_of in HT'. simpl in HT'. rewrite HN in HT'.
        simpl in HT'. congruence.
      * rewrite tasks_expire_ne in HT' by done. simpl in HT'. congruence.
Qed.

(** ** Progress: a handle in the ready queue gets its turn *)

Lemma run_once_exec inputs L :
  run_once inputs L
  = exec (replicate (length (ready (exec (Input <$> inputs) L))) Next)
         (exec (Input <$> inputs) L).
Proof.
  unfold run_once.
  assert (∀ L, foldl (λ L' i, deliver i L') L inputs = exec (Input <$> inputs) L) as ->.
  { induction inputs as [|i inputs IH]; intros L0; [done|]. simpl. by rewrite IH. }
  generalize (exec (Input <$> inputs) L) as L1.
  intros L1. generalize (length (ready L1)) as n.
  induction n as [|n IH]; [done|].
  change (replicate (S n) Next) with (Next :: replicate n Next).
  rewrite replicate_cons_app, exec_app. simpl. by rewrite IH.
Qed.

Lemma nexts_replicate n : nexts (replicate n Next) = n.
Proof. induction n as [|n IH]; [done|]. simpl. by rewrite IH. Qed.

Lemma nexts_inputs inputs : nexts (Input <$> inputs) = 0.
Proof. by induction inputs. Qed.

Section Progress.

Variables (I P Q : Loop → Prop) (h : handle).

Hypothesis I_act : ∀ a L, I L → I (act a L).
Hypothesis P_ready : ∀ L, I L → P L → h ∈ ready L.
Hypothesis P_waits :
  ∀ a L, I L → P L → (∀ rest, a = Next → ready L ≠ h :: rest) →
    P (act a L) ∨ Q (act a L).
Hypothesis P_fires : ∀ L rest, I L → P L → ready L = h :: rest → Q (run_next L).
Hypothesis Q_stays : ∀ a L, I L → Q L → Q (act a L).

Lemma inv_exec acts L : I L → I (exec acts L).
Proof.
  revert L. induction acts as [|a acts IH]; intros L HI; [done|].
  rewrite exec_cons. by apply IH, I_act.
Qed.

Lemma stays_exec acts L : I L → Q L → Q (exec acts L).
Proof.
  revert L. induction acts as [|a acts IH]; intros L HI HQ; [done|].
  rewrite exec_cons. apply IH; [by apply I_act|by apply Q_stays].
Qed.

Lemma waits_exec acts L : I L → P L → nexts acts = 0 → P (exec acts L) ∨ Q (exec acts L).
Proof.
  revert L. induction acts as [|a acts IH]; intros L HI HP Hn; [by left|].
  rewrite exec_cons. destruct a as [i|]; [|done]. simpl in Hn.
  destruct (P_waits (Input i) L HI HP) as [HP'|HQ]; [done| |].
  - apply IH; [by apply I_act|done..].
  - right. apply stays_exec; [by apply I_act|done].
Qed.

Lemma fires_at acts :
  ∀ L pre post,
    I L → P L → ready L = pre ++ h :: post → length pre < nexts acts →
    Q (exec acts L).
Proof.
  induction acts as [|a acts IH]; intros L pre post HI HP Hr Hlen; simpl in Hlen; [lia|].
  rewrite exec_cons. destruct a as [i|].
  - destruct (P_waits (Input i) L HI HP) as [HP'|HQ]; [done| |].
    + destruct (ready_deliver i L) as [new Hnew].
      apply (IH _ pre (post ++ new)); [by apply I_act|done| |done].
      simpl. by rewrite Hnew, Hr, <- app_assoc.
    + apply stays_exec; [by apply I_act|done].
  - destruct (decide (ready L = h :: tail (ready L))) as [Hhead|Hhead].
    + apply stays_exec; [by apply (I_act Next)|]. by eapply P_fires.
    + destruct pre as [|h' pre]; [by rewrite Hr in Hhead|].
      destruct (P_waits Next L HI HP) as [HP'|HQ].
      * intros rest _ Hrest. rewrite Hrest in Hhead. done.
      * destruct (ready_act Next L) as [new Hnew].
        apply (IH _ pre (post ++ new)); [by apply (I_act Next)|done| |simpl in Hlen; lia].
        rewrite Hnew. simpl. rewrite Hr. simpl. by rewrite <- app_assoc.
      * apply stays_exec; [by apply (I_act Next)|done].
Qed.

Lemma fires acts L : I L → P L → length (ready L) ≤ nexts acts → Q (exec acts L).
Proof.
  intros HI HP Hlen. destruct (list_elem_of_split _ _ (P_ready L HI HP)) as (pre & post & Hr).
  apply (fires_at acts L pre post); [done..|].
  rewrite Hr, length_app in Hlen. simpl in Hlen. lia.
Qed.

(** One iteration of the loop gives the handle its turn. *)
Lemma fires_round inputs L : I L → P L → Q (run_once inputs L).
Proof.
  intros HI HP. rewrite run_once_exec.
  destruct (waits_exec (Input <$> inputs) L HI HP (nexts_inputs _)) as [HP'|HQ].
  - apply fires; [by apply inv_exec|done|]. by rewrite nexts_replicate.
  - apply stays_exec; [by apply inv_exec|done].
Qed.

Lemma stays_round inputs L : I L → Q L → Q (run_once inputs L).
Proof.
  intros HI HQ. rewrite run_once_exec. apply stays_exec; [by apply inv_exec|].
  by apply stays_exec.
Qed.

Lemma inv_round inputs L : I L → I (run_once inputs L).
Proof. intros HI. rewrite run_once_exec. by do 2 apply inv_exec. Qed.

End Progress.

(** ** The steps of [await_any_messages], written out *)

Lemma create_tasks_spec cs cb L :
  (create_tasks cs cb L).2 = seq (length (tasks L)) (length cs)
  ∧ tasks (create_tasks cs cb L).1
    = tasks L ++ ((λ c, mkTask (Start c) [cb] false NoTimer) <$> cs)
  ∧ ready (create_tasks cs cb L).1 = ready L ++ (Run <$> seq (length (tasks L)) (length cs))
  ∧ state (create_tasks cs cb L).1 = state L
  ∧ out (create_tasks cs cb L).1 = out L.
Proof.
  revert L. induction cs as [|c cs IH]; intros L.
  - simpl. by rewrite !app_nil_r.
  - rewrite create_tasks_cons.
    destruct (IH (create_task c [cb] L).2) as (Hids & Hts & Hr & Hs & Ho).
    cbn [fst snd]. rewrite Hids, Hts, Hr, Hs, Ho.
    unfold create_task, call_soon, set_tasks. cbn [fst snd tasks ready state out].
    rewrite length_app. cbn [length]. by rewrite Nat.add_1_r, <- !app_assoc.
Qed.

Lemma tasks_remove_done_callback cb ch L u :
  tasks (remove_done_callback cb ch L).1 !! u
  = (λ T, if decide (u ∈ ch)
          then with_callbacks (filter (λ cb', cb' ≠ cb) (t_callbacks T)) T
          else T) <$> tasks L !! u.
Proof.
  unfold remove_done_callback, effect. cbn [fst]. revert L.
  induction ch as [|c ch IH]; intros L; cbn [foldl].
  - destruct (tasks L !! u) as [T|]; cbn [fmap option_fmap option_map]; [|done].
    by rewrite decide_False by (by intros ?%elem_of_nil).
  - rewrite IH. destruct (decide (u = c)) as [->|Hne].
    + destruct (tasks L !! c) as [T|] eqn:HT.
      * rewrite (tasks_update_task_eq _ _ _ _ HT). simpl.
        rewrite (decide_True (P := c ∈ c :: ch)) by (by left).
        case_decide; [|done]. f_equal. unfold with_callbacks. simpl. f_equal.
        rewrite list_filter_filter. apply filter_ext_elem. intros x _. tauto.
      * unfold update_task. by rewrite HT, HT.
    + rewrite tasks_update_task_ne by done.
      destruct (tasks L !! u) as [T|]; simpl; [|done]. f_equal.
      destruct (decide (u ∈ ch)) as [Hin|Hin].
      * by rewrite decide_True by (by right).
      * rewrite decide_False; [done|]. by intros [?|?]%elem_of_cons.
Qed.

Lemma pc_of_remove_done_callback cb ch L u :
  pc_of u (remove_done_callback cb ch L).1 = pc_of u L.
Proof.
  unfold pc_of. rewrite tasks_remove_done_callback.
  destruct (tasks L !! u); simpl; [|done]. by case_decide.
Qed.


Lemma state_remove_done_callback cb ch L :
  state (remove_done_callback cb ch L).1 = state L.
Proof.
  unfold remove_done_callback, effect. simpl. revert L.
  induction ch as [|c ch IH]; intros L; simpl; [done|].
  by rewrite IH, state_update_task.
Qed.

Lemma out_remove_done_callback cb ch L :
  out (remove_done_callback cb ch L).1 = out L.
Proof.
  unfold remove_done_callback, effect. simpl. revert L.
  induction ch as [|c ch IH]; intros L; simpl; [done|].
  by rewrite IH, out_update_task.
Qed.

Lemma remove_done_callback_ok cb ch L : (remove_done_callback cb ch L).2 = Ok tt.
Proof. done. Qed.

(** The children that are done, with their results, as [asyncio.wait]
    hands them over. *)
Lemma done_children_same L L' ch :
  (∀ u, pc_of u L' = pc_of u L) →
  omap (λ c, result_of c L') (set_iter _ (filter (λ c, is_done L' c) ch))
  = omap (λ c, result_of c L) (set_iter _ (filter (λ c, is_done L c) ch)).
Proof.
  intros Hpc.
  assert (∀ c, result_of c L' = result_of c L) as Hres
    by (intros c; unfold result_of; by rewrite Hpc).
  assert (filter (λ c, is_done L' c) ch = filter (λ c, is_done L c) ch) as ->.
  { apply filter_ext_elem. intros c _. unfold is_done. by rewrite Hres. }
  apply list_omap_ext, Forall2_same_length_lookup_2; [done|].
  intros i c c' Hc Hc'. rewrite Hc in Hc'. injection Hc' as <-. apply Hres.
Qed.

Lemma await_any_messages_explicit ms who call t L :
  ms ≠ [] →
  await_any_messages set_iter ms who call t L
  = ((create_tasks (CAwaitMessage <$> set_iter _ ms) (OnCompletion t call) L).1,
     Suspend (Wait who call (seq (length (tasks L)) (length (set_iter _ ms))) Pending)).
Proof.
  intros Hms. unfold await_any_messages. destruct ms as [|m ms]; [done|].
  unfold bind, spawn, suspend.
  destruct (create_tasks_spec (CAwaitMessage <$> set_iter _ (m :: ms)) (OnCompletion t call) L)
    as (Hids & _).
  destruct (create_tasks _ _ L) as [L' ids]. simpl in *.
  by rewrite Hids, length_fmap.
Qed.

(** The first step of [await_any_messages]: a task is made for every
    name, in the order of the set, and the caller suspends. *)
Lemma run_task_await_any p T L ms :
  tasks L !! p = Some T → t_pc T = Start (CAwaitAny ms) → ms ≠ [] →
  run_task p L
  = set_pc p (Wait ByTask 0 (seq (length (tasks L)) (length (set_iter _ ms))) Pending)
      (create_tasks (CAwaitMessage <$> set_iter _ ms) (OnCompletion p 0)
         (update_task p (with_must_cancel false) L)).1.
Proof.
  intros HT Hpc Hms. unfold run_task, resume. rewrite HT, Hpc. simpl.
  unfold never, bind. rewrite await_any_messages_explicit by done.
  by rewrite length_update_task.
Qed.

Lemma await_any_started p T L ms :
  tasks L !! p = Some T → t_pc T = Start (CAwaitAny ms) → ms ≠ [] →
  let n := length (tasks L) in
  let names := set_iter _ ms in
  let L' := run_task p L in
  state L' = state L
  ∧ out L' = out L
  ∧ tasks L' !! p
    = Some (mkTask (Wait ByTask 0 (seq n (length names)) Pending)
                   (t_callbacks T) false (t_timer T))
  ∧ (∀ i m, names !! i = Some m →
       tasks L' !! (n + i)
       = Some (mkTask (Start (CAwaitMessage m)) [OnCompletion p 0] false NoTimer))
  ∧ ready L' = ready L ++ (Run <$> seq n (length names))
  ∧ (∀ u, u ≠ p → u < n → tasks L' !! u = tasks L !! u).
Proof.
  intros HT Hpc Hms n names L'. unfold L'.
  rewrite (run_task_await_any p T L ms HT Hpc Hms). fold n names.
  destruct (create_tasks_spec (CAwaitMessage <$> names) (OnCompletion p 0)
              (update_task p (with_must_cancel false) L)) as (_ & Hts & Hr & Hs & Ho).
  set (L1 := (create_tasks _ _ _).1) in *.
  assert (p < n) as Hp by (by eapply lookup_lt_Some).
  assert (tasks L1 !! p = Some (with_must_cancel false T)) as HT1.
  { rewrite Hts, lookup_app_l by (by rewrite length_update_task).
    by apply tasks_update_task_eq. }
  unfold set_pc. split; [by rewrite state_update_task, Hs, state_update_task|].
  split; [by rewrite out_update_task, Ho, out_update_task|].
  split; [by rewrite (tasks_update_task_eq _ _ _ _ HT1)|].
  split; [|split].
  - intros i m Hm. rewrite tasks_update_task_ne by lia.
    rewrite Hts, lookup_app_r by (rewrite length_update_task; fold n; lia).
    rewrite length_update_task. fold n. replace (n + i - n) with i by lia.
    by rewrite !list_lookup_fmap, Hm.
  - by rewrite ready_update_task, Hr, ready_update_task, length_update_task, length_fmap.
  - intros u Hu Hlt. rewrite tasks_update_task_ne by done.
    rewrite Hts, lookup_app_l by (by rewrite length_update_task).
    by rewrite tasks_update_task_ne.
Qed.

(** The step that resumes [await_any_messages]: the results of the
    children that are done are collected. *)
Lemma run_task_any_resumed p T L call ch :
  tasks L !! p = Some T → t_pc T = Wait ByTask call ch Done → t_must_cancel T = false →
  run_task p L
  = let L1 := (remove_done_callback (OnCompletion p call) ch
                 (update_task p (with_must_cancel false) L)).1 in
    match results (omap (λ c, result_of c L) (set_iter _ (filter (λ c, is_done L c) ch))) with
    | inl vs => finish p (Ret (VList vs)) L1
    | inr e => finish p (Exc e) L1
    end.
Proof.
  intros HT Hpc Hmc. unfold run_task, resume. rewrite HT, Hpc, Hmc. cbn [any_resumed].
  unfold bind at 1. unfold await_any_resumed. unfold bind at 1.
  pose proof (remove_done_callback_ok (OnCompletion p call) ch
                (update_task p (with_must_cancel false) L)) as Hok.
  assert (∀ u, pc_of u (remove_done_callback (OnCompletion p call) ch
                          (update_task p (with_must_cancel false) L)).1 = pc_of u L) as Hsame.
  { intros u. by rewrite pc_of_remove_done_callback, pc_of_must_cancel. }
  destruct (remove_done_callback _ _ _) as [L1 r]. simpl in Hok, Hsame. subst r.
  cbn [fst]. unfold read, py. rewrite (done_children_same L L1 ch Hsame).
  by destruct (results _).
Qed.

(** ** Conditions are never created by the loop *)

Lemma cond_run_task t L key c' :
  wf L → state (run_task t L) !! key = Some (Cond c') →
  ∃ c, state L !! key = Some (Cond c).
Proof.
  intros Hwf. destruct (tasks L !! t) as [T|] eqn:HT;
    [|unfold run_task; rewrite HT; eauto].
  assert (calm_composite : ∀ p, t_pc T = p →
            match p with Start c => composite c | p => collecting p end →
            state (run_task t L) = state L).
  { intros p Hp Hcomp. eapply run_task_calm; [done|]. rewrite Hp.
    destruct p; simpl in *; tauto. }
  assert (∀ e, state (finish t (Exc e) (update_task t (with_must_cancel false) L)) = state L)
    as Herr by (intros e; by rewrite state_finish, state_update_task).
  assert (∀ m c v r L1, state L !! (m +:+ "_event") = Some (Cond c) → state L1 = state L →
            state (finish t r (set_cond (m +:+ "_event") v L1)) !! key = Some (Cond c') →
            ∃ c, state L !! key = Some (Cond c)) as Hset.
  { intros m c v r L1 Hc HL1. rewrite state_finish. simpl. rewrite HL1.
    destruct (decide (key = m +:+ "_event")) as [->|Hne]; [eauto|].
    rewrite lookup_insert_ne by done. eauto. }
  destruct (t_pc T) as [c|k b|m b|ms ch n o|who call ch w|r] eqn:Hpc.
  - destruct c as [message|m|ms|ms| |];
      try (rewrite (calm_composite _ eq_refl I); eauto).
    + destruct (dispatchable (json_loads message)) as [[name payload]|] eqn:Hd.
      * destruct (dispatchable_decode _ _ _ t Hd) as [Hname _].
        destruct (wf_conditions_created _ Hwf _ Hname) as [c Hc].
        rewrite (run_task_decoder t T L message name payload c); [|apply Hwf|done..].
        rewrite state_finish. simpl.
        destruct (decide (key = name +:+ "_event")) as [->|Hne]; [eauto|].
        rewrite lookup_insert_ne by done.
        destruct (decide (key = name)) as [->|Hne']; [by rewrite lookup_insert_eq|].
        rewrite lookup_insert_ne by done. eauto.
      * destruct (run_task_decoder_rejected t T L message HT Hpc Hd) as [e ->].
        rewrite Herr. eauto.
    + destruct (state L !! (m +:+ "_event")) as [[v|c]|] eqn:Hc.
      * destruct (run_task_await_message_unknown t T L m HT Hpc) as (e & _ & ->);
          [congruence|]. rewrite Herr. eauto.
      * rewrite (run_task_await_message t T L m c); [|apply Hwf|done..].
        unfold set_pc. rewrite state_update_task. simpl. rewrite state_update_task.
        destruct (decide (key = m +:+ "_event")) as [->|Hne]; [eauto|].
        rewrite lookup_insert_ne by done. eauto.
      * destruct (run_task_await_message_unknown t T L m HT Hpc) as (e & _ & ->);
          [congruence|]. rewrite Herr. eauto.
  - destruct (wf_no_lock_wait _ Hwf t k b). by rewrite (task_pc_of _ _ _ HT), Hpc.
  - destruct b; [|unfold run_task, resume; rewrite HT, Hpc; eauto].
    destruct (wf_cond_wait_registered _ Hwf t m true) as (c & Hc & _);
      [by rewrite (task_pc_of _ _ _ HT), Hpc|].
    rewrite (run_task_woken t T L m c); [|apply Hwf|done..].
    eapply Hset; [done|]. by rewrite state_update_task.
  - rewrite (calm_composite _ eq_refl I); eauto.
  - rewrite (calm_composite _ eq_refl I); eauto.
  - unfold run_task, resume. rewrite HT, Hpc. eauto.
Qed.

Lemma cond_act a L key c' :
  wf L → state (act a L) !! key = Some (Cond c') → ∃ c, state L !! key = Some (Cond c).
Proof.
  intros Hwf. destruct a as [i|]; simpl.
  - destruct (calm_deliver i L) as [-> _]. eauto.
  - unfold run_next. destruct (ready L) as [|h rest] eqn:Hr; [eauto|].
    set (L0 := mkLoop _ _ _ _).
    assert (wf L0) as Hwf0 by (by eapply wf_pop).
    destruct h as [t|[parent call|parent] child|t]; simpl.
    + apply (cond_run_task t L0 key c' Hwf0).
    + destruct (calm_on_completion parent call L0) as [-> _]. eauto.
    + destruct (calm_gather_done parent child L0) as [-> _]. eauto.
    + destruct (calm_expire t L0) as [-> _]. eauto.
Qed.

Lemma unknown_topic_act x a L : unknown_topic x L → unknown_topic x (act a L).
Proof.
  intros [Hwf Hx]. split; [by apply wf_act|].
  intros c Hc. destruct (cond_act a L _ c Hwf Hc) as [c0 Hc0]. by eapply Hx.
Qed.

(** The wake-ups an action schedules are of new tasks and of tasks whose
    future was pending. *)
Lemma act_wakes a L :
  ∃ new, ready (act a L) = queue_after a L ++ new
         ∧ ∀ u, Run u ∈ new →
             tasks L !! u = None ∨ pending_at L u = true
             ∨ ∃ ms ch n, pc_of u L = Some (Gather ms ch n None).
Proof.
  destruct a as [i|]; simpl.
  - assert (∀ c cbs, ∃ new, ready (create_task c cbs L).2 = ready L ++ new
              ∧ ∀ u, Run u ∈ new →
                  tasks L !! u = None ∨ pending_at L u = true
                  ∨ ∃ ms ch n, pc_of u L = Some (Gather ms ch n None)) as Hcreate.
    { intros c cbs. eexists. split; [done|]. intros u [= ->]%list_elem_of_singleton.
      left. by apply lookup_ge_None. }
    destruct i as [message|t|c]; unfold deliver; [apply Hcreate| |apply Hcreate].
    destruct (timer_of t L) as [[]|]; try (exists []; split; [by rewrite app_nil_r|];
      by intros u ?%elem_of_nil).
    eexists. split; [simpl; by rewrite ready_update_task|].
    by intros u ?%list_elem_of_singleton.
  - unfold run_next. destruct (ready L) as [|h rest] eqn:Hr.
    { exists []. rewrite Hr. split; [done|]. by intros u ?%elem_of_nil. }
    set (L0 := mkLoop _ _ _ _).
    destruct h as [t|[parent call|parent] child|t]; simpl.
    + destruct (run_task_ready t L0) as (wakes & calls & Hready & Hw & Hc & _).
      exists (wakes ++ calls). split; [done|].
      intros u [Hu|Hu]%elem_of_app.
      * destruct (Hw _ Hu) as (u' & [= <-] & [?|?]); auto.
      * destruct (Hc _ Hu) as (cb & T & ? & _); done.
    + unfold on_completion.
      destruct (pc_of parent L0) as [[?|?|?|? ? ? ?|who call' ch []|?]|] eqn:Hp;
        try (exists []; split; [by rewrite app_nil_r|]; by intros u ?%elem_of_nil).
      case_decide; [|exists []; split; [by rewrite app_nil_r|]; by intros u ?%elem_of_nil].
      rewrite ready_set_result. eexists. split; [done|].
      intros u Hu. right; left.
      destruct (pending_at L0 parent) eqn:Hpend; [|by apply elem_of_nil in Hu].
      by apply list_elem_of_singleton in Hu as [= ->].
    + unfold gather_done.
      destruct (pc_of parent L0) as [[?|?|?|ms ch n [o|]|? ? ? ?|?]|] eqn:Hp;
        try (exists []; split; [by rewrite app_nil_r|]; by intros u ?%elem_of_nil).
      * exists []. unfold set_pc. rewrite ready_update_task.
        split; [by rewrite app_nil_r|]. by intros u ?%elem_of_nil.
      * assert (∀ L1, ready L1 = rest →
                  ∃ new, ready (call_soon (Run parent) L1) = rest ++ new
                  ∧ ∀ u, Run u ∈ new →
                      tasks L !! u = None ∨ pending_at L u = true
                      ∨ ∃ ms ch n, pc_of u L = Some (Gather ms ch n None)) as Hwake.
        { intros L1 HL1. eexists. split; [simpl; by rewrite HL1|].
          intros u [= ->]%list_elem_of_singleton. right; right. eauto. }
        destruct (result_of child L0) as [[v|e]|];
          [case_decide| |];
          try (apply Hwake; unfold set_pc; by rewrite ready_update_task);
          exists []; unfold set_pc; rewrite ?ready_update_task;
          (split; [by rewrite app_nil_r|]; by intros u ?%elem_of_nil).
    + unfold expire. destruct (timer_of t L0) as [[]|];
        try (exists []; split; [by rewrite app_nil_r|]; by intros u ?%elem_of_nil).
      unfold task_cancel. rewrite pc_of_update_task_same by done.
      destruct (pc_of t L0) as [[?|?|?|? ? ? ?|who call' ch []|?]|] eqn:Hp;
        try (exists []; rewrite ?ready_update_task;
             split; [by rewrite app_nil_r|]; by intros u ?%elem_of_nil).
      eexists. split; [simpl; unfold set_pc; by rewrite !ready_update_task|].
      intros u [= ->]%list_elem_of_singleton. right; left.
      unfold pending_at. change (pc_of t L) with (pc_of t L0). by rewrite Hp.
Qed.

Lemma awaiting_moves L L' c y p :
  await_message_moves L L' → pc_of c L = Some p → awaiting y p →
  ∃ p', pc_of c L' = Some p' ∧ awaiting y p'.
Proof.
  intros [_ Hpcs] Hp Hy. specialize (Hpcs _ _ Hp).
  destruct p as [[]|?|m []|? ? ? ?|? ? ? ?|r]; simpl in Hy; try done; subst.
  - destruct Hpcs as [?|[?|(e & ? & ?)]]; eexists; (split; [eassumption|done]).
  - destruct Hpcs as [?|?]; eexists; (split; [eassumption|done]).
  - destruct Hpcs as [[? _]|[? _]]; eexists; (split; [eassumption|done]).
  - eexists; (split; [eassumption|done]).
Qed.

Lemma any_children_act ms ch a L :
  wf L → any_children ms ch L → any_children ms ch (act a L).
Proof.
  intros Hwf Hch c Hc. destruct (Hch c Hc) as (y & p & Hy & Hp & Hay).
  destruct (awaiting_moves L (act a L) c y p (moves_act a L Hwf) Hp Hay) as (p' & ? & ?).
  eauto.
Qed.

(** ** Further properties of the program *)

Lemma string_app_length s1 s2 :
  String.length (s1 +:+ s2) = String.length s1 + String.length s2.
Proof. induction s1 as [|a s1 IH]; simpl; [done|]. by rewrite IH. Qed.

Lemma event_key_inj m m' : m +:+ "_event" = m' +:+ "_event" → m = m'.
Proof.
  revert m'. induction m as [|a m IH]; intros [|a' m']; simpl; intros H.
  - done.
  - apply (f_equal String.length) in H. simpl in H. rewrite string_app_length in H.
    simpl in H. lia.
  - apply (f_equal String.length) in H. simpl in H. rewrite string_app_length in H.
    simpl in H. lia.
  - injection H as -> H. f_equal. by apply IH.
Qed.

Lemma wf_main : wf main.
Proof. unfold main. do 2 apply wf_deliver. apply wf_fresh_loop. Qed.

(** X1 (no lock is ever waited for): in every state that the loop reaches
    from [main], whatever datagrams, deadlines and tasks come in, no
    condition's lock is held, no task is queued for a lock, and no task is
    suspended in [Lock.acquire]: [async with cond] in [decode_a],
    [decode_b], [decode_c] and [await_message] never suspends. *)
Theorem locks_are_free_between_steps (acts : list action) :
  lock_free (exec acts main) ∧ no_lock_wait (exec acts main).
Proof.
  destruct (wf_exec acts main wf_main) as [Hlf _ _ Hnl _ _]. by split.
Qed.

(** X2 (the waiters are the waiting tasks): in every state that the loop
    reaches from [main], the waiters of a condition are tasks suspended in
    [cond.wait()] of [await_message] for the topic of that condition, none
    of them twice, and every task suspended in [cond.wait()] is among the
    waiters of its topic's condition; the three conditions stay in
    [state]. *)
Theorem waiters_are_the_waiting_tasks (acts : list action) :
  waiters_registered (exec acts main)
  ∧ waiters_nodup (exec acts main)
  ∧ cond_wait_registered (exec acts main)
  ∧ conditions_created (exec acts main).
Proof.
  destruct (wf_exec acts main wf_main) as [_ Hwr Hnd _ Hcw Hcc]. by repeat split.
Qed.

(** X3 (registration): the first step of [await_message m], when [state]
    has a condition for [m], puts the task at the end of the condition's
    waiters and suspends it; the lock is free again, the count of
    notifications is as before, and nothing else of [state], no other
    task, the ready queue and the output are touched. *)
Theorem await_message_registers_last (t : nat) (T : task) (L : Loop) (m : string)
    (c : Condition) :
  wf L →
  tasks L !! t = Some T → t_pc T = Start (CAwaitMessage m) →
  state L !! (m +:+ "_event") = Some (Cond c) →
  pc_of t (run_task t L) = Some (CondWait m false)
  ∧ state (run_task t L)
    = <[m +:+ "_event" := Cond (mkCondition false [] (waiters c ++ [t]) (notified c))]>
        (state L)
  ∧ (∀ u, u ≠ t → tasks (run_task t L) !! u = tasks L !! u)
  ∧ ready (run_task t L) = ready L
  ∧ out (run_task t L) = out L.
Proof.
  intros Hwf HT Hpc Hc.
  rewrite (run_task_await_message t T L m c); [|apply Hwf|done..].
  unfold set_pc. split; [|split; [|split; [|split] ] ].
  - rewrite pc_of_update_task_eq. unfold set_cond, set_state. simpl.
    by rewrite (tasks_update_task_eq _ _ _ _ HT).
  - rewrite state_update_task. simpl. by rewrite state_update_task.
  - intros u Hu. rewrite tasks_update_task_ne by done. simpl.
    by rewrite tasks_update_task_ne.
  - rewrite ready_update_task. simpl. by rewrite ready_update_task.
  - rewrite out_update_task. simpl. by rewrite out_update_task.
Qed.

(** X4 (a name without a condition): when [state] has no key [m_event],
    the first step of [await_message m] ends the task with
    [KeyError(m_event)]; the task never suspends, [state], the other tasks
    and the output stay as they are, and the task's done callbacks are
    scheduled. *)
Theorem await_message_unknown_name_raises (t : nat) (T : task) (L : Loop) (m : string) :
  tasks L !! t = Some T → t_pc T = Start (CAwaitMessage m) →
  state L !! (m +:+ "_event") = None →
  pc_of t (run_task t L) = Some (Finished (Exc (KeyError (m +:+ "_event"))))
  ∧ state (run_task t L) = state L
  ∧ (∀ u, u ≠ t → tasks (run_task t L) !! u = tasks L !! u)
  ∧ ready (run_task t L) = ready L ++ ((λ cb, Call cb t) <$> t_callbacks T)
  ∧ out (run_task t L) = out L.
Proof.
  intros HT Hpc Hc.
  assert (run_task t L
          = finish t (Exc (KeyError (m +:+ "_event")))
              (update_task t (with_must_cancel false) L)) as ->.
  { unfold run_task, resume. rewrite HT, Hpc. simpl.
    unfold await_message, never, cond_wait, lock_acquire, lock_release,
      cond_at, read, py, bind, effect, ret, raise, suspend, set_cond. simpl.
    by rewrite state_update_task, Hc. }
  assert (tasks (update_task t (with_must_cancel false) L) !! t
          = Some (with_must_cancel false T)) as HT1 by (by apply tasks_update_task_eq).
  split; [|split; [|split; [|split] ] ].
  - apply pc_of_finish_eq. rewrite (task_pc_of _ _ _ HT1). by eexists.
  - by rewrite state_finish, state_update_task.
  - intros u Hu. by rewrite tasks_finish_ne, tasks_update_task_ne.
  - by rewrite (ready_finish _ _ _ _ HT1), ready_update_task.
  - unfold finish. rewrite HT1. simpl. by rewrite out_update_task.
Qed.

(** X5 (the return of [await_message]): the step of a task that was woken
    inside [cond.wait()] ends it with the name of its topic, not with the
    payload; the task leaves the waiters of its condition, the other
    waiters stay in order, the lock is free, and no payload and no count
    of notifications is changed. *)
Theorem await_message_returns_its_name (t : nat) (T : task) (L : Loop) (m : string) :
  wf L →
  tasks L !! t = Some T → t_pc T = CondWait m true →
  pc_of t (run_task t L) = Some (Finished (Ret (VStr m)))
  ∧ ∃ c, state L !! (m +:+ "_event") = Some (Cond c)
         ∧ state (run_task t L)
           = <[m +:+ "_event" :=
                 Cond (mkCondition false [] (remove_first t (waiters c)) (notified c))]>
               (state L)
         ∧ (t ∉ remove_first t (waiters c))
         ∧ (∀ u, u ≠ t → u ∈ waiters c → u ∈ remove_first t (waiters c)).
Proof.
  intros Hwf HT Hpc.
  assert (pc_of t L = Some (CondWait m true)) as Hpct
    by (by rewrite (task_pc_of _ _ _ HT), Hpc).
  split; [by apply woken_runs|].
  destruct (wf_cond_wait_registered _ Hwf _ _ _ Hpct) as (c & Hc & Hin).
  exists c. split; [done|].
  rewrite (run_task_woken t T L m c); [|apply Hwf|done..].
  split; [|split].
  - rewrite state_finish. simpl. by rewrite state_update_task.
  - apply not_elem_of_remove_first. by eapply (wf_waiters_nodup _ Hwf).
  - intros u Hu Hw. by apply elem_of_remove_first_ne.
Qed.

(** X6 (a dispatch wakes its topic's waiters, and only them): the step of
    a dispatch for topic [name] wakes every task registered on the
    condition of [name], schedules the wake-ups of those that had not
    been woken yet in the order of registration, after what was ready and
    before the dispatch's own done callbacks, and leaves every other task
    as it was. *)
Theorem dispatch_wakes_its_waiters (t : nat) (T : task) (L : Loop)
    (message name : string) (payload : json) (c : Condition) :
  wf L →
  tasks L !! t = Some T → t_pc T = Start (CDecoder message) →
  dispatchable (json_loads message) = Some (name, payload) →
  state L !! (name +:+ "_event") = Some (Cond c) →
  (∀ w, w ∈ waiters c → pc_of w (run_task t L) = Some (CondWait name true))
  ∧ (∀ u, u ∉ waiters c → u ≠ t → tasks (run_task t L) !! u = tasks L !! u)
  ∧ ready (run_task t L)
    = ready L
      ++ (Run <$> filter (λ w, pending_at L w = true) (waiters c))
      ++ ((λ cb, Call cb t) <$> t_callbacks T).
Proof.
  intros Hwf HT Hpc Hd Hc.
  assert (pc_of t L = Some (Start (CDecoder message))) as Hpct
    by (by rewrite (task_pc_of _ _ _ HT), Hpc).
  assert (t ∉ waiters c) as Ht.
  { intros Hin. destruct (wf_waiters_registered _ Hwf _ _ _ Hc Hin) as (m & b & _ & Hp).
    congruence. }
  assert (∀ w, w ∈ waiters c → ∃ b, pc_of w L = Some (CondWait name b)) as Hws.
  { intros w Hin. destruct (wf_waiters_registered _ Hwf _ _ _ Hc Hin) as (m & b & Hk & Hp).
    exists b. rewrite Hp. do 2 f_equal. symmetry. by apply event_key_inj. }
  rewrite (run_task_decoder t T L message name payload c); [|apply Hwf|done..].
  set (L1 := update_task t (with_must_cancel false) L).
  set (L2 := set_state _ _).
  assert (tasks L2 !! t = Some (with_must_cancel false T)) as HT2.
  { unfold L2. simpl. rewrite tasks_wake_all, decide_False by done.
    by apply tasks_update_task_eq. }
  split; [|split].
  - intros w Hin. destruct (Hws w Hin) as [b Hb].
    assert (w ≠ t) as Hne by (by intros ->).
    rewrite pc_of_finish_ne by done. unfold L2, pc_of. simpl.
    fold (pc_of w (wake_all (waiters c) L1)).
    rewrite pc_of_wake_all, decide_True by done.
    unfold L1. rewrite pc_of_must_cancel, Hb. by destruct b.
  - intros u Hu Hne. rewrite tasks_finish_ne by done. unfold L2. simpl.
    rewrite tasks_wake_all, decide_False by done.
    unfold L1. by rewrite tasks_update_task_ne.
  - rewrite (ready_finish _ _ _ _ HT2). unfold L2. simpl.
    rewrite ready_wake_all by (by eapply (wf_waiters_nodup _ Hwf)).
    unfold L1. rewrite ready_update_task, <- app_assoc. do 3 f_equal.
    apply filter_ext_elem. intros w Hin.
    unfold pending_at. by rewrite pc_of_must_cancel.
Qed.

(** X7 (no names for [await_any_messages]): called without a name,
    [await_any_messages] ends its task in the first step with the
    [ValueError] of [asyncio.wait] for an empty set; no task is made and
    [state] and the output stay as they are. *)
Theorem await_any_of_nothing_raises (t : nat) (T : task) (L : Loop) :
  tasks L !! t = Some T → t_pc T = Start (CAwaitAny []) →
  pc_of t (run_task t L) = Some (Finished (Exc ValueError_empty_set))
  ∧ length (tasks (run_task t L)) = length (tasks L)
  ∧ state (run_task t L) = state L
  ∧ out (run_task t L) = out L
  ∧ ready (run_task t L) = ready L ++ ((λ cb, Call cb t) <$> t_callbacks T).
Proof.
  intros HT Hpc.
  assert (run_task t L
          = finish t (Exc ValueError_empty_set) (update_task t (with_must_cancel false) L))
    as -> by (unfold run_task, resume; by rewrite HT, Hpc).
  assert (tasks (update_task t (with_must_cancel false) L) !! t
          = Some (with_must_cancel false T)) as HT1 by (by apply tasks_update_task_eq).
  split; [apply pc_of_finish_eq; rewrite (task_pc_of _ _ _ HT1); by eexists|].
  split; [unfold finish; rewrite HT1; simpl; by rewrite length_insert, length_update_task|].
  split; [by rewrite state_finish, state_update_task|].
  split; [unfold finish; rewrite HT1; simpl; by rewrite out_update_task|].
  by rewrite (ready_finish _ _ _ _ HT1), ready_update_task.
Qed.

(** X8 (no names for [await_all_messages]): called without a name,
    [await_all_messages] returns the empty tuple in its first step: the
    [gather] of nothing is done at once, so the task does not suspend and
    makes no task. *)
Theorem await_all_of_nothing_returns (t : nat) (T : task) (L : Loop) :
  tasks L !! t = Some T → t_pc T = Start (CAwaitAll []) →
  pc_of t (run_task t L) = Some (Finished (Ret (VTuple [])))
  ∧ length (tasks (run_task t L)) = length (tasks L)
  ∧ state (run_task t L) = state L
  ∧ out (run_task t L) = out L
  ∧ ready (run_task t L) = ready L ++ ((λ cb, Call cb t) <$> t_callbacks T).
Proof.
  intros HT Hpc.
  assert (run_task t L
          = finish t (Ret (VTuple [])) (update_task t (with_must_cancel false) L))
    as -> by (unfold run_task, resume; by rewrite HT, Hpc).
  assert (tasks (update_task t (with_must_cancel false) L) !! t
          = Some (with_must_cancel false T)) as HT1 by (by apply tasks_update_task_eq).
  split; [apply pc_of_finish_eq; rewrite (task_pc_of _ _ _ HT1); by eexists|].
  split; [unfold finish; rewrite HT1; simpl; by rewrite length_insert, length_update_task|].
  split; [by rewrite state_finish, state_update_task|].
  split; [unfold finish; rewrite HT1; simpl; by rewrite out_update_task|].
  by rewrite (ready_finish _ _ _ _ HT1), ready_update_task.
Qed.

(** X9 (the start of [await_any_messages]): with at least one name, the
    first step makes one task of [await_message] per name, in the order in
    which the set of them is iterated, each with the completion callback
    of this call as its only done callback, and schedules their first
    steps after what was ready; the caller suspends on the waiter of
    [asyncio.wait].  [state], the output and the other tasks stay as they
    are. *)
Theorem await_any_spawns_a_task_per_name (p : nat) (T : task) (L : Loop)
    (ms : list string) :
  tasks L !! p = Some T → t_pc T = Start (CAwaitAny ms) → ms ≠ [] →
  state (run_task p L) = state L
  ∧ out (run_task p L) = out L
  ∧ tasks (run_task p L) !! p
    = Some (mkTask (Wait ByTask 0
                      (seq (length (tasks L)) (length (set_iter _ ms))) Pending)
                   (t_callbacks T) false (t_timer T))
  ∧ (∀ i m, set_iter _ ms !! i = Some m →
       tasks (run_task p L) !! (length (tasks L) + i)
       = Some (mkTask (Start (CAwaitMessage m)) [OnCompletion p 0] false NoTimer))
  ∧ ready (run_task p L)
    = ready L ++ (Run <$> seq (length (tasks L)) (length (set_iter _ ms)))
  ∧ (∀ u, u ≠ p → u < length (tasks L) → tasks (run_task p L) !! u = tasks L !! u).
Proof. intros HT Hpc Hms. by apply await_any_started. Qed.

Lemma results_inl rs vs : results rs = inl vs → rs = Ret <$> vs.
Proof.
  revert vs. induction rs as [|[v|e] rs IH]; intros vs; simpl.
  - by intros [= <-].
  - destruct (results rs) as [vs'|e]; [|done]. intros [= <-]. simpl. f_equal. by apply IH.
  - done.
Qed.

Lemma results_inr rs e : results rs = inr e → Exc e ∈ rs.
Proof.
  induction rs as [|[v|e'] rs IH]; simpl.
  - done.
  - destruct (results rs) as [vs'|e'']; [done|]. intros [= <-]. right. by apply IH.
  - intros [= <-]. by left.
Qed.

Lemma results_exc rs e : Exc e ∈ rs → ∃ e', results rs = inr e'.
Proof.
  induction rs as [|[v|e'] rs IH]; simpl.
  - by intros ?%elem_of_nil.
  - intros [?|Hin]%elem_of_cons; [done|]. destruct (IH Hin) as [e'' ->]. eauto.
  - eauto.
Qed.

Lemma omap_done_children L (ch : list nat) :
  omap (λ c, result_of c L) (filter (λ c, is_done L c) ch) = omap (λ c, result_of c L) ch.
Proof.
  induction ch as [|c ch IH]; [done|].
  rewrite filter_cons. destruct (result_of c L) as [r|] eqn:Hr.
  - rewrite decide_True by (unfold is_done; by rewrite Hr).
    cbn [omap list_omap]. by rewrite Hr, IH.
  - rewrite decide_False by (unfold is_done; rewrite Hr; by intros []).
    cbn [omap list_omap]. by rewrite Hr, IH.
Qed.

(** X10 (the return of [await_any_messages]): the step that resumes the
    caller after [asyncio.wait], when nobody has cancelled it, ends the
    call: it does not suspend again, and [state] and the output stay as
    they are.  If a child that is done has failed, the call fails with the
    exception of such a child; otherwise it returns the results of all
    the children that are done at that moment, each once, and of no
    other.  Every set is iterated over each of its elements once. *)
Theorem await_any_returns_the_done_children (p : nat) (T : task) (L : Loop)
    (call : nat) (ch : list nat) :
  (∀ A (l : list A), set_iter A l ≡ₚ l) →
  tasks L !! p = Some T → t_pc T = Wait ByTask call ch Done → t_must_cancel T = false →
  state (run_task p L) = state L
  ∧ out (run_task p L) = out L
  ∧ ((∃ e c, pc_of p (run_task p L) = Some (Finished (Exc e))
             ∧ c ∈ ch ∧ result_of c L = Some (Exc e))
     ∨ (∃ vs, pc_of p (run_task p L) = Some (Finished (Ret (VList vs)))
              ∧ Ret <$> vs ≡ₚ omap (λ c, result_of c L) ch)).
Proof.
  intros Hiter HT Hpc Hmc. rewrite (run_task_any_resumed p T L call ch HT Hpc Hmc).
  cbn zeta. set (L1 := (remove_done_callback _ _ _).1).
  assert (tasks L1 !! p = Some (if decide (p ∈ ch)
            then with_callbacks (filter (λ cb', cb' ≠ OnCompletion p call)
                                   (t_callbacks (with_must_cancel false T)))
                   (with_must_cancel false T)
            else with_must_cancel false T)) as HT1.
  { unfold L1. rewrite tasks_remove_done_callback.
    by rewrite (tasks_update_task_eq _ _ _ _ HT). }
  assert (is_Some (pc_of p L1)) as Hsome by (rewrite (task_pc_of _ _ _ HT1); by eexists).
  assert (state L1 = state L) as Hs
    by (unfold L1; by rewrite state_remove_done_callback, state_update_task).
  assert (out L1 = out L) as Ho
    by (unfold L1; by rewrite out_remove_done_callback, out_update_task).
  assert (∀ r, out (finish p r L1) = out L) as Hout
    by (intros r; unfold finish; rewrite HT1; by simpl).
  destruct (results _) as [vs|e] eqn:Hres.
  - split; [by rewrite state_finish|]. split; [done|]. right. exists vs.
    split; [by apply pc_of_finish_eq|].
    rewrite <- (results_inl _ _ Hres), Hiter. by rewrite omap_done_children.
  - split; [by rewrite state_finish|]. split; [done|]. left.
    apply results_inr, list_elem_of_omap in Hres as (c & Hc & Hr).
    rewrite Hiter in Hc. apply list_elem_of_filter in Hc as [_ Hc].
    exists e, c. split; [by apply pc_of_finish_eq|done].
Qed.

(** ** The steps of [message_arrival_notifier], written out *)

Lemma length_remove_done_callback cb ch L :
  length (tasks (remove_done_callback cb ch L).1) = length (tasks L).
Proof.
  unfold remove_done_callback, effect. cbn [fst]. revert L.
  induction ch as [|c ch IH]; intros L; cbn [foldl]; [done|].
  by rewrite IH, length_update_task.
Qed.

Lemma run_task_notifier_start p T L :
  tasks L !! p = Some T → t_pc T = Start CNotifier →
  run_task p L
  = set_pc p (Wait ByNotifier 0
                (seq (length (tasks L)) (length (set_iter _ ["a"; "b"; "c"]))) Pending)
      (create_tasks (CAwaitMessage <$> set_iter _ ["a"; "b"; "c"]) (OnCompletion p 0)
         (update_task p (with_must_cancel false) L)).1.
Proof.
  intros HT Hpc. unfold run_task, resume. rewrite HT, Hpc. simpl.
  unfold message_arrival_notifier, never, bind.
  rewrite await_any_messages_explicit by done. by rewrite length_update_task.
Qed.

Lemma run_task_notifier_resumed p T L call ch :
  tasks L !! p = Some T → t_pc T = Wait ByNotifier call ch Done → t_must_cancel T = false →
  run_task p L
  = let L1 := (remove_done_callback (OnCompletion p call) ch
                 (update_task p (with_must_cancel false) L)).1 in
    match results (omap (λ c, result_of c L) (set_iter _ (filter (λ c, is_done L c) ch))) with
    | inr e => finish p (Exc e) L1
    | inl arrived =>
        match join_names arrived with
        | inr e => finish p (Exc e) L1
        | inl names =>
            set_pc p (Wait ByNotifier (S call)
                        (seq (length (tasks L)) (length (set_iter _ ["a"; "b"; "c"])))
                        Pending)
              (create_tasks (CAwaitMessage <$> set_iter _ ["a"; "b"; "c"])
                 (OnCompletion p (S call))
                 (mkLoop (state L1) (tasks L1) (ready L1)
                    (out L1 ++ [LMessageArrived names]))).1
        end
    end.
Proof.
  intros HT Hpc Hmc. unfold run_task, resume. rewrite HT, Hpc, Hmc. cbn [any_resumed].
  unfold bind at 1. unfold await_any_resumed. unfold bind at 1.
  pose proof (remove_done_callback_ok (OnCompletion p call) ch
                (update_task p (with_must_cancel false) L)) as Hok.
  assert (∀ u, pc_of u (remove_done_callback (OnCompletion p call) ch
                          (update_task p (with_must_cancel false) L)).1 = pc_of u L) as Hsame.
  { intros u. by rewrite pc_of_remove_done_callback, pc_of_must_cancel. }
  assert (length (tasks (remove_done_callback (OnCompletion p call) ch
                           (update_task p (with_must_cancel false) L)).1)
          = length (tasks L)) as Hlen.
  { by rewrite length_remove_done_callback, length_update_task. }
  destruct (remove_done_callback _ _ _) as [L1 r]. simpl in Hok, Hsame, Hlen. subst r.
  cbn [fst]. unfold read, py. rewrite (done_children_same L L1 ch Hsame).
  destruct (results _) as [arrived|e]; [|done].
  unfold ret, notifier_arrived, bind at 1, py.
  destruct (join_names arrived) as [names|e]; [|done].
  unfold ret, bind at 1, print, effect, never, bind.
  rewrite await_any_messages_explicit by done. cbn [tasks]. by rewrite Hlen.
Qed.

Lemma pc_of_expire u t L :
  pc_of u (expire t L) = pc_of u L ∨ pc_of u (expire t L) = cancelled_pc <$> pc_of u L.
Proof.
  unfold expire. destruct (timer_of t L) as [[]|]; auto.
  unfold task_cancel. rewrite pc_of_update_task_same by done.
  destruct (decide (u = t)) as [->|Hne].
  - destruct (pc_of t L) as [q|] eqn:Hq; [|left; by rewrite pc_of_update_task_same].
    destruct q as [?|?|?|? ? ? ?|who call ch []|?];
      try (left; by rewrite ?pc_of_update_task_same, ?Hq).
    right. rewrite pc_of_call_soon, pc_of_set_pc_eq; [done|].
    rewrite pc_of_update_task_same by done. by rewrite Hq.
  - left. destruct (pc_of t L) as [q|]; [|by rewrite pc_of_update_task_same].
    destruct q as [?|?|?|? ? ? ?|who call ch []|?];
      rewrite ?pc_of_call_soon, ?pc_of_set_pc_ne, ?pc_of_update_task_same; done.
Qed.

(** A task that is not inside [gather], under an action that is not a
    step of its own: its [pc] stays, or its future gets a result, or the
    future is cancelled. *)
Lemma act_passive_pc a L u p :
  pc_of u L = Some p →
  (∀ ms ch n o, p ≠ Gather ms ch n o) →
  (∀ rest T, a = Next → ready L = Run u :: rest → tasks L !! u = Some T →
     resume json_loads set_iter u T = None) →
  pc_of u (act a L) = Some p
  ∨ pc_of u (act a L) = Some (woken p)
  ∨ pc_of u (act a L) = Some (cancelled_pc p).
Proof.
  intros Hp Hgather Hh. destruct (pc_of_Some_task _ _ _ Hp) as (T & HT & HpT).
  destruct a as [i|].
  - destruct (deliver_task i L u T HT) as (T' & HT' & Hpc & _). left.
    simpl. by rewrite (task_pc_of _ _ _ HT'), Hpc, HpT.
  - simpl. unfold run_next. destruct (ready L) as [|h rest] eqn:Hr; [by left|].
    set (L0 := mkLoop _ _ _ _).
    assert (tasks L0 !! u = Some T) as HT0 by done.
    assert (pc_of u L0 = Some p) as Hp0 by done.
    destruct (decide (target h = u)) as [Heq|Hne].
    + destruct h as [t|[parent call|parent] child|t]; simpl in Heq; subst; simpl.
      * left. rewrite (run_task_idle u T L0); [done..|]. by eapply Hh.
      * unfold on_completion. rewrite Hp0.
        destruct (t_pc T) as [?|?|?|? ? ? ?|who call' ch []|?]; auto.
        case_decide; auto. right; left. rewrite pc_of_set_result, decide_True by done.
        by rewrite Hp0.
      * left. rewrite gather_done_idle; [done|]. intros ms ch n o.
        rewrite Hp0. intros [= ?]. by eapply Hgather.
      * destruct (pc_of_expire u u L0) as [->| ->]; rewrite Hp0; auto.
    + destruct (run_handle_others h L0 u T) as (T' & new & HT' & Hk & _); [done..|].
      destruct Hk as (_ & [Hpc|Hpc] & _); rewrite (task_pc_of _ _ _ HT'), Hpc, HpT; auto.
Qed.

Lemma run_task_notifier_cancelled p T L call ch w :
  tasks L !! p = Some T → t_pc T = Wait ByNotifier call ch w →
  match w with Pending => False | Done => t_must_cancel T = true | Cancelled => True end →
  run_task p L
  = finish p (Exc CancelledError)
      (remove_done_callback (OnCompletion p call) ch
         (update_task p (with_must_cancel false) L)).1.
Proof.
  intros HT Hpc Hw. unfold run_task, resume. rewrite HT, Hpc.
  assert (∀ L0, any_resumed set_iter ByNotifier call ch true p L0
                = ((remove_done_callback (OnCompletion p call) ch L0).1, Raise CancelledError))
    as Hraise.
  { intros L0. cbn [any_resumed]. unfold bind at 1. unfold await_any_resumed.
    unfold bind at 1. pose proof (remove_done_callback_ok (OnCompletion p call) ch L0) as Hok.
    destruct (remove_done_callback _ _ _) as [L1 r]. simpl in Hok. by subst r. }
  destruct w; [done| |]; [rewrite Hw|]; by rewrite Hraise.
Qed.



Lemma notifier_pc_step t L :
  (∃ p, pc_of t L = Some p ∧ notifier_pc p) →
  ∃ p, pc_of t (run_task t L) = Some p ∧ notifier_pc p.
Proof.
  intros (p & Hp & Hn). destruct (pc_of_Some_task _ _ _ Hp) as (T & HT & HpT).
  assert (t < length (tasks L)) as Hlt by (by eapply lookup_lt_Some).
  assert (∀ call ch, is_Some (pc_of t (remove_done_callback (OnCompletion t call) ch
            (update_task t (with_must_cancel false) L)).1)) as Hsome.
  { intros call ch. rewrite pc_of_remove_done_callback, pc_of_must_cancel, Hp. by eexists. }
  assert (∀ cs cb L0, length (tasks L0) = length (tasks L) →
            is_Some (pc_of t (create_tasks cs cb L0).1)) as Hsome'.
  { intros cs cb L0 HL0. destruct (create_tasks_spec cs cb L0) as (_ & Hts & _).
    unfold pc_of. rewrite Hts.
    destruct (lookup_lt_is_Some_2 (tasks L0 ++ ((λ c, mkTask (Start c) [cb] false NoTimer) <$> cs)) t)
      as [T' ->]; [rewrite length_app; lia|by eexists]. }
  destruct p as [[]|?|?|? ? ? ?|[] call ch w|[]]; try done.
  - rewrite (run_task_notifier_start t T L HT HpT). eexists.
    rewrite pc_of_set_pc_eq; [done|]. apply Hsome'. by rewrite length_update_task.
  - destruct w.
    + exists (Wait ByNotifier call ch Pending). split; [|done].
      rewrite (run_task_idle t T L HT); [done|]. unfold resume. by rewrite HpT.
    + destruct (t_must_cancel T) eqn:Hmc.
      * rewrite (run_task_notifier_cancelled t T L call ch Done HT HpT Hmc).
        eexists. by rewrite pc_of_finish_eq.
      * rewrite (run_task_notifier_resumed t T L call ch HT HpT Hmc). cbn zeta.
        destruct (results _) as [arrived|e]; [|eexists; by rewrite pc_of_finish_eq].
        destruct (join_names arrived) as [names|e]; [|eexists; by rewrite pc_of_finish_eq].
        eexists. rewrite pc_of_set_pc_eq; [done|]. apply Hsome'. cbn [tasks].
        by rewrite length_remove_done_callback, length_update_task.
    + rewrite (run_task_notifier_cancelled t T L call ch Cancelled HT HpT I).
      eexists. by rewrite pc_of_finish_eq.
  - exists (Finished (Exc e)). split; [|done].
    rewrite (run_task_idle t T L HT); [done|]. unfold resume. by rewrite HpT.
Qed.

Lemma notifier_pc_act t a L :
  (∃ p, pc_of t L = Some p ∧ notifier_pc p) →
  ∃ p, pc_of t (act a L) = Some p ∧ notifier_pc p.
Proof.
  intros (p & Hp & Hn). destruct (pc_of_Some_task _ _ _ Hp) as (T & HT & HpT).
  assert (a = Next ∧ (∃ rest, ready L = Run t :: rest)
          ∨ ¬ (a = Next ∧ ∃ rest, ready L = Run t :: rest)) as [[-> [rest Hr] ]|Hno].
  { destruct a as [i|]; [right; by intros [? _]|].
    destruct (ready L) as [|[u| |] rest]; try (right; by intros [_ [? ?] ]).
    destruct (decide (u = t)) as [->|Hne]; [left; eauto|].
    right. intros [_ [? [= ?] ] ]. done. }
  - simpl. rewrite (run_next_cons _ _ _ Hr). simpl. apply notifier_pc_step. by exists p.
  - destruct (act_passive_pc a L t p Hp) as [Hq|[Hq|Hq] ].
    + intros ms ch n o ->. done.
    + intros rest T' -> Hr _. destruct Hno. eauto.
    + eauto.
    + exists (woken p). split; [done|]. by destruct p as [[]|?|?|? ? ? ?|[] ? ? []|[]].
    + exists (cancelled_pc p). split; [done|]. by destruct p as [[]|?|?|? ? ? ?|[] ? ? []|[]].
Qed.

(** X12 ([message_arrival_notifier] never returns): however the loop
    goes on, a task that runs [message_arrival_notifier] is about to
    start, or suspended in [asyncio.wait], or ended by an exception; it
    never ends with a result. *)
Theorem notifier_never_returns (t : nat) (L : Loop) (acts : list action) :
  pc_of t L = Some (Start CNotifier) →
  (∃ p, pc_of t (exec acts L) = Some p ∧ notifier_pc p)
  ∧ ∀ v, pc_of t (exec acts L) ≠ Some (Finished (Ret v)).
Proof.
  intros Hstart.
  assert (∃ p, pc_of t (exec acts L) = Some p ∧ notifier_pc p) as Hinv.
  { assert (∃ p, pc_of t L = Some p ∧ notifier_pc p) as H0 by (by eexists).
    clear Hstart. revert L H0. induction acts as [|a acts IH]; intros L H0; [done|].
    rewrite exec_cons. by apply IH, notifier_pc_act. }
  split; [done|]. intros v Hv. destruct Hinv as (p & Hp & Hn).
  rewrite Hv in Hp. injection Hp as <-. done.
Qed.

(** ** The steps of [message_monitor], written out *)

Lemma run_task_monitor_start p T L :
  tasks L !! p = Some T → t_pc T = Start CMonitor →
  run_task p L
  = set_pc p (Wait ByMonitor 0
                (seq (length (tasks L)) (length (set_iter _ ["a"; "b"]))) Pending)
      (create_tasks (CAwaitMessage <$> set_iter _ ["a"; "b"]) (OnCompletion p 0)
         (update_task p (with_timer Armed)
            (update_task p (with_must_cancel false) L))).1.
Proof.
  intros HT Hpc. unfold run_task, resume. rewrite HT, Hpc. simpl.
  unfold message_monitor, catch, timeout_enter, never. unfold bind at 1. unfold effect.
  unfold bind. rewrite await_any_messages_explicit by done.
  by rewrite !length_update_task.
Qed.

(** What becomes of an exception that leaves the body of the [async
    with] block: [__aexit__] turns the [CancelledError] of its own timer
    into [TimeoutError], and [except asyncio.TimeoutError] prints. *)
Lemma monitor_leaves p e L T :
  tasks L !! p = Some T →
  catch (timeout_exit_exc p e) monitor_except L
  = match e, t_timer T with
    | CancelledError, Fired => (put LConditionsFailed L, Ok VNone)
    | TimeoutError, _ =>
        (put LConditionsFailed (update_task p (λ T, with_timer (disarmed (t_timer T)) T) L),
         Ok VNone)
    | _, _ => (update_task p (λ T, with_timer (disarmed (t_timer T)) T) L, Raise e)
    end.
Proof.
  intros HT. unfold catch, timeout_exit_exc. unfold bind at 1, read, py, ret, timer_of.
  rewrite HT. simpl.
  destruct e, (t_timer T); reflexivity.
Qed.

Lemma state_item_lookup name key L :
  state_item name key L = py (state_lookup name key L) L.
Proof. done. Qed.

Lemma state_lookup_same name key L L' :
  state L' = state L → state_lookup name key L' = state_lookup name key L.
Proof. intros Hs. unfold state_lookup. by rewrite Hs. Qed.

Lemma bind_py {A B} (r : A + exn) (f : A → coroutine B) L :
  bind (py r) f L = match r with inl a => f a L | inr e => (L, Raise e) end.
Proof. by destruct r. Qed.

Lemma bind_state_item {B} name key (f : json → coroutine B) L :
  bind (state_item name key) f L
  = match state_lookup name key L with inl a => f a L | inr e => (L, Raise e) end.
Proof. unfold bind. rewrite state_item_lookup. by destruct (state_lookup name key L). Qed.

Lemma bind_print {B} l (f : unit → coroutine B) L : bind (print l) f L = f tt (put l L).
Proof. done. Qed.

(** The body of the monitor's loop, from the wake-up to the end of the
    [async with] block, to an exception or to the next wait. *)
Lemma monitor_body p call ch cancelled L0 :
  bind (await_any_resumed set_iter p call ch cancelled)
       (λ arrived, monitor_arrived set_iter arrived call p) L0
  = let L1 := (remove_done_callback (OnCompletion p call) ch L0).1 in
    if cancelled then (L1, Raise CancelledError)
    else
      match results (omap (λ c, result_of c L0)
                          (set_iter _ (filter (λ c, is_done L0 c) ch))) with
      | inr e => (L1, Raise e)
      | inl arrived =>
          match join_names arrived with
          | inr e => (L1, Raise e)
          | inl names =>
              let L2 := put (LArrived names) L1 in
              match monitor_condition L0 with
              | inr e => (L2, Raise e)
              | inl true =>
                  (update_task p (λ T, with_timer (disarmed (t_timer T)) T)
                     (put LConditionMet L2), Ok VNone)
              | inl false =>
                  match state_lookup "a" "1" L0, state_lookup "b" "3" L0 with
                  | inl a1, inl b3 =>
                      ((create_tasks (CAwaitMessage <$> set_iter _ ["a"; "b"])
                          (OnCompletion p (S call)) (put (LValues a1 b3) L2)).1,
                       Suspend (Wait ByMonitor (S call)
                                  (seq (length (tasks L0)) (length (set_iter _ ["a"; "b"])))
                                  Pending))
                  | inr e, _ => (L2, Raise e)
                  | _, inr e => (L2, Raise e)
                  end
              end
          end
      end.
Proof.
  unfold bind at 1. unfold await_any_resumed. unfold bind at 1.
  pose proof (remove_done_callback_ok (OnCompletion p call) ch L0) as Hok.
  pose proof (pc_of_remove_done_callback (OnCompletion p call) ch L0) as Hsame.
  pose proof (length_remove_done_callback (OnCompletion p call) ch L0) as Hlen.
  pose proof (state_remove_done_callback (OnCompletion p call) ch L0) as Hst.
  destruct (remove_done_callback _ _ _) as [L1 r]. simpl in Hok, Hsame, Hlen, Hst. subst r.
  cbn [fst]. cbn zeta. destruct cancelled; [done|].
  unfold read, py. rewrite (done_children_same L0 L1 ch Hsame).
  destruct (results _) as [arrived|e]; [|done].
  unfold ret, monitor_arrived. rewrite bind_py.
  destruct (join_names arrived) as [names|e]; [|done].
  rewrite bind_print. set (L2 := put (LArrived names) L1).
  assert (∀ name key L, state L = state L1 →
            state_lookup name key L = state_lookup name key L0) as Hlook
    by (intros; apply state_lookup_same; congruence).
  rewrite bind_state_item, Hlook by done. unfold monitor_condition.
  destruct (state_lookup "a" "1" L0) as [a1|e] eqn:Ha1; [|done].
  assert (∀ L, state L = state L1 →
            (a1' <- state_item "a" "1" ;;
             b3' <- state_item "b" "3" ;;
             print (LValues a1' b3') ;;;
             never (await_any_messages set_iter ["a"; "b"] ByMonitor (S call) p)) L
            = (match state_lookup "b" "3" L0 with
               | inl b3 =>
                   ((create_tasks (CAwaitMessage <$> set_iter _ ["a"; "b"])
                       (OnCompletion p (S call)) (put (LValues a1 b3) L)).1,
                    Suspend (Wait ByMonitor (S call)
                               (seq (length (tasks L)) (length (set_iter _ ["a"; "b"])))
                               Pending))
               | inr e => (L, Raise e)
               end : Loop * res pyval)) as Hgo.
  { intros L HL. rewrite bind_state_item, Hlook, Ha1 by done.
    rewrite bind_state_item, Hlook by done.
    destruct (state_lookup "b" "3" L0) as [b3|e]; [|done].
    rewrite bind_print. unfold never, bind.
    by rewrite await_any_messages_explicit by done. }
  destruct (py_eq_int a1 512) eqn:Ha.
  - unfold bind at 1. rewrite bind_state_item, Hlook by done.
    destruct (state_lookup "b" "3" L0) as [b3|e] eqn:Hb3; [|done].
    unfold ret. destruct (py_eq_int b3 16).
    + rewrite bind_print. by unfold bind, timeout_exit, effect, ret.
    + rewrite Hgo by done. change (tasks L2) with (tasks L1). by rewrite Hlen.
  - unfold bind at 1. unfold ret. rewrite Hgo by done.
    destruct (state_lookup "b" "3" L0); [|done].
    change (tasks L2) with (tasks L1). by rewrite Hlen.
Qed.

Lemma out_finish t r L : out (finish t r L) = out L.
Proof. unfold finish. by destruct (tasks L !! t). Qed.

Lemma length_finish t r L : length (tasks (finish t r L)) = length (tasks L).
Proof. unfold finish. destruct (tasks L !! t); [|done]. simpl. by rewrite length_insert. Qed.

Lemma pc_of_finish_lt t r L :
  t < length (tasks L) → pc_of t (finish t r L) = Some (Finished r).
Proof.
  intros Hlt. apply pc_of_finish_eq. unfold pc_of.
  destruct (lookup_lt_is_Some_2 (tasks L) t Hlt) as [T ->]. by eexists.
Qed.

Lemma pc_of_set_pc_lt t p L : t < length (tasks L) → pc_of t (set_pc t p L) = Some p.
Proof.
  intros Hlt. apply pc_of_set_pc_eq. unfold pc_of.
  destruct (lookup_lt_is_Some_2 (tasks L) t Hlt) as [T ->]. by eexists.
Qed.

Lemma timer_of_update_task_ne u t f L : u ≠ t → timer_of u (update_task t f L) = timer_of u L.
Proof. intros Hne. unfold timer_of. by rewrite tasks_update_task_ne. Qed.

Lemma timer_of_update_task_eq t f L :
  timer_of t (update_task t f L) = (λ T, t_timer (f T)) <$> tasks L !! t.
Proof.
  unfold timer_of. destruct (tasks L !! t) as [T|] eqn:HT.
  - by rewrite (tasks_update_task_eq _ _ _ _ HT).
  - unfold update_task. by rewrite HT, HT.
Qed.

Lemma timer_of_finish u t r L : timer_of u (finish t r L) = timer_of u L.
Proof.
  unfold timer_of. destruct (decide (u = t)) as [->|Hne].
  - destruct (tasks L !! t) as [T|] eqn:HT.
    + by rewrite (tasks_finish_eq _ _ _ _ HT).
    + unfold finish. by rewrite HT, HT.
  - by rewrite tasks_finish_ne.
Qed.

Lemma timer_of_remove_done_callback cb ch L u :
  timer_of u (remove_done_callback cb ch L).1 = timer_of u L.
Proof.
  unfold timer_of. rewrite tasks_remove_done_callback.
  destruct (tasks L !! u); simpl; [|done]. by case_decide.
Qed.

Lemma timer_of_create_tasks cs cb L u :
  u < length (tasks L) → timer_of u (create_tasks cs cb L).1 = timer_of u L.
Proof.
  intros Hlt. destruct (create_tasks_spec cs cb L) as (_ & Hts & _).
  unfold timer_of. by rewrite Hts, lookup_app_l.
Qed.

Lemma length_create_tasks cs cb L :
  length (tasks (create_tasks cs cb L).1) = length (tasks L) + length cs.
Proof.
  destruct (create_tasks_spec cs cb L) as (_ & Hts & _).
  by rewrite Hts, length_app, length_fmap.
Qed.

(** The step that resumes the monitor: the body, then [__aexit__] and the
    [except] clause for an exception of the body. *)
Lemma run_task_monitor_resumed p T L call ch w :
  tasks L !! p = Some T → t_pc T = Wait ByMonitor call ch w → w ≠ Pending →
  run_task p L
  = let L0 := update_task p (with_must_cancel false) L in
    let cancelled := match w with Cancelled => true | _ => t_must_cancel T end in
    match
      match bind (await_any_resumed set_iter p call ch cancelled)
                 (λ arrived, monitor_arrived set_iter arrived call p) L0 with
      | (L2, Raise e) => catch (timeout_exit_exc p e) monitor_except L2
      | r => r
      end
    with
    | (L', Ok v) => finish p (Ret v) L'
    | (L', Raise e) => finish p (Exc e) L'
    | (L', Suspend q) => set_pc p q L'
    end.
Proof.
  intros HT Hpc Hw. unfold run_task, resume. rewrite HT, Hpc. cbn zeta.
  assert (∀ cancelled L0,
            any_resumed set_iter ByMonitor call ch cancelled p L0
            = match bind (await_any_resumed set_iter p call ch cancelled)
                         (λ arrived, monitor_arrived set_iter arrived call p) L0 with
              | (L2, Raise e) => catch (timeout_exit_exc p e) monitor_except L2
              | r => r
              end) as Heq.
  { intros cancelled L0. cbn [any_resumed]. unfold catch at 1 2.
    by destruct (bind _ _ L0) as [L2 [v|e|q] ]. }
  destruct w; [done| |]; by rewrite Heq.
Qed.

Lemma monitor_resumed_task p T L call ch :
  tasks L !! p = Some T →
  ∃ T1, tasks (remove_done_callback (OnCompletion p call) ch
                 (update_task p (with_must_cancel false) L)).1 !! p = Some T1
        ∧ t_timer T1 = t_timer T ∧ t_pc T1 = t_pc T.
Proof.
  intros HT. rewrite tasks_remove_done_callback, (tasks_update_task_eq _ _ _ _ HT). simpl.
  eexists. split; [done|]. by case_decide.
Qed.

(** X13 (the first step of [message_monitor]): the timer of
    [asyncio_timeout] is set, one task of [await_message] is made for
    each of ["a"] and ["b"], in the order in which the set of them is
    iterated, and the monitor suspends on the waiter of [asyncio.wait];
    nothing is printed and [state] is as it was. *)
Theorem monitor_arms_its_deadline (p : nat) (T : task) (L : Loop) :
  tasks L !! p = Some T → t_pc T = Start CMonitor →
  state (run_task p L) = state L
  ∧ out (run_task p L) = out L
  ∧ tasks (run_task p L) !! p
    = Some (mkTask (Wait ByMonitor 0
                      (seq (length (tasks L)) (length (set_iter _ ["a"; "b"]))) Pending)
                   (t_callbacks T) false Armed)
  ∧ (∀ i m, set_iter _ ["a"; "b"] !! i = Some m →
       tasks (run_task p L) !! (length (tasks L) + i)
       = Some (mkTask (Start (CAwaitMessage m)) [OnCompletion p 0] false NoTimer))
  ∧ ready (run_task p L)
    = ready L ++ (Run <$> seq (length (tasks L)) (length (set_iter _ ["a"; "b"]))).
Proof.
  intros HT Hpc. rewrite (run_task_monitor_start p T L HT Hpc).
  set (L0 := update_task p (with_timer Armed) (update_task p (with_must_cancel false) L)).
  assert (p < length (tasks L)) as Hlt by (by eapply lookup_lt_Some).
  assert (length (tasks L0) = length (tasks L)) as Hlen
    by (unfold L0; by rewrite !length_update_task).
  assert (tasks L0 !! p = Some (with_timer Armed (with_must_cancel false T))) as HT0.
  { unfold L0. apply tasks_update_task_eq. by apply tasks_update_task_eq. }
  destruct (create_tasks_spec (CAwaitMessage <$> set_iter _ ["a"; "b"])
              (OnCompletion p 0) L0) as (_ & Hts & Hrd & Hst & Hout).
  set (L1 := (create_tasks _ _ L0).1) in *.
  assert (tasks L1 !! p = Some (with_timer Armed (with_must_cancel false T))) as HT1
    by (rewrite Hts, lookup_app_l by lia; done).
  unfold set_pc. split; [by rewrite state_update_task, Hst; unfold L0; rewrite !state_update_task|].
  split; [by rewrite out_update_task, Hout; unfold L0; rewrite !out_update_task|].
  split; [by rewrite (tasks_update_task_eq _ _ _ _ HT1)|].
  split.
  - intros i m Hm. rewrite tasks_update_task_ne by lia.
    rewrite Hts, lookup_app_r by lia.
    replace (length (tasks L) + i - length (tasks L0)) with i by lia.
    by rewrite !list_lookup_fmap, Hm.
  - rewrite ready_update_task, Hrd, Hlen, length_fmap. unfold L0.
    by rewrite !ready_update_task.
Qed.

(** X14 (the deadline): when the monitor is resumed cancelled and its
    own timer has fired, the step prints [CONDITIONS FAILED] and nothing
    else and the coroutine returns; [state] is as it was and the tasks
    made for the wait are not cancelled.  When it is resumed cancelled
    though its timer has not fired, the [CancelledError] is not taken
    for a timeout: nothing is printed and the task ends with it. *)
Theorem monitor_deadline_prints_failed (p : nat) (T : task) (L : Loop)
    (call : nat) (ch : list nat) (w : fut_state) :
  tasks L !! p = Some T → t_pc T = Wait ByMonitor call ch w →
  match w with Pending => False | Done => t_must_cancel T = true | Cancelled => True end →
  state (run_task p L) = state L
  ∧ (∀ u, u ≠ p → pc_of u (run_task p L) = pc_of u L)
  ∧ (t_timer T = Fired →
       out (run_task p L) = out L ++ [LConditionsFailed]
       ∧ pc_of p (run_task p L) = Some (Finished (Ret VNone)))
  ∧ (t_timer T ≠ Fired →
       out (run_task p L) = out L
       ∧ pc_of p (run_task p L) = Some (Finished (Exc CancelledError))).
Proof.
  intros HT Hpc Hw.
  rewrite (run_task_monitor_resumed p T L call ch w HT Hpc) by (by destruct w).
  cbn zeta. rewrite monitor_body.
  assert (match w with Cancelled => true | _ => t_must_cancel T end = true) as ->
    by (by destruct w).
  cbn zeta. destruct (monitor_resumed_task p T L call ch HT) as (T1 & HT1 & Htm & _).
  set (L1 := (remove_done_callback _ _ _).1) in *.
  rewrite (monitor_leaves p CancelledError L1 T1 HT1), Htm.
  assert (p < length (tasks L1)) as Hlt by (by eapply lookup_lt_Some).
  assert (state L1 = state L) as Hs
    by (unfold L1; by rewrite state_remove_done_callback, state_update_task).
  assert (out L1 = out L) as Ho
    by (unfold L1; by rewrite out_remove_done_callback, out_update_task).
  assert (∀ u, pc_of u L1 = pc_of u L) as Hpcs
    by (intros u; unfold L1; by rewrite pc_of_remove_done_callback, pc_of_must_cancel).
  destruct (t_timer T) eqn:Ht.
  4: { split; [rewrite state_finish; exact Hs|].
       split; [intros u Hu; rewrite pc_of_finish_ne by done; apply Hpcs|].
       split; [intros _|done].
       split; [rewrite out_finish; simpl; by rewrite Ho|by apply pc_of_finish_lt]. }
  all: split; [by rewrite state_finish, state_update_task|].
  all: split; [intros u Hu; by rewrite pc_of_finish_ne, pc_of_update_task_same|].
  all: split; [done|intros _].
  all: split; [by rewrite out_finish, out_update_task|].
  all: apply pc_of_finish_lt; by rewrite length_update_task.
Qed.

Lemma state_lookup_error name key L e :
  state_lookup name key L = inr e → e = TypeError ∨ ∃ k, e = KeyError k.
Proof.
  unfold state_lookup, subscript.
  destruct (state L !! name) as [ [v|c]|]; [|intros [= <-]; auto|intros [= <-]; eauto].
  destruct v; try (intros [= <-]; auto). destruct (dict_get key fields); [done|].
  intros [= <-]. eauto.
Qed.

Lemma monitor_condition_error L e :
  monitor_condition L = inr e → e = TypeError ∨ ∃ k, e = KeyError k.
Proof.
  unfold monitor_condition.
  destruct (state_lookup "a" "1" L) as [a1|e1] eqn:Ha; [|intros [= <-]; by eapply state_lookup_error].
  destruct (py_eq_int a1 512); [|done].
  destruct (state_lookup "b" "3" L) as [b3|e3] eqn:Hb; [done|].
  intros [= <-]. by eapply state_lookup_error.
Qed.

Lemma monitor_leaves_body_error p e L T :
  tasks L !! p = Some T → (e = TypeError ∨ ∃ k, e = KeyError k) →
  catch (timeout_exit_exc p e) monitor_except L
  = (update_task p (λ T, with_timer (disarmed (t_timer T)) T) L, Raise e).
Proof.
  intros HT He. rewrite (monitor_leaves p e L T HT).
  destruct He as [->|[k ->] ]; by destruct (t_timer T).
Qed.

(** X15 (the monitor's check): let the monitor be resumed, not
    cancelled, when the children that are done have returned the names
    [names].  The step prints the line of the arrived names.  Then, if
    [state['a']['1'] == 512 and state['b']['3'] == 16] holds, it prints
    [CONDITION MET], disarms the timer and returns; if it does not hold
    and both values are there, it prints them and suspends in the next
    wait with the timer as it was; and if one of the look-ups fails,
    the [KeyError] or [TypeError] ends the monitor, the timer disarmed,
    with no verdict printed. *)
Theorem monitor_checks_the_condition (p : nat) (T : task) (L : Loop)
    (call : nat) (ch : list nat) (arrived : list pyval) (names : list string) :
  tasks L !! p = Some T → t_pc T = Wait ByMonitor call ch Done → t_must_cancel T = false →
  results (omap (λ c, result_of c L) (set_iter _ (filter (λ c, is_done L c) ch)))
  = inl arrived →
  join_names arrived = inl names →
  state (run_task p L) = state L
  ∧ (monitor_condition L = inl true →
       out (run_task p L) = out L ++ [LArrived names; LConditionMet]
       ∧ pc_of p (run_task p L) = Some (Finished (Ret VNone))
       ∧ timer_of p (run_task p L) = Some (disarmed (t_timer T)))
  ∧ (∀ a1 b3,
       monitor_condition L = inl false →
       state_lookup "a" "1" L = inl a1 → state_lookup "b" "3" L = inl b3 →
       out (run_task p L) = out L ++ [LArrived names; LValues a1 b3]
       ∧ pc_of p (run_task p L)
         = Some (Wait ByMonitor (S call)
                   (seq (length (tasks L)) (length (set_iter _ ["a"; "b"]))) Pending)
       ∧ timer_of p (run_task p L) = Some (t_timer T))
  ∧ (∀ e,
       monitor_condition L = inr e
       ∨ (monitor_condition L = inl false ∧ state_lookup "b" "3" L = inr e) →
       out (run_task p L) = out L ++ [LArrived names]
       ∧ pc_of p (run_task p L) = Some (Finished (Exc e))
       ∧ timer_of p (run_task p L) = Some (disarmed (t_timer T))).
Proof.
  intros HT Hpc Hmc Hres Hjoin.
  rewrite (run_task_monitor_resumed p T L call ch Done HT Hpc) by done.
  cbn zeta. rewrite monitor_body, Hmc. cbn zeta.
  set (L0 := update_task p (with_must_cancel false) L).
  assert (∀ u, pc_of u L0 = pc_of u L) as Hpcs by (intros u; apply pc_of_must_cancel).
  assert (state L0 = state L) as Hs0 by apply state_update_task.
  rewrite (done_children_same L L0 ch Hpcs), Hres, Hjoin.
  assert (monitor_condition L0 = monitor_condition L) as ->
    by (unfold monitor_condition; by rewrite !(state_lookup_same _ _ L L0 Hs0)).
  rewrite !(state_lookup_same _ _ L L0 Hs0).
  destruct (monitor_resumed_task p T L call ch HT) as (T1 & HT1 & Htm & _).
  fold L0 in HT1. set (L1 := (remove_done_callback _ _ L0).1) in *.
  assert (p < length (tasks L1)) as Hlt by (by eapply lookup_lt_Some).
  assert (length (tasks L1) = length (tasks L)) as Hlen
    by (unfold L1, L0; by rewrite length_remove_done_callback, length_update_task).
  assert (state L1 = state L) as Hs
    by (unfold L1; by rewrite state_remove_done_callback).
  assert (out L1 = out L) as Ho
    by (unfold L1, L0; by rewrite out_remove_done_callback, out_update_task).
  set (L2 := put (LArrived names) L1).
  assert (tasks L2 !! p = Some T1) as HT2 by done.
  assert (∀ e, e = TypeError ∨ (∃ k, e = KeyError k) →
            state (finish p (Exc e)
                     (update_task p (λ T, with_timer (disarmed (t_timer T)) T) L2)) = state L
            ∧ out (finish p (Exc e)
                     (update_task p (λ T, with_timer (disarmed (t_timer T)) T) L2))
              = out L ++ [LArrived names]
            ∧ pc_of p (finish p (Exc e)
                         (update_task p (λ T, with_timer (disarmed (t_timer T)) T) L2))
              = Some (Finished (Exc e))
            ∧ timer_of p (finish p (Exc e)
                            (update_task p (λ T, with_timer (disarmed (t_timer T)) T) L2))
              = Some (disarmed (t_timer T))) as Hfail.
  { intros e He. split; [by rewrite state_finish, state_update_task|].
    split; [rewrite out_finish, out_update_task; simpl; by rewrite Ho|].
    split; [apply pc_of_finish_lt; by rewrite length_update_task|].
    by rewrite timer_of_finish, timer_of_update_task_eq, HT2; simpl; rewrite Htm. }
  destruct (monitor_condition L) as [ [|]|e] eqn:Hcond.
  - split; [by rewrite state_finish, state_update_task|].
    split; [intros _|split; [done|intros e [?|[? _] ]; done] ].
    split; [rewrite out_finish, out_update_task; simpl; by rewrite Ho, <- app_assoc|].
    split; [apply pc_of_finish_lt; by rewrite length_update_task|].
    rewrite timer_of_finish, timer_of_update_task_eq. simpl. by rewrite HT1, <- Htm.
  - destruct (state_lookup "a" "1" L) as [a1|e1] eqn:Ha.
    2: { unfold monitor_condition in Hcond. by rewrite Ha in Hcond. }
    destruct (state_lookup "b" "3" L) as [b3|e3] eqn:Hb.
    + set (L3 := put (LValues a1 b3) L2).
      destruct (create_tasks_spec (CAwaitMessage <$> set_iter _ ["a"; "b"])
                  (OnCompletion p (S call)) L3) as (_ & Hts & _ & Hst & Hout).
      unfold set_pc. split; [by rewrite state_update_task, Hst|].
      split; [done|]. split; [|intros e [?|[_ ?] ]; done].
      intros ? ? _ [= <-] [= <-].
      split; [rewrite out_update_task, Hout; simpl; by rewrite Ho, <- app_assoc|].
      assert (length (tasks L0) = length (tasks L)) as ->
        by (unfold L0; by rewrite length_update_task).
      split.
      * apply pc_of_set_pc_lt. rewrite length_create_tasks. simpl. lia.
      * rewrite timer_of_update_task_eq, Hts.
        simpl. rewrite lookup_app_l by done. by rewrite HT1, <- Htm.
    + assert (e3 = TypeError ∨ ∃ k, e3 = KeyError k) as He3
        by (by eapply state_lookup_error).
      rewrite (monitor_leaves_body_error p e3 L2 T1 HT2 He3).
      destruct (Hfail e3 He3) as (? & ? & ? & ?).
      split; [done|]. split; [done|]. split; [by intros ? ? _ _ [=]|].
      intros e [?|[_ [= <-] ] ]; done.
  - assert (e = TypeError ∨ ∃ k, e = KeyError k) as He
      by (by eapply monitor_condition_error).
    rewrite (monitor_leaves_body_error p e L2 T1 HT2 He).
    destruct (Hfail e He) as (? & ? & ? & ?).
    split; [done|]. split; [done|]. split; [done|].
    intros e' [ [= <-]|[? _] ]; done.
Qed.

Lemma monitor_body_verdict p call ch cancelled L0 :
  p < length (tasks L0) →
  ∃ ls L2 r,
    bind (await_any_resumed set_iter p call ch cancelled)
         (λ arrived, monitor_arrived set_iter arrived call p) L0 = (L2, r)
    ∧ out L2 = out L0 ++ ls ∧ p < length (tasks L2)
    ∧ match r with
      | Ok v => v = VNone ∧ filter (λ l, verdict l = true) ls = [LConditionMet]
      | Raise _ => filter (λ l, verdict l = true) ls = []
      | Suspend q =>
          filter (λ l, verdict l = true) ls = []
          ∧ ∃ ch', q = Wait ByMonitor (S call) ch' Pending
      end.
Proof.
  intros Hlt. rewrite monitor_body. cbn zeta.
  set (L1 := (remove_done_callback _ _ L0).1).
  assert (p < length (tasks L1)) as Hlt1
    by (unfold L1; by rewrite length_remove_done_callback).
  assert (out L1 = out L0) as Ho by (unfold L1; by rewrite out_remove_done_callback).
  assert (∀ e, ∃ ls L2 r, (L1, Raise e) = (L2, r) ∧ out L2 = out L0 ++ ls
            ∧ p < length (tasks L2)
            ∧ match r : res pyval with
              | Ok v => v = VNone ∧ filter (λ l, verdict l = true) ls = [LConditionMet]
              | Raise _ => filter (λ l, verdict l = true) ls = []
              | Suspend q =>
                  filter (λ l, verdict l = true) ls = []
                  ∧ ∃ ch', q = Wait ByMonitor (S call) ch' Pending
              end) as Hraise1.
  { intros e. exists [], L1, (Raise e). by rewrite app_nil_r. }
  assert (∀ names e, ∃ ls L2 r, (put (LArrived names) L1, Raise e) = (L2, r)
            ∧ out L2 = out L0 ++ ls ∧ p < length (tasks L2)
            ∧ match r : res pyval with
              | Ok v => v = VNone ∧ filter (λ l, verdict l = true) ls = [LConditionMet]
              | Raise _ => filter (λ l, verdict l = true) ls = []
              | Suspend q =>
                  filter (λ l, verdict l = true) ls = []
                  ∧ ∃ ch', q = Wait ByMonitor (S call) ch' Pending
              end) as Hraise2.
  { intros names e. exists [LArrived names], (put (LArrived names) L1), (Raise e).
    split; [done|]. split; [simpl; by rewrite Ho|]. by split. }
  destruct cancelled; [apply Hraise1|].
  destruct (results _) as [arrived|e]; [|apply Hraise1].
  destruct (join_names arrived) as [names|e]; [|apply Hraise1].
  destruct (monitor_condition L0) as [ [|]|e]; [| |apply Hraise2].
  - eexists [LArrived names; LConditionMet], _, _. split; [done|].
    split; [rewrite out_update_task; simpl; by rewrite Ho, <- app_assoc|].
    split; [by rewrite length_update_task|]. by split.
  - destruct (state_lookup "a" "1" L0) as [a1|e1]; [|apply Hraise2].
    destruct (state_lookup "b" "3" L0) as [b3|e3]; [|apply Hraise2].
    eexists [LArrived names; LValues a1 b3], _, _. split; [done|].
    destruct (create_tasks_spec (CAwaitMessage <$> set_iter _ ["a"; "b"])
                (OnCompletion p (S call))
                (put (LValues a1 b3) (put (LArrived names) L1))) as (_ & _ & _ & _ & Hout).
    split; [rewrite Hout; simpl; by rewrite Ho, <- app_assoc|].
    split; [rewrite length_create_tasks; simpl; lia|].
    split; [done|by eexists].
Qed.

Lemma monitor_leaves_verdict p e L :
  p < length (tasks L) →
  ∃ ls L' r,
    catch (timeout_exit_exc p e) monitor_except L = (L', r)
    ∧ out L' = out L ++ ls ∧ p < length (tasks L')
    ∧ match r with
      | Ok v => v = VNone ∧ ls = [LConditionsFailed]
      | Raise _ => ls = []
      | Suspend _ => False
      end.
Proof.
  intros Hlt. destruct (lookup_lt_is_Some_2 _ _ Hlt) as [T HT].
  rewrite (monitor_leaves p e L T HT).
  destruct e, (t_timer T);
    first [ eexists [], _, _; split; [reflexivity|];
            split; [by rewrite out_update_task, app_nil_r|];
            split; [by rewrite length_update_task|done]
          | eexists [LConditionsFailed], _, _; split; [reflexivity|];
            split; [simpl; by rewrite ?out_update_task|];
            split; [simpl; by rewrite ?length_update_task|done] ].
Qed.

(** X16 (one verdict, when the monitor returns): whatever the done
    children hold and however the monitor was woken or cancelled, a step
    of [message_monitor] only adds lines to the output; if the step
    ends the coroutine with a result, the result is [None] and exactly
    one verdict line was printed in the step, either [CONDITION MET] or
    [CONDITIONS FAILED]; if the step suspends the monitor or ends it
    with an exception, or does nothing, no verdict line was printed. *)
Theorem monitor_prints_one_verdict (p : nat) (T : task) (L : Loop) :
  tasks L !! p = Some T →
  (t_pc T = Start CMonitor ∨ ∃ call ch w, t_pc T = Wait ByMonitor call ch w) →
  ∃ printed,
    out (run_task p L) = out L ++ printed
    ∧ match pc_of p (run_task p L) with
      | Some (Finished (Ret v)) =>
          v = VNone
          ∧ (filter (λ l, verdict l = true) printed = [LConditionMet]
             ∨ filter (λ l, verdict l = true) printed = [LConditionsFailed])
      | _ => filter (λ l, verdict l = true) printed = []
      end.
Proof.
  intros HT [Hpc|(call & ch & w & Hpc)].
  - destruct (monitor_arms_its_deadline p T L HT Hpc) as (_ & Ho & HT' & _).
    exists []. rewrite app_nil_r. split; [done|]. by rewrite (task_pc_of _ _ _ HT').
  - assert (p < length (tasks L)) as Hlt by (by eapply lookup_lt_Some).
    assert (w = Pending ∨ w ≠ Pending) as [->|Hw] by (destruct w; auto).
    { exists []. rewrite (run_task_idle p T L HT) by (unfold resume; by rewrite Hpc).
      rewrite app_nil_r. split; [done|]. by rewrite (task_pc_of _ _ _ HT), Hpc. }
    rewrite (run_task_monitor_resumed p T L call ch w HT Hpc Hw). cbn zeta.
    set (L0 := update_task p (with_must_cancel false) L).
    assert (out L0 = out L) as Ho0 by apply out_update_task.
    destruct (monitor_body_verdict p call ch
                (match w with Cancelled => true | _ => t_must_cancel T end) L0)
      as (ls & L2 & r & -> & Ho2 & Hlt2 & Hv); [unfold L0; by rewrite length_update_task|].
    destruct r as [v|e|q].
    + destruct Hv as [-> Hv]. exists ls. split; [by rewrite out_finish, Ho2, Ho0|].
      rewrite pc_of_finish_lt by done. auto.
    + destruct (monitor_leaves_verdict p e L2 Hlt2) as (ls' & L3 & r & -> & Ho3 & Hlt3 & Hv').
      exists (ls ++ ls'). rewrite filter_app, Hv. simpl.
      destruct r as [v|e'|q]; [| |done].
      * destruct Hv' as [-> ->]. split; [by rewrite out_finish, Ho3, Ho2, Ho0, app_assoc|].
        rewrite pc_of_finish_lt by done. auto.
      * subst ls'. split; [by rewrite out_finish, Ho3, Ho2, Ho0, app_assoc|].
        by rewrite pc_of_finish_lt by done.
    + destruct Hv as (Hv & ch' & ->).
      exists ls. split; [unfold set_pc; by rewrite out_update_task, Ho2, Ho0|].
      by rewrite pc_of_set_pc_lt by done.
Qed.

(** ** A name without a condition fails [await_any_messages] *)

Section Unknown.

Variables (p : nat) (ms : list string) (x : string).
Hypothesis set_iter_perm : ∀ A (l : list A), set_iter A l ≡ₚ l.

Lemma head_of_split {A} (h h' : A) pre post rest :
  pre ++ h :: post = h' :: rest →
  (pre = [] ∧ h' = h ∧ rest = post)
  ∨ ∃ pre', pre = h' :: pre' ∧ rest = pre' ++ h :: post.
Proof.
  destruct pre as [|a pre]; simpl; intros [= ? ?]; subst; [by left|right; eauto].
Qed.

Lemma any_about_to_start_waits a L :
  unknown_topic x L → any_about_to_start p ms L →
  (∀ rest, a = Next → ready L ≠ Run p :: rest) →
  any_about_to_start p ms (act a L).
Proof.
  intros [Hwf Hx] (T & pre & post & HT & Hpc & Htm & Hr & Hpre & Hpost) Hnot.
  destruct (act_passive a L p T HT Htm) as (T' & q & new & HT' & Hq & Hk & Hr' & _).
  { intros ? ? ? ?. by rewrite Hpc. }
  { intros rest Ha Hrest. by destruct (Hnot rest Ha). }
  destruct (act_wakes a L) as (new' & Hr'' & Hnew).
  assert (new' = new) as -> by (rewrite Hr' in Hr''; by eapply app_inv_head).
  assert (Run p ∉ new) as Hpn.
  { intros Hin. destruct (Hnew p Hin) as [HN|[Hp|(ms' & ch & n & Hp)] ].
    - congruence.
    - unfold pending_at in Hp. by rewrite (task_pc_of _ _ _ HT), Hpc in Hp.
    - rewrite (task_pc_of _ _ _ HT), Hpc in Hp. done. }
  destruct Hk as (Htm' & Hpc' & _).
  assert (t_pc T' = Start (CAwaitAny ms)) as Hpc''
    by (destruct Hpc' as [->| ->]; by rewrite Hpc).
  assert (t_timer T' = NoTimer) as Htm'' by (destruct Htm' as [-> _]; done).
  destruct a as [i|]; cbn [queue_after] in Hr'.
  - exists T', pre, (post ++ new). split; [done|]. split; [done|]. split; [done|].
    split; [by rewrite Hr', Hr, <- app_assoc|]. split; [done|].
    rewrite elem_of_app. tauto.
  - rewrite Hr in Hr'. destruct pre as [|h pre0].
    { by destruct (Hnot post eq_refl). }
    cbn [tail app] in Hr'. exists T', pre0, (post ++ new). split; [done|]. split; [done|].
    split; [done|]. split; [by rewrite Hr', <- app_assoc|].
    split; [intros Hin; apply Hpre; by right|]. rewrite elem_of_app. tauto.
Qed.

Lemma any_about_to_start_fires L rest :
  x ∈ ms →
  unknown_topic x L → any_about_to_start p ms L → ready L = Run p :: rest →
  ∃ ch cx, any_child_queued p ms x ch cx (run_next L).
Proof.
  intros Hxms [Hwf Hx] (T & pre & post & HT & Hpc & Htm & Hr & Hpre & Hpost) Hhead.
  rewrite Hr in Hhead.
  destruct (head_of_split _ _ _ _ _ Hhead) as [(-> & _ & ->)|(pre' & -> & _)].
  2: { destruct Hpre. by left. }
  simpl in Hr. rewrite (run_next_cons _ _ _ Hr). simpl.
  set (L0 := mkLoop _ _ _ _).
  assert (ms ≠ []) as Hms by (intros ->; by apply elem_of_nil in Hxms).
  destruct (await_any_started p T L0 ms HT Hpc Hms) as (_ & _ & HTp & Hchild & Hready & _).
  simpl in HTp, Hchild, Hready.
  set (n := length (tasks L)) in *. set (names := set_iter _ ms) in *.
  assert (p < n) as Hlt by (by eapply lookup_lt_Some).
  assert (x ∈ names) as Hxn by (unfold names; by rewrite set_iter_perm).
  apply list_elem_of_lookup in Hxn as [i Hi].
  assert (i < length names) as Hilen by (by eapply lookup_lt_Some).
  exists (seq n (length names)), (n + i). split; [|split; [|split] ].
  - intros c [Hc1 Hc2]%elem_of_seq.
    destruct (lookup_lt_is_Some_2 names (c - n)) as [y Hy]; [lia|].
    exists y, (Start (CAwaitMessage y)). split; [|split; [|done] ].
    + rewrite <- (set_iter_perm _ ms). by eapply list_elem_of_lookup_2.
    + specialize (Hchild _ _ Hy). replace (n + (c - n)) with c in Hchild by lia.
      by rewrite (task_pc_of _ _ _ Hchild).
  - apply elem_of_seq. lia.
  - eexists. split; [by apply Hchild|]. split; [done|]. split; [done|]. by left.
  - assert ((Run <$> seq n (length names)) !! i = Some (Run (n + i))) as Hrun.
    { rewrite list_lookup_fmap, lookup_seq_lt by done. done. }
    exists (post ++ take i (Run <$> seq n (length names))),
           (drop (S i) (Run <$> seq n (length names))), Pending.
    split; [|split; [|split; [|by left] ] ].
    + rewrite Hready, <- app_assoc. f_equal. symmetry. by apply take_drop_middle.
    + intros [Hin|Hin]%elem_of_app; [done|].
      apply (subseteq_take i) in Hin.
      apply list_elem_of_fmap in Hin as (c & [= <-] & [Hc _]%elem_of_seq). lia.
    + eexists. split; [exact HTp|]. rewrite Htm. done.
Qed.

Lemma any_caller_passive a L ch w :
  any_caller p ch w L →
  (∀ rest, a = Next → ready L = Run p :: rest → w = Pending) →
  ∃ new w',
    ready (act a L) = queue_after a L ++ new
    ∧ any_caller p ch w' (act a L)
    ∧ (w' = w ∨ (w = Pending ∧ w' = Done ∧ Run p ∈ new)).
Proof.
  intros (T & HT & Hpc & Htm & Hmc) Hh.
  destruct (act_passive a L p T HT Htm) as (T' & q & new & HT' & Hq & Hk & Hr' & Hch & _).
  { intros ? ? ? ?. by rewrite Hpc. }
  { intros rest Ha Hrest. unfold resume. by rewrite Hpc, (Hh rest Ha Hrest). }
  destruct Hk as (Htm' & Hpc' & _). destruct (Htm' ltac:(done)) as [Ht1 Ht2].
  destruct Hpc' as [Hsame|Hwoken].
  - exists new, w. split; [done|]. split; [|by left].
    exists T'. rewrite Hsame, Ht1, Ht2. done.
  - rewrite Hpc in Hwoken. destruct w; simpl in Hwoken.
    + exists new, Done. split; [done|]. split.
      * exists T'. rewrite Hwoken, Ht1, Ht2. done.
      * right. split; [done|]. split; [done|]. apply Hch. by rewrite Hwoken, Hpc.
    + exists new, Done. split; [done|]. split; [|by left].
      exists T'. rewrite Hwoken, Ht1, Ht2. done.
    + exists new, Cancelled. split; [done|]. split; [|by left].
      exists T'. rewrite Hwoken, Ht1, Ht2. done.
Qed.

Lemma any_child_queued_waits ch cx a L :
  unknown_topic x L → any_child_queued p ms x ch cx L →
  (∀ rest, a = Next → ready L ≠ Run cx :: rest) →
  any_child_queued p ms x ch cx (act a L).
Proof.
  intros [Hwf Hx] (Hch & Hcx & (Tc & HTc & Hpcc & Htmc & Hcbc)
                   & pre & post & w & Hr & Hpre & Hp & Hw) Hnot.
  assert (p ≠ cx) as Hne.
  { intros ->. destruct Hp as (T & HT & Hpc & _). congruence. }
  assert (∀ rest, a = Next → ready L ≠ Run p :: rest) as Hnotp.
  { intros rest -> Hrest. rewrite Hr in Hrest.
    destruct (head_of_split _ _ _ _ _ Hrest) as [(-> & [= ?] & _)|(pre' & -> & _)];
      [done|]. apply Hpre. by left. }
  destruct (act_passive a L cx Tc HTc Htmc) as (Tc' & q & new & HTc' & Hq & Hk & Hr' & _ & Hcb).
  { intros ? ? ? ?. by rewrite Hpcc. }
  { intros rest Ha Hrest. by destruct (Hnot rest Ha). }
  destruct (any_caller_passive a L ch w Hp) as (new' & w' & Hr'' & Hp' & Hw').
  { intros rest Ha Hrest. by destruct (Hnotp rest Ha). }
  assert (new' = new) as -> by (rewrite Hr' in Hr''; by eapply app_inv_head).
  split; [by apply any_children_act|]. split; [done|]. split.
  - destruct Hk as (Htm' & Hpc' & keep & Hcbs & Hkeep).
    exists Tc'. split; [done|].
    split; [destruct Hpc' as [->| ->]; by rewrite Hpcc|].
    split; [by destruct (Htm' ltac:(done)) as [-> _]|].
    destruct Hcb as [->|(rest & -> & Hrest)]; [done|].
    rewrite Hcbs. apply list_elem_of_filter. split; [|done].
    apply Hkeep. intros call [= ->]. by apply (Hnotp rest).
  - assert (∃ pre' , queue_after a L = pre' ++ Run cx :: post ∧ Run p ∉ pre')
      as (pre' & Hq' & Hpre').
    { destruct a as [i|]; simpl; [by exists pre|].
      rewrite Hr. destruct pre as [|h pre0]; [by destruct (Hnot post eq_refl)|].
      exists pre0. split; [done|]. intros Hin. apply Hpre. by right. }
    exists pre', (post ++ new), w'. split; [by rewrite Hr', Hq', <- app_assoc|].
    split; [done|]. split; [done|].
    destruct Hw' as [->|(-> & -> & Hin)].
    + destruct Hw as [?|[? Hin] ]; [by left|right]. split; [done|].
      apply elem_of_app. by left.
    + right. split; [done|]. apply elem_of_app. by right.
Qed.

Lemma any_child_queued_fires ch cx L rest :
  unknown_topic x L → any_child_queued p ms x ch cx L → ready L = Run cx :: rest →
  any_child_failed p ms ch cx (run_next L) ∨ any_woken p ms ch cx (run_next L).
Proof.
  intros [Hwf Hx] (Hch & Hcx & (Tc & HTc & Hpcc & Htmc & Hcbc)
                   & pre & post & w & Hr & Hpre & Hp & Hw) Hhead.
  assert (p ≠ cx) as Hne.
  { intros ->. destruct Hp as (T & HT & Hpc & _). congruence. }
  pose proof (any_children_act ms ch Next L Hwf Hch) as Hch'. simpl in Hch'.
  assert (∀ h, h ∈ post → h ∈ rest) as Hpost.
  { intros h Hh. rewrite Hr in Hhead.
    destruct (head_of_split _ _ _ _ _ Hhead) as [(_ & _ & ->)|(pre' & _ & ->)]; [done|].
    apply elem_of_app. right. by right. }
  rewrite (run_next_cons _ _ _ Hhead) in *. simpl in *.
  set (L0 := mkLoop _ _ _ _) in *.
  destruct (run_task_await_message_unknown cx Tc L0 x HTc Hpcc Hx) as (e & He & Heq).
  rewrite Heq in *.
  assert (tasks (update_task cx (with_must_cancel false) L0) !! cx
          = Some (with_must_cancel false Tc)) as HT1 by (by apply tasks_update_task_eq).
  assert (pc_of cx (finish cx (Exc e) (update_task cx (with_must_cancel false) L0))
          = Some (Finished (Exc e))) as Hfin.
  { apply pc_of_finish_eq. rewrite (task_pc_of _ _ _ HT1). by eexists. }
  assert (any_caller p ch w (finish cx (Exc e) (update_task cx (with_must_cancel false) L0)))
    as Hp'.
  { destruct Hp as (T & HT & Hrest). exists T. split; [|done].
    by rewrite tasks_finish_ne, tasks_update_task_ne. }
  assert (ready (finish cx (Exc e) (update_task cx (with_must_cancel false) L0))
          = rest ++ ((λ cb, Call cb cx) <$> t_callbacks Tc)) as Hready
    by (by rewrite (ready_finish _ _ _ _ HT1), ready_update_task).
  destruct Hw as [->|[-> Hin] ].
  - left. split; [done|]. split; [done|]. split; [eauto|]. split; [done|].
    rewrite Hready. apply elem_of_app. right.
    by apply (list_elem_of_fmap_2 (λ cb, Call cb cx)).
  - right. split; [done|]. split; [done|]. split; [eauto|]. split; [done|].
    rewrite Hready. apply elem_of_app. left. by apply Hpost.
Qed.

Lemma finished_act u r a L :
  wf L → pc_of u L = Some (Finished r) → pc_of u (act a L) = Some (Finished r).
Proof. intros Hwf Hu. destruct (moves_act a L Hwf) as [_ Hpcs]. apply (Hpcs _ _ Hu). Qed.

Lemma elem_of_queue_after h a L :
  h ∈ ready L → (∀ rest, a = Next → ready L ≠ h :: rest) → h ∈ queue_after a L.
Proof.
  intros Hin Hnot. destruct a as [i|]; [done|]. simpl.
  destruct (ready L) as [|h' rest]; [done|].
  apply elem_of_cons in Hin as [->|?]; [by destruct (Hnot rest eq_refl)|done].
Qed.

Lemma any_child_failed_waits ch cx a L :
  unknown_topic x L → any_child_failed p ms ch cx L →
  (∀ rest, a = Next → ready L ≠ Call (OnCompletion p 0) cx :: rest) →
  any_child_failed p ms ch cx (act a L) ∨ any_woken p ms ch cx (act a L).
Proof.
  intros [Hwf Hx] (Hch & Hcx & (e & He) & Hp & Hcall) Hnot.
  destruct (any_caller_passive a L ch Pending Hp) as (new & w' & Hr' & Hp' & Hw'); [done|].
  pose proof (any_children_act ms ch a L Hwf Hch) as Hch'.
  pose proof (finished_act cx _ a L Hwf He) as He'.
  destruct Hw' as [->|(_ & -> & Hin)].
  - left. split; [done|]. split; [done|]. split; [eauto|]. split; [done|].
    rewrite Hr'. apply elem_of_app. left. by apply elem_of_queue_after.
  - right. split; [done|]. split; [done|]. split; [eauto|]. split; [done|].
    rewrite Hr'. apply elem_of_app. by right.
Qed.

Lemma any_child_failed_fires ch cx L rest :
  unknown_topic x L → any_child_failed p ms ch cx L →
  ready L = Call (OnCompletion p 0) cx :: rest →
  any_woken p ms ch cx (run_next L).
Proof.
  intros [Hwf Hx] (Hch & Hcx & (e & He) & Hp & Hcall) Hhead.
  pose proof (any_children_act ms ch Next L Hwf Hch) as Hch'.
  pose proof (finished_act cx _ Next L Hwf He) as He'. simpl in Hch', He'.
  rewrite (run_next_cons _ _ _ Hhead) in *. simpl in *.
  set (L0 := mkLoop _ _ _ _) in *.
  destruct Hp as (T & HT & Hpc & Htm & Hmc).
  assert (pc_of p L0 = Some (Wait ByTask 0 ch Pending)) as Hpc0
    by (by rewrite (task_pc_of p T L0 HT), Hpc).
  rewrite (on_completion_wakes p 0 ByTask ch L0 Hpc0) in *.
  split; [done|]. split; [done|]. split; [eauto|]. split.
  - exists (with_pc (Wait ByTask 0 ch Done) T). unfold call_soon, set_pc. cbn [tasks].
    split; [by apply tasks_update_task_eq|done].
  - simpl. apply elem_of_app. right. by left.
Qed.

Lemma any_woken_waits ch cx a L :
  unknown_topic x L → any_woken p ms ch cx L →
  (∀ rest, a = Next → ready L ≠ Run p :: rest) →
  any_woken p ms ch cx (act a L).
Proof.
  intros [Hwf Hx] (Hch & Hcx & (e & He) & Hp & Hrun) Hnot.
  destruct (any_caller_passive a L ch Done Hp) as (new & w' & Hr' & Hp' & Hw').
  { intros rest Ha Hrest. by destruct (Hnot rest Ha). }
  destruct Hw' as [->|(? & _)]; [|done].
  split; [by apply any_children_act|]. split; [done|].
  split; [exists e; by apply finished_act|]. split; [done|].
  rewrite Hr'. apply elem_of_app. left. by apply elem_of_queue_after.
Qed.

Lemma any_woken_fires ch cx L rest :
  unknown_topic x L → any_woken p ms ch cx L → ready L = Run p :: rest →
  any_failed p ms (run_next L).
Proof.
  intros [Hwf Hx] (Hch & Hcx & (e & He) & (T & HT & Hpc & Htm & Hmc) & Hrun) Hhead.
  rewrite (run_next_cons _ _ _ Hhead). simpl. set (L0 := mkLoop _ _ _ _).
  rewrite (run_task_any_resumed p T L0 0 ch HT Hpc Hmc). cbn zeta.
  assert (p < length (tasks L)) as Hlt by (by eapply lookup_lt_Some).
  set (L1 := (remove_done_callback _ _ _).1).
  assert (p < length (tasks L1)) as Hlt1.
  { unfold L1. by rewrite length_remove_done_callback, length_update_task. }
  assert (Exc e ∈ omap (λ c, result_of c L0)
                    (set_iter _ (filter (λ c, is_done L0 c) ch))) as Hin.
  { apply list_elem_of_omap. exists cx. split.
    - rewrite set_iter_perm. apply list_elem_of_filter. split; [|done].
      unfold is_done, result_of. change (pc_of cx L0) with (pc_of cx L). by rewrite He.
    - unfold result_of. change (pc_of cx L0) with (pc_of cx L). by rewrite He. }
  destruct (results_exc _ _ Hin) as [e' He'].
  rewrite He'. apply results_inr, list_elem_of_omap in He' as (c & Hc & Hrc).
  rewrite set_iter_perm in Hc. apply list_elem_of_filter in Hc as [_ Hc].
  destruct (Hch c Hc) as (y & pc & Hy & Hpcy & Hay).
  unfold result_of in Hrc. change (pc_of c L0) with (pc_of c L) in Hrc.
  rewrite Hpcy in Hrc. destruct pc as [?|?|?|? ? ? ?|? ? ? ?|r]; try done.
  injection Hrc as ->. simpl in Hay.
  exists y, e'. split; [done|]. split; [done|]. by apply pc_of_finish_lt.
Qed.

Lemma any_failed_stays a L : unknown_topic x L → any_failed p ms L → any_failed p ms (act a L).
Proof.
  intros [Hwf _] (y & e & Hy & He & Hpc). exists y, e. split; [done|]. split; [done|].
  by apply finished_act.
Qed.

#[local] Abbreviation any_stage1 := (any_stage1 p ms x).
#[local] Abbreviation any_stage2 := (any_stage2 p ms).
#[local] Abbreviation any_stage3 := (any_stage3 p ms).
#[local] Abbreviation unknown_topic_act := (unknown_topic_act x).

Lemma head_or_not (h : handle) (L : Loop) :
  (∃ rest, ready L = h :: rest) ∨ (∀ rest, ready L ≠ h :: rest).
Proof.
  destruct (ready L) as [|h' rest]; [by right|].
  destruct (decide (h' = h)) as [->|Hne]; [left; by eexists|].
  right. intros rest' [= ? ?]. done.
Qed.

Lemma stage_cases (h : handle) a L :
  (∃ rest, a = Next ∧ ready L = h :: rest) ∨ (∀ rest, a = Next → ready L ≠ h :: rest).
Proof.
  destruct a as [i|]; [by right|].
  destruct (head_or_not h L) as [[rest Hr]|Hnot]; [left; by exists rest|].
  right. intros rest _. apply Hnot.
Qed.

Lemma any_stage3_act a L : unknown_topic x L → any_stage3 L → any_stage3 (act a L).
Proof.
  intros HI [(ch & cx & HC)|HD].
  - destruct (stage_cases (Run p) a L) as [(rest & -> & Hr)|Hnot].
    + right. by eapply any_woken_fires.
    + left. exists ch, cx. by apply any_woken_waits.
  - right. by apply any_failed_stays.
Qed.

Lemma any_stage2_act a L : unknown_topic x L → any_stage2 L → any_stage2 (act a L).
Proof.
  intros HI [(ch & cx & HB)|H3]; [|right; by apply any_stage3_act].
  destruct (stage_cases (Call (OnCompletion p 0) cx) a L) as [(rest & -> & Hr)|Hnot].
  - right. left. exists ch, cx. by eapply any_child_failed_fires.
  - destruct (any_child_failed_waits ch cx a L HI HB Hnot) as [HB'|HC].
    + left. by exists ch, cx.
    + right. left. by exists ch, cx.
Qed.

Lemma any_stage1_act a L : unknown_topic x L → any_stage1 L → any_stage1 (act a L).
Proof.
  intros HI [(ch & cx & HA)|H2]; [|right; by apply any_stage2_act].
  destruct (stage_cases (Run cx) a L) as [(rest & -> & Hr)|Hnot].
  - right. destruct (any_child_queued_fires ch cx L rest HI HA Hr) as [HB|HC].
    + left. by exists ch, cx.
    + right. left. by exists ch, cx.
  - left. exists ch, cx. by apply any_child_queued_waits.
Qed.

Lemma any_round1 inputs L :
  x ∈ ms → unknown_topic x L → any_about_to_start p ms L → any_stage1 (run_once inputs L).
Proof.
  intros Hx HI HP.
  apply (fires_round (unknown_topic x) (any_about_to_start p ms) any_stage1 (Run p));
    [apply unknown_topic_act| | | |apply any_stage1_act|done..].
  - intros L0 _ (T & pre & post & _ & _ & _ & Hr & _). rewrite Hr.
    apply elem_of_app. right. by left.
  - intros a L0 HI0 HP0 Hnot. left. by apply any_about_to_start_waits.
  - intros L0 rest HI0 HP0 Hr. left. by eapply any_about_to_start_fires.
Qed.

Lemma any_round2 inputs L :
  unknown_topic x L → any_stage1 L → any_stage2 (run_once inputs L).
Proof.
  intros HI [(ch & cx & HA)|H2].
  - apply (fires_round (unknown_topic x) (any_child_queued p ms x ch cx) any_stage2 (Run cx));
      [apply unknown_topic_act| | | |apply any_stage2_act|done..].
    + intros L0 _ (_ & _ & _ & pre & post & w & Hr & _). rewrite Hr.
      apply elem_of_app. right. by left.
    + intros a L0 HI0 HP0 Hnot. left. by apply any_child_queued_waits.
    + intros L0 rest HI0 HP0 Hr.
      destruct (any_child_queued_fires ch cx L0 rest HI0 HP0 Hr) as [HB|HC].
      * left. by exists ch, cx.
      * right. left. by exists ch, cx.
  - by apply (stays_round (unknown_topic x) any_stage2 unknown_topic_act any_stage2_act).
Qed.

Lemma any_round3 inputs L :
  unknown_topic x L → any_stage2 L → any_stage3 (run_once inputs L).
Proof.
  intros HI [(ch & cx & HB)|H3].
  - apply (fires_round (unknown_topic x) (any_child_failed p ms ch cx) any_stage3
             (Call (OnCompletion p 0) cx));
      [apply unknown_topic_act| | | |apply any_stage3_act|done..].
    + intros L0 _ (_ & _ & _ & _ & Hin). done.
    + intros a L0 HI0 HP0 Hnot.
      destruct (any_child_failed_waits ch cx a L0 HI0 HP0 Hnot) as [HB'|HC].
      * by left.
      * right. left. by exists ch, cx.
    + intros L0 rest HI0 HP0 Hr. left. exists ch, cx. by eapply any_child_failed_fires.
  - by apply (stays_round (unknown_topic x) any_stage3 unknown_topic_act any_stage3_act).
Qed.

Lemma any_round4 inputs L :
  unknown_topic x L → any_stage3 L → any_failed p ms (run_once inputs L).
Proof.
  intros HI [(ch & cx & HC)|HD].
  - apply (fires_round (unknown_topic x) (any_woken p ms ch cx) (any_failed p ms) (Run p));
      [apply unknown_topic_act| | | |intros; by apply any_failed_stays|done..].
    + intros L0 _ (_ & _ & _ & _ & Hin). done.
    + intros a L0 HI0 HP0 Hnot. left. by apply any_woken_waits.
    + intros L0 rest HI0 HP0 Hr. by eapply any_woken_fires.
  - apply (stays_round (unknown_topic x) (any_failed p ms) unknown_topic_act); [|done..].
    intros; by apply any_failed_stays.
Qed.

Lemma any_failed_run rounds L :
  unknown_topic x L → any_failed p ms L → any_failed p ms (run json_loads set_iter rounds L).
Proof.
  revert L. induction rounds as [|r rounds IH]; intros L HI HD; [done|].
  unfold run. simpl. apply IH.
  - by apply (inv_round (unknown_topic x) unknown_topic_act).
  - apply (stays_round (unknown_topic x) (any_failed p ms) unknown_topic_act); [|done..].
    intros; by apply any_failed_stays.
Qed.

Lemma any_failed_in_four rounds L :
  x ∈ ms → unknown_topic x L → any_about_to_start p ms L → 4 ≤ length rounds →
  any_failed p ms (run json_loads set_iter rounds L).
Proof.
  intros Hx HI HP Hlen.
  destruct rounds as [|r1 [|r2 [|r3 [|r4 more] ] ] ]; simpl in Hlen; try lia.
  pose proof (inv_round (unknown_topic x) unknown_topic_act) as Hinv.
  change (run json_loads set_iter (r1 :: r2 :: r3 :: r4 :: more) L)
    with (run json_loads set_iter more (run_once r4 (run_once r3 (run_once r2 (run_once r1 L))))).
  apply any_failed_run; [by do 4 apply Hinv|].
  apply any_round4; [by do 3 apply Hinv|].
  apply any_round3; [by do 2 apply Hinv|].
  apply any_round2; [by apply Hinv|].
  by apply any_round1.
Qed.

End Unknown.

(** X17 (a name without a condition fails [await_any_messages]): when a
    call of [await_any_messages] is about to start — its task is new,
    has no deadline and stands once in the ready queue — and one of its
    names has no condition in [state], then whatever arrives meanwhile,
    after four iterations of the loop, and from then on, the call has
    failed with the [KeyError] (or [AttributeError]) of a name of its that
    [await_message] could not look up.  Every set is iterated over each of
    its elements once. *)
Theorem await_any_unknown_name_fails (p : nat) (ms : list string) (x : string)
    (rounds : list (list input)) (L : Loop) :
  (∀ A (l : list A), set_iter A l ≡ₚ l) →
  wf L →
  (∀ c, state L !! (x +:+ "_event") ≠ Some (Cond c)) →
  x ∈ ms →
  any_about_to_start p ms L →
  4 ≤ length rounds →
  ∃ y e, y ∈ ms ∧ UnknownTopic y e
         ∧ pc_of p (run json_loads set_iter rounds L) = Some (Finished (Exc e)).
Proof.
  intros Hiter Hwf Hx Hin HP Hlen.
  by apply (any_failed_in_four p ms x Hiter rounds L Hin (conj Hwf Hx) HP Hlen).
Qed.

(** ** The keys of [state] *)

(** What a step does to an item of [state]: nothing, or the condition
    under the key is replaced by a condition, or the key is a topic and
    gets a payload. *)
Lemma state_run_task t L key :
  wf L →
  state (run_task t L) !! key = state L !! key
  ∨ (∃ c c', state L !! key = Some (Cond c) ∧ state (run_task t L) !! key = Some (Cond c'))
  ∨ ((key = "a" ∨ key = "b" ∨ key = "c")
     ∧ ∃ v, state (run_task t L) !! key = Some (Val v)).
Proof.
  intros Hwf. destruct (tasks L !! t) as [T|] eqn:HT;
    [|unfold run_task; rewrite HT; eauto].
  assert (calm_composite : ∀ p, t_pc T = p →
            match p with Start c => composite c | p => collecting p end →
            state (run_task t L) = state L).
  { intros p Hp Hcomp. eapply run_task_calm; [done|]. rewrite Hp.
    destruct p; simpl in *; tauto. }
  assert (∀ e, state (finish t (Exc e) (update_task t (with_must_cancel false) L)) = state L)
    as Herr by (intros e; by rewrite state_finish, state_update_task).
  assert (∀ m c v r L1, state L !! (m +:+ "_event") = Some (Cond c) → state L1 = state L →
            state (finish t r (set_cond (m +:+ "_event") v L1)) !! key = state L !! key
            ∨ (∃ c c', state L !! key = Some (Cond c)
                 ∧ state (finish t r (set_cond (m +:+ "_event") v L1)) !! key
                   = Some (Cond c'))
            ∨ ((key = "a" ∨ key = "b" ∨ key = "c")
               ∧ ∃ v', state (finish t r (set_cond (m +:+ "_event") v L1)) !! key
                        = Some (Val v'))) as Hset.
  { intros m c v r L1 Hc HL1. rewrite state_finish. simpl. rewrite HL1.
    destruct (decide (key = m +:+ "_event")) as [->|Hne].
    - right; left. rewrite lookup_insert_eq. eauto.
    - left. by rewrite lookup_insert_ne. }
  destruct (t_pc T) as [c|k b|m b|ms ch n o|who call ch w|r] eqn:Hpc.
  - destruct c as [message|m|ms|ms| |];
      try (rewrite (calm_composite _ eq_refl I); eauto).
    + destruct (dispatchable (json_loads message)) as [[name payload]|] eqn:Hd.
      * destruct (dispatchable_decode _ _ _ t Hd) as [Hname _].
        destruct (wf_conditions_created _ Hwf _ Hname) as [c Hc].
        rewrite (run_task_decoder t T L message name payload c); [|apply Hwf|done..].
        rewrite state_finish. simpl.
        destruct (decide (key = name +:+ "_event")) as [->|Hne].
        { right; left. rewrite lookup_insert_eq. eauto. }
        rewrite lookup_insert_ne by done.
        destruct (decide (key = name)) as [->|Hne'].
        { right; right. rewrite lookup_insert_eq. eauto. }
        left. by rewrite lookup_insert_ne.
      * destruct (run_task_decoder_rejected t T L message HT Hpc Hd) as [e ->].
        rewrite Herr. eauto.
    + destruct (state L !! (m +:+ "_event")) as [[v|c]|] eqn:Hc.
      * destruct (run_task_await_message_unknown t T L m HT Hpc) as (e & _ & ->);
          [congruence|]. rewrite Herr. eauto.
      * rewrite (run_task_await_message t T L m c); [|apply Hwf|done..].
        unfold set_pc. rewrite state_update_task. simpl. rewrite state_update_task.
        destruct (decide (key = m +:+ "_event")) as [->|Hne].
        { right; left. rewrite lookup_insert_eq. eauto. }
        left. by rewrite lookup_insert_ne.
      * destruct (run_task_await_message_unknown t T L m HT Hpc) as (e & _ & ->);
          [congruence|]. rewrite Herr. eauto.
  - destruct (wf_no_lock_wait _ Hwf t k b). by rewrite (task_pc_of _ _ _ HT), Hpc.
  - destruct b; [|unfold run_task, resume; rewrite HT, Hpc; eauto].
    destruct (wf_cond_wait_registered _ Hwf t m true) as (c & Hc & _);
      [by rewrite (task_pc_of _ _ _ HT), Hpc|].
    rewrite (run_task_woken t T L m c); [|apply Hwf|done..].
    eapply Hset; [done|]. by rewrite state_update_task.
  - rewrite (calm_composite _ eq_refl I); eauto.
  - rewrite (calm_composite _ eq_refl I); eauto.
  - unfold run_task, resume. rewrite HT, Hpc. eauto.
Qed.

Lemma state_act a L key :
  wf L →
  state (act a L) !! key = state L !! key
  ∨ (∃ c c', state L !! key = Some (Cond c) ∧ state (act a L) !! key = Some (Cond c'))
  ∨ ((key = "a" ∨ key = "b" ∨ key = "c") ∧ ∃ v, state (act a L) !! key = Some (Val v)).
Proof.
  intros Hwf. destruct a as [i|]; simpl.
  - destruct (calm_deliver i L) as [-> _]. eauto.
  - unfold run_next. destruct (ready L) as [|h rest] eqn:Hr; [eauto|].
    set (L0 := mkLoop _ _ _ _).
    assert (wf L0) as Hwf0 by (by eapply wf_pop).
    destruct h as [t|[parent call|parent] child|t]; simpl.
    + apply (state_run_task t L0 key Hwf0).
    + destruct (calm_on_completion parent call L0) as [-> _]. eauto.
    + destruct (calm_gather_done parent child L0) as [-> _]. eauto.
    + destruct (calm_expire t L0) as [-> _]. eauto.
Qed.

(** The topics hold payloads and [state] has no key of its own making. *)
Lemma state_keys_act a L :
  wf L →
  (∀ name, name = "a" ∨ name = "b" ∨ name = "c" → ∃ v, state L !! name = Some (Val v)) →
  (∀ key, is_Some (state L !! key) → key ∈ state_keys) →
  (∀ name, name = "a" ∨ name = "b" ∨ name = "c" →
     ∃ v, state (act a L) !! name = Some (Val v))
  ∧ (∀ key, is_Some (state (act a L) !! key) → key ∈ state_keys).
Proof.
  intros Hwf Hval Hkeys. split.
  - intros name Hname. destruct (Hval name Hname) as [v Hv].
    destruct (state_act a L name Hwf) as [->|[(c & c' & Hc & _)|[_ ?] ] ];
      [eauto|congruence|done].
  - intros key Hkey.
    destruct (state_act a L key Hwf) as [Heq|[(c & c' & Hc & _)|[Hname _] ] ].
    + apply Hkeys. by rewrite <- Heq.
    + apply Hkeys. by rewrite Hc.
    + unfold state_keys. destruct Hname as [->|[->| ->] ]; repeat first [left | right].
Qed.

Lemma state_keys_exec acts L :
  wf L →
  (∀ name, name = "a" ∨ name = "b" ∨ name = "c" → ∃ v, state L !! name = Some (Val v)) →
  (∀ key, is_Some (state L !! key) → key ∈ state_keys) →
  (∀ name, name = "a" ∨ name = "b" ∨ name = "c" →
     ∃ v, state (exec acts L) !! name = Some (Val v))
  ∧ (∀ key, is_Some (state (exec acts L) !! key) → key ∈ state_keys).
Proof.
  revert L. induction acts as [|a acts IH]; intros L Hwf Hval Hkeys; [done|].
  rewrite exec_cons. destruct (state_keys_act a L Hwf Hval Hkeys) as [Hval' Hkeys'].
  apply IH; [by apply wf_act|done..].
Qed.

Lemma state_keys_main :
  (∀ name, name = "a" ∨ name = "b" ∨ name = "c" → ∃ v, state main !! name = Some (Val v))
  ∧ (∀ key, is_Some (state main !! key) → key ∈ state_keys).
Proof.
  split.
  - intros name [->|[->| ->] ]; eexists; reflexivity.
  - intros key. change (state main) with (create_conditions state0).
    unfold create_conditions, state0, state_keys.
    rewrite !lookup_insert_is_Some, lookup_empty. intros Hkey.
    repeat (destruct Hkey as [<-|[_ Hkey] ]; [repeat first [left | right]|]).
    by destruct Hkey.
Qed.

(** X18 (the keys of [state] stay): in every state that the loop reaches
    from [main], whatever datagrams, deadlines and tasks come in, [state]
    has the six keys of the module and no other, and the dict that
    [main_logic] prints consists of the three topics ["a"], ["b"] and
    ["c"], each with a payload: no condition shows in it and no topic is
    missing. *)
Theorem state_keeps_its_keys (acts : list action) :
  (∀ key, is_Some (state (exec acts main) !! key) ↔ key ∈ state_keys)
  ∧ ∃ va vb vc,
      clean_state (state (exec acts main))
      = <["a" := Val va]> (<["b" := Val vb]> (<["c" := Val vc]> ∅)).
Proof.
  destruct state_keys_main as [Hval0 Hkeys0].
  destruct (state_keys_exec acts main wf_main Hval0 Hkeys0) as [Hval Hkeys].
  pose proof (wf_conditions_created _ (wf_exec acts main wf_main)) as Hcond.
  split.
  - intros key. split; [apply Hkeys|]. unfold state_keys. intros Hin.
    repeat (apply elem_of_cons in Hin as [->|Hin]);
      try (by apply elem_of_nil in Hin).
    + destruct (Hcond "a") as [c Hc]; [auto|]. by eexists.
    + destruct (Hval "a") as [v Hv]; [auto|]. by eexists.
    + destruct (Hcond "b") as [c Hc]; [auto|]. by eexists.
    + destruct (Hval "b") as [v Hv]; [auto|]. by eexists.
    + destruct (Hcond "c") as [c Hc]; [auto|]. by eexists.
    + destruct (Hval "c") as [v Hv]; [auto|]. by eexists.
  - destruct (Hval "a") as [va Hva]; [auto|].
    destruct (Hval "b") as [vb Hvb]; [auto|].
    destruct (Hval "c") as [vc Hvc]; [auto|].
    exists va, vb, vc. apply map_eq. intros key. unfold clean_state.
    destruct (decide (key = "a")) as [->|Ha].
    { rewrite lookup_insert_eq. apply map_lookup_filter_Some. split; [done|].
      simpl. repeat first [left | right]. }
    rewrite lookup_insert_ne by done.
    destruct (decide (key = "b")) as [->|Hb].
    { rewrite lookup_insert_eq. apply map_lookup_filter_Some. split; [done|].
      simpl. repeat first [left | right]. }
    rewrite lookup_insert_ne by done.
    destruct (decide (key = "c")) as [->|Hc].
    { rewrite lookup_insert_eq. apply map_lookup_filter_Some. split; [done|].
      simpl. repeat first [left | right]. }
    rewrite lookup_insert_ne by done. rewrite lookup_empty.
    apply map_lookup_filter_None. right. intros x _. simpl. intros Hin.
    repeat (apply elem_of_cons in Hin as [?|Hin]; [done|]). by apply elem_of_nil in Hin.
Qed.

End Properties.

(** ** The properties at work on concrete runs *)

(** C5 on the datagram ["x1"], whose type ["x"] is not registered. *)
Lemma unknown_type_rejected_witness :
  (∀ L', protocol_x_decoder loads_demo "x1" 0 L'
         = (L', Raise (ValueError_unknown_type (JStr "x"))))
  ∧ pc_of 0 (run_task loads_demo in_order 0 (deliver (Datagram "x1") fresh_loop))
    = Some (Finished (Exc (ValueError_unknown_type (JStr "x"))))
  ∧ state (run_task loads_demo in_order 0 (deliver (Datagram "x1") fresh_loop))
    = state (deliver (Datagram "x1") fresh_loop).
Proof.
  apply (unknown_type_rejected loads_demo in_order "x1"
           [("type", JStr "x"); ("payload", JObj [("1", JInt 1)])] "x"
           (JObj [("1", JInt 1)]) 0 (mkTask (Start (CDecoder "x1")) [] false NoTimer));
    try reflexivity; discriminate.
Defined.

(** C6 fails on the datagram ["a-text"]: its payload is a string, not a
    mapping of strings to numbers, yet the dispatch returns and the string
    is stored as the payload of topic ["a"]. *)
Lemma malformed_payload_is_stored :
  spec_message_shape (loads_demo "a-text") = false
  ∧ ∃ L', protocol_x_decoder loads_demo "a-text" 0 (deliver (Datagram "a-text") fresh_loop)
          = (L', Ok VNone)
          ∧ payload_of "a" L' = Some (JStr "oops")
          ∧ payload_of "a" fresh_loop = Some (JObj [("1", JInt 0); ("2", JInt 0)]).
Proof.
  split; [reflexivity|]. eexists. split; [vm_compute; reflexivity|].
  split; reflexivity.
Qed.

(** C10 on the datagram ["a1"]: the sub-key ["2"] of topic ["a"] is gone
    after the dispatch. *)
Lemma payload_replaced_wholesale_witness :
  ∃ L', protocol_x_decoder loads_demo "a1" 0 (deliver (Datagram "a1") fresh_loop)
        = (L', Ok VNone)
        ∧ ∃ name payload,
            dispatchable (loads_demo "a1") = Some (name, payload)
            ∧ payload_of name L' = Some payload
            ∧ (∀ key, state_item name key L' = py (subscript payload key) L')
            ∧ (∀ other, other ≠ name →
                 payload_of other L' = payload_of other (deliver (Datagram "a1") fresh_loop)).
Proof.
  eexists. split; [vm_compute; reflexivity|].
  eapply (payload_replaced_wholesale loads_demo "a1" 0). vm_compute. reflexivity.
Defined.

(** C9 for a task that is about to wait for topic ["a"]. *)
Lemma no_already_happened_shortcut_witness :
  wf (deliver (Spawn (CAwaitMessage "a")) fresh_loop)
  ∧ pc_of 0 (deliver (Spawn (CAwaitMessage "a")) fresh_loop)
    = Some (Start (CAwaitMessage "a"))
  ∧ (∀ v, pc_of 0 (run_task loads_demo in_order 0
                     (deliver (Spawn (CAwaitMessage "a")) fresh_loop))
          ≠ Some (Finished (Ret v)))
  ∧ ∀ acts v,
      pc_of 0 (exec loads_demo in_order acts
                 (deliver (Spawn (CAwaitMessage "a")) fresh_loop))
      = Some (Finished (Ret v)) →
      v = VStr "a"
      ∧ ∃ acts1 acts2,
          acts = acts1 ++ acts2
          ∧ pc_of 0 (exec loads_demo in_order acts1
                       (deliver (Spawn (CAwaitMessage "a")) fresh_loop))
            = Some (CondWait "a" false)
          ∧ notifications "a" (exec loads_demo in_order acts1
                                 (deliver (Spawn (CAwaitMessage "a")) fresh_loop))
            < notifications "a" (exec loads_demo in_order acts
                                   (deliver (Spawn (CAwaitMessage "a")) fresh_loop)).
Proof.
  assert (wf (deliver (Spawn (CAwaitMessage "a")) fresh_loop)) as Hwf
    by apply wf_deliver, wf_fresh_loop.
  split; [exact Hwf|]. split; [reflexivity|].
  apply (no_already_happened_shortcut loads_demo in_order 0 "a" _ Hwf). reflexivity.
Defined.

(** C1 for a waiter on topic ["a"] and the datagram ["a1"]. *)
Lemma no_missed_wakeup_witness :
  let L0 := exec loads_demo in_order [Input (Spawn (CAwaitMessage "a")); Next] fresh_loop in
  let L := exec loads_demo in_order [Input (Datagram "a1")] L0 in
  wf L0
  ∧ pc_of 0 L0 = Some (CondWait "a" false)
  ∧ pc_of 1 L = Some (Start (CDecoder "a1"))
  ∧ dispatchable (loads_demo "a1") = Some ("a", JObj [("1", JInt 1)])
  ∧ ready L = [Run 1]
  ∧ pc_of 1 (run_next loads_demo in_order L) = Some (Finished (Ret VNone))
  ∧ payload_of "a" (run_next loads_demo in_order L) = Some (JObj [("1", JInt 1)])
  ∧ notifications "a" (run_next loads_demo in_order L) = S (notifications "a" L)
  ∧ ∀ acts, length (ready (run_next loads_demo in_order L)) ≤ nexts acts →
      pc_of 0 (exec loads_demo in_order acts (run_next loads_demo in_order L))
      = Some (Finished (Ret (VStr "a"))).
Proof.
  intros L0 L.
  assert (wf L0) as Hwf by apply wf_exec, wf_fresh_loop.
  split; [exact Hwf|]. do 4 (split; [reflexivity|]).
  apply (no_missed_wakeup loads_demo in_order 0 1 "a" "a1" (JObj [("1", JInt 1)])
           L0 [Input (Datagram "a1")] [] Hwf); reflexivity.
Defined.

(** C2 fails on a call for ["a"] and ["b"] that the datagram ["a1"]
    resolves: the task that waits for ["b"] is not cancelled and stays
    registered on the condition of ["b"].  With the notifier and three
    datagrams for ["a"], three such tasks are registered on the condition
    of ["c"]. *)
Lemma pending_wait_stays_registered :
  let L := run loads_demo in_order
             [[Spawn (CAwaitAny ["a"; "b"])]; []; [Datagram "a1"]; []; []; []] fresh_loop in
  pc_of 0 L = Some (Finished (Ret (VList [VStr "a"])))
  ∧ pc_of 2 L = Some (CondWait "b" false)
  ∧ waiters <$> cond_lookup "b_event" L = Some [2]
  ∧ ready L = []
  ∧ waiters <$> cond_lookup "c_event"
                  (run loads_demo in_order
                     [[Spawn CNotifier]; []; [Datagram "a1"]; []; []; [];
                      [Datagram "a1"]; []; []; []; [Datagram "a1"]; []; []; []]
                     fresh_loop)
    = Some [3; 7; 11].
Proof. vm_compute. repeat split; reflexivity. Qed.

(** The amended C2 on the same run, at the step that resolves the call. *)
Lemma any_wait_leaves_pending_registered_witness :
  let L := run loads_demo in_order
             [[Spawn (CAwaitAny ["a"; "b"])]; []; [Datagram "a1"]; []; []] fresh_loop in
  wf L
  ∧ tasks L !! 0 = Some (mkTask (Wait ByTask 0 [1; 2] Done) [] false NoTimer)
  ∧ state (run_task loads_demo in_order 0 L) = state L
  ∧ (∀ c m b, pc_of c L = Some (CondWait m b) →
       pc_of c (run_task loads_demo in_order 0 L) = Some (CondWait m b)
       ∧ ∃ cond, state (run_task loads_demo in_order 0 L) !! (m +:+ "_event")
                 = Some (Cond cond)
                 ∧ c ∈ waiters cond)
  ∧ (∀ c T', c ∈ [1; 2] → c ≠ 0 → c < length (tasks L) →
       tasks (run_task loads_demo in_order 0 L) !! c = Some T' →
       OnCompletion 0 0 ∉ t_callbacks T').
Proof.
  intros L.
  assert (wf L) as Hwf by apply wf_run, wf_fresh_loop.
  split; [exact Hwf|]. split; [reflexivity|].
  apply (any_wait_leaves_pending_registered loads_demo in_order 0
           (mkTask (Wait ByTask 0 [1; 2] Done) [] false NoTimer)
           ByTask 0 [1; 2] Done L Hwf);
    [reflexivity|reflexivity|discriminate].
Defined.

(** X3 for a task that is about to wait for topic ["a"]. *)
Lemma await_message_registers_last_witness :
  let L := deliver (Spawn (CAwaitMessage "a")) fresh_loop in
  pc_of 0 (run_task loads_demo in_order 0 L) = Some (CondWait "a" false)
  ∧ state (run_task loads_demo in_order 0 L)
    = <["a_event" := Cond (mkCondition false [] [0] 0)]> (state L)
  ∧ (∀ u, u ≠ 0 → tasks (run_task loads_demo in_order 0 L) !! u = tasks L !! u)
  ∧ ready (run_task loads_demo in_order 0 L) = ready L
  ∧ out (run_task loads_demo in_order 0 L) = out L.
Proof.
  intros L.
  apply (await_message_registers_last loads_demo in_order 0
           (mkTask (Start (CAwaitMessage "a")) [] false NoTimer) L "a" new_condition);
    [apply wf_deliver, wf_fresh_loop|reflexivity..].
Defined.

(** X4 for a task that is about to wait for ["x"], which has no
    condition. *)
Lemma await_message_unknown_name_raises_witness :
  let L := deliver (Spawn (CAwaitMessage "x")) fresh_loop in
  pc_of 0 (run_task loads_demo in_order 0 L) = Some (Finished (Exc (KeyError "x_event")))
  ∧ state (run_task loads_demo in_order 0 L) = state L
  ∧ (∀ u, u ≠ 0 → tasks (run_task loads_demo in_order 0 L) !! u = tasks L !! u)
  ∧ ready (run_task loads_demo in_order 0 L) = ready L ++ []
  ∧ out (run_task loads_demo in_order 0 L) = out L.
Proof.
  intros L.
  apply (await_message_unknown_name_raises loads_demo in_order 0
           (mkTask (Start (CAwaitMessage "x")) [] false NoTimer) L "x"); reflexivity.
Defined.

(** X5 for a waiter on topic ["a"] that the datagram ["a1"] has woken. *)
Lemma await_message_returns_its_name_witness :
  let L := exec loads_demo in_order
             [Input (Spawn (CAwaitMessage "a")); Next; Input (Datagram "a1"); Next]
             fresh_loop in
  pc_of 0 (run_task loads_demo in_order 0 L) = Some (Finished (Ret (VStr "a")))
  ∧ ∃ c, state L !! "a_event" = Some (Cond c)
         ∧ state (run_task loads_demo in_order 0 L)
           = <["a_event" :=
                 Cond (mkCondition false [] (remove_first 0 (waiters c)) (notified c))]>
               (state L)
         ∧ (0 ∉ remove_first 0 (waiters c))
         ∧ (∀ u, u ≠ 0 → u ∈ waiters c → u ∈ remove_first 0 (waiters c)).
Proof.
  intros L.
  apply (await_message_returns_its_name loads_demo in_order 0
           (mkTask (CondWait "a" true) [] false NoTimer) L "a");
    [apply wf_exec, wf_fresh_loop|reflexivity..].
Defined.

(** X6 for the datagram ["a1"] and one waiter on topic ["a"]. *)
Lemma dispatch_wakes_its_waiters_witness :
  let L := exec loads_demo in_order
             [Input (Spawn (CAwaitMessage "a")); Next; Input (Datagram "a1")] fresh_loop in
  (∀ w, w ∈ [0] → pc_of w (run_task loads_demo in_order 1 L) = Some (CondWait "a" true))
  ∧ (∀ u, u ∉ [0] → u ≠ 1 → tasks (run_task loads_demo in_order 1 L) !! u = tasks L !! u)
  ∧ ready (run_task loads_demo in_order 1 L)
    = ready L ++ (Run <$> filter (λ w, pending_at L w = true) [0]) ++ [].
Proof.
  intros L.
  apply (dispatch_wakes_its_waiters loads_demo in_order 1
           (mkTask (Start (CDecoder "a1")) [] false NoTimer) L "a1" "a"
           (JObj [("1", JInt 1)]) (mkCondition false [] [0] 0));
    [apply wf_exec, wf_fresh_loop|reflexivity..].
Defined.

(** X7 for a call without names. *)
Lemma await_any_of_nothing_raises_witness :
  let L := deliver (Spawn (CAwaitAny [])) fresh_loop in
  pc_of 0 (run_task loads_demo in_order 0 L) = Some (Finished (Exc ValueError_empty_set))
  ∧ length (tasks (run_task loads_demo in_order 0 L)) = length (tasks L)
  ∧ state (run_task loads_demo in_order 0 L) = state L
  ∧ out (run_task loads_demo in_order 0 L) = out L
  ∧ ready (run_task loads_demo in_order 0 L) = ready L ++ [].
Proof.
  intros L.
  apply (await_any_of_nothing_raises loads_demo in_order 0
           (mkTask (Start (CAwaitAny [])) [] false NoTimer) L); reflexivity.
Defined.

(** X8 for a call without names. *)
Lemma await_all_of_nothing_returns_witness :
  let L := deliver (Spawn (CAwaitAll [])) fresh_loop in
  pc_of 0 (run_task loads_demo in_order 0 L) = Some (Finished (Ret (VTuple [])))
  ∧ length (tasks (run_task loads_demo in_order 0 L)) = length (tasks L)
  ∧ state (run_task loads_demo in_order 0 L) = state L
  ∧ out (run_task loads_demo in_order 0 L) = out L
  ∧ ready (run_task loads_demo in_order 0 L) = ready L ++ [].
Proof.
  intros L.
  apply (await_all_of_nothing_returns loads_demo in_order 0
           (mkTask (Start (CAwaitAll [])) [] false NoTimer) L); reflexivity.
Defined.

(** X9 for a call for ["a"] and ["b"]. *)
Lemma await_any_spawns_a_task_per_name_witness :
  let L := deliver (Spawn (CAwaitAny ["a"; "b"])) fresh_loop in
  state (run_task loads_demo in_order 0 L) = state L
  ∧ out (run_task loads_demo in_order 0 L) = out L
  ∧ tasks (run_task loads_demo in_order 0 L) !! 0
    = Some (mkTask (Wait ByTask 0 [1; 2] Pending) [] false NoTimer)
  ∧ (∀ i m, in_order _ ["a"; "b"] !! i = Some m →
       tasks (run_task loads_demo in_order 0 L) !! (1 + i)
       = Some (mkTask (Start (CAwaitMessage m)) [OnCompletion 0 0] false NoTimer))
  ∧ ready (run_task loads_demo in_order 0 L) = ready L ++ [Run 1; Run 2]
  ∧ (∀ u, u ≠ 0 → u < 1 → tasks (run_task loads_demo in_order 0 L) !! u = tasks L !! u).
Proof.
  intros L.
  apply (await_any_spawns_a_task_per_name loads_demo in_order 0
           (mkTask (Start (CAwaitAny ["a"; "b"])) [] false NoTimer) L ["a"; "b"]);
    [reflexivity|reflexivity|discriminate].
Defined.

(** X10 for a call for ["a"] and ["b"] that the datagram ["a1"] has
    resolved. *)
Lemma await_any_returns_the_done_children_witness :
  let L := run loads_demo in_order
             [[Spawn (CAwaitAny ["a"; "b"])]; []; [Datagram "a1"]; []; []] fresh_loop in
  state (run_task loads_demo in_order 0 L) = state L
  ∧ out (run_task loads_demo in_order 0 L) = out L
  ∧ ((∃ e c, pc_of 0 (run_task loads_demo in_order 0 L) = Some (Finished (Exc e))
             ∧ c ∈ [1; 2] ∧ result_of c L = Some (Exc e))
     ∨ (∃ vs, pc_of 0 (run_task loads_demo in_order 0 L) = Some (Finished (Ret (VList vs)))
              ∧ Ret <$> vs ≡ₚ omap (λ c, result_of c L) [1; 2])).
Proof.
  intros L.
  apply (await_any_returns_the_done_children loads_demo in_order 0
           (mkTask (Wait ByTask 0 [1; 2] Done) [] false NoTimer) L 0 [1; 2]);
    [intros A l; reflexivity|reflexivity..].
Defined.

(** X12 for the notifier of [main], over a run with a datagram. *)
Lemma notifier_never_returns_witness :
  let acts := [Next; Next; Next; Next; Next; Next; Next;
               Input (Datagram "a1"); Next; Next; Next; Next; Next; Next] in
  (∃ p, pc_of 0 (exec loads_demo in_order acts main) = Some p ∧ notifier_pc p)
  ∧ ∀ v, pc_of 0 (exec loads_demo in_order acts main) ≠ Some (Finished (Ret v)).
Proof.
  intros acts. apply (notifier_never_returns loads_demo in_order 0 main acts). reflexivity.
Defined.

(** X13 for the monitor of [main]. *)
Lemma monitor_arms_its_deadline_witness :
  state (run_task loads_demo in_order 1 main) = state main
  ∧ out (run_task loads_demo in_order 1 main) = out main
  ∧ tasks (run_task loads_demo in_order 1 main) !! 1
    = Some (mkTask (Wait ByMonitor 0
                      (seq (length (tasks main)) (length (in_order _ ["a"; "b"]))) Pending)
                   [] false Armed)
  ∧ (∀ i m, in_order _ ["a"; "b"] !! i = Some m →
       tasks (run_task loads_demo in_order 1 main) !! (length (tasks main) + i)
       = Some (mkTask (Start (CAwaitMessage m)) [OnCompletion 1 0] false NoTimer))
  ∧ ready (run_task loads_demo in_order 1 main)
    = ready main ++ (Run <$> seq (length (tasks main)) (length (in_order _ ["a"; "b"]))).
Proof.
  apply (monitor_arms_its_deadline loads_demo in_order 1
           (mkTask (Start CMonitor) [] false NoTimer) main); reflexivity.
Defined.

(** X14 for the monitor of [main] when its deadline comes in the second
    iteration of the loop. *)
Lemma monitor_deadline_prints_failed_witness :
  let L := run loads_demo in_order [[]; [Deadline 1]] main in
  state (run_task loads_demo in_order 1 L) = state L
  ∧ (∀ u, u ≠ 1 → pc_of u (run_task loads_demo in_order 1 L) = pc_of u L)
  ∧ (Fired = Fired →
       out (run_task loads_demo in_order 1 L) = out L ++ [LConditionsFailed]
       ∧ pc_of 1 (run_task loads_demo in_order 1 L) = Some (Finished (Ret VNone)))
  ∧ (Fired ≠ Fired →
       out (run_task loads_demo in_order 1 L) = out L
       ∧ pc_of 1 (run_task loads_demo in_order 1 L) = Some (Finished (Exc CancelledError))).
Proof.
  intros L.
  apply (monitor_deadline_prints_failed loads_demo in_order 1
           (mkTask (Wait ByMonitor 0 [5; 6] Cancelled) [] false Fired) L 0 [5; 6] Cancelled);
    [reflexivity|reflexivity|exact I].
Defined.

(** X15 for the monitor of [main] after the datagrams ["a512"] and
    ["b16"]. *)
Lemma monitor_checks_the_condition_witness :
  let L := run loads_demo in_order
             [[]; []; [Datagram "a512"; Datagram "b16"]; []; []] main in
  state (run_task loads_demo in_order 1 L) = state L
  ∧ (monitor_condition L = inl true →
       out (run_task loads_demo in_order 1 L) = out L ++ [LArrived ["a"; "b"]; LConditionMet]
       ∧ pc_of 1 (run_task loads_demo in_order 1 L) = Some (Finished (Ret VNone))
       ∧ timer_of 1 (run_task loads_demo in_order 1 L) = Some (disarmed Armed))
  ∧ (∀ a1 b3,
       monitor_condition L = inl false →
       state_lookup "a" "1" L = inl a1 → state_lookup "b" "3" L = inl b3 →
       out (run_task loads_demo in_order 1 L) = out L ++ [LArrived ["a"; "b"]; LValues a1 b3]
       ∧ pc_of 1 (run_task loads_demo in_order 1 L)
         = Some (Wait ByMonitor 1
                   (seq (length (tasks L)) (length (in_order _ ["a"; "b"]))) Pending)
       ∧ timer_of 1 (run_task loads_demo in_order 1 L) = Some Armed)
  ∧ (∀ e,
       monitor_condition L = inr e
       ∨ (monitor_condition L = inl false ∧ state_lookup "b" "3" L = inr e) →
       out (run_task loads_demo in_order 1 L) = out L ++ [LArrived ["a"; "b"]]
       ∧ pc_of 1 (run_task loads_demo in_order 1 L) = Some (Finished (Exc e))
       ∧ timer_of 1 (run_task loads_demo in_order 1 L) = Some (disarmed Armed)).
Proof.
  intros L.
  apply (monitor_checks_the_condition loads_demo in_order 1
           (mkTask (Wait ByMonitor 0 [5; 6] Done) [] false Armed) L 0 [5; 6]
           [VStr "a"; VStr "b"] ["a"; "b"]);
    reflexivity.
Defined.

(** X16 for the same step of the monitor. *)
Lemma monitor_prints_one_verdict_witness :
  let L := run loads_demo in_order
             [[]; []; [Datagram "a512"; Datagram "b16"]; []; []] main in
  ∃ printed,
    out (run_task loads_demo in_order 1 L) = out L ++ printed
    ∧ match pc_of 1 (run_task loads_demo in_order 1 L) with
      | Some (Finished (Ret v)) =>
          v = VNone
          ∧ (filter (λ l, verdict l = true) printed = [LConditionMet]
             ∨ filter (λ l, verdict l = true) printed = [LConditionsFailed])
      | _ => filter (λ l, verdict l = true) printed = []
      end.
Proof.
  intros L.
  apply (monitor_prints_one_verdict loads_demo in_order 1
           (mkTask (Wait ByMonitor 0 [5; 6] Done) [] false Armed) L);
    [reflexivity|right; by exists 0, [5; 6], Done].
Defined.

(** X17 for a call for ["a"] and ["x"], of which [state] knows only
    ["a"], while a datagram for ["a"] arrives. *)
Lemma await_any_unknown_name_fails_witness :
  let L := deliver (Spawn (CAwaitAny ["a"; "x"])) fresh_loop in
  ∃ y e, y ∈ ["a"; "x"] ∧ UnknownTopic y e
         ∧ pc_of 0 (run loads_demo in_order [[]; [Datagram "a1"]; []; []; []] L)
           = Some (Finished (Exc e)).
Proof.
  intros L.
  apply (await_any_unknown_name_fails loads_demo in_order 0 ["a"; "x"] "x"
           [[]; [Datagram "a1"]; []; []; []] L).
  - intros A l. reflexivity.
  - apply wf_deliver, wf_fresh_loop.
  - intros c. vm_compute. discriminate.
  - right. left.
  - exists (mkTask (Start (CAwaitAny ["a"; "x"])) [] false NoTimer), [], [].
    repeat split; try reflexivity; intros Hin; inversion Hin.
  - simpl. lia.
Defined.
